(** * SLRE: a shallow embedding of [slre.c] and its verified properties

    The C program is embedded as explicit state passing.  Pointers into the
    pattern ([re], [ptr], [schlong]) and into the subject ([s]) are byte
    offsets into two fixed buffers; [int] values are [Z] (every value the
    program computes is bounded by a buffer length, so no overflow arises).
    Every loop and every recursive procedure is a structural [Fixpoint] on
    a budget: the iterations left for a loop, the sub-pattern length for
    [bar], the bracket nesting for [doh].  [None] means a budget ran out
    and is never a C result; the totality theorems below show that it does
    not happen. *)

From Stdlib Require Import ZArith List String Ascii Bool Lia.
Import ListNotations.

Local Open Scope char_scope.
Local Open Scope Z_scope.

(** ** Buffers and arrays *)

(** [buf[p]]: a byte of a NUL-terminated buffer; the byte at the end of
    the text is the terminator. *)
Definition char_at (buf : string) (p : Z) : ascii :=
  if p <? 0 then zero
  else match String.get (Z.to_nat p) buf with
       | Some c => c
       | None => zero
       end.

Fixpoint strlen_nat (buf : string) : nat :=
  match buf with
  | EmptyString => O
  | String c rest => if Ascii.eqb c zero then O else S (strlen_nat rest)
  end.

Definition strlen (buf : string) : Z := Z.of_nat (strlen_nat buf).

Definition array_get {A : Type} (d : A) (a : list A) (k : Z) : A :=
  if k <? 0 then d else nth (Z.to_nat k) a d.

(** A store into slot [k]; the list holds the slots written so far, and a
    store into the first free slot extends it.  A slot never written reads
    as the default of [array_get]; the program reads no such slot. *)
Fixpoint list_set {A : Type} (a : list A) (k : nat) (v : A) : list A :=
  match a, k with
  | [], O => [v]
  | [], S _ => []
  | _ :: t, O => v :: t
  | x :: t, S k' => x :: list_set t k' v
  end.

Definition array_set {A : Type} (a : list A) (k : Z) (v : A) : list A :=
  if k <? 0 then a else list_set a (Z.to_nat k) v.

(** ** Data model *)

Definition static_error_no_match : string := "No match"%string.
Definition static_error_unexpected_quantifier : string :=
  "Unexpected quantifier"%string.
Definition static_error_unbalanced_brackets : string :=
  "Unbalanced brackets"%string.
Definition static_error_internal : string := "Internal error"%string.
Definition static_error_invalid_metacharacter : string :=
  "Invalid metacharacter"%string.
Definition error_too_many_branches : string :=
  "Too many |. Increase MAX_BRANCHES"%string.
Definition error_too_many_brackets : string :=
  "Too many (. Increase MAX_BRACKETS"%string.

Definition MAX_BRANCHES : Z := 100.
Definition MAX_BRACKETS : Z := 100.

Module bracket_pair.
Record t : Type := mk {
  ptr : Z;          (* offset of the first char after '(' in the regex *)
  len : Z;          (* length of the text between '(' and ')' *)
  branches : Z;     (* index in the branches array for this pair *)
  num_branches : Z  (* number of '|' in this bracket pair *)
}.
Definition zero : t := mk 0 0 0 0.
Definition set_ptr (b : t) (v : Z) : t :=
  mk v (len b) (branches b) (num_branches b).
Definition set_len (b : t) (v : Z) : t :=
  mk (ptr b) v (branches b) (num_branches b).
Definition set_branches (b : t) (v : Z) : t :=
  mk (ptr b) (len b) v (num_branches b).
Definition set_num_branches (b : t) (v : Z) : t :=
  mk (ptr b) (len b) (branches b) v.
End bracket_pair.

Module branch.
Record t : Type := mk {
  bracket_index : Z;  (* index into the brackets array *)
  schlong : Z         (* offset of the '|' character in the regex *)
}.
Definition zero : t := mk 0 0.
End branch.

Module slre_cap.
Record t : Type := mk {
  ptr : Z;  (* offset of the captured text in the subject *)
  len : Z
}.
End slre_cap.

Record regex_info : Type := mk_regex_info {
  brackets : list bracket_pair.t;
  num_brackets : Z;
  branches : list branch.t;
  num_branches : Z;
  error_msg : string;
  flags : Z
}.

Definition set_brackets (info : regex_info) (v : list bracket_pair.t) :=
  mk_regex_info v (num_brackets info) (branches info) (num_branches info)
                (error_msg info) (flags info).
Definition set_num_brackets (info : regex_info) (v : Z) :=
  mk_regex_info (brackets info) v (branches info) (num_branches info)
                (error_msg info) (flags info).
Definition set_branches (info : regex_info) (v : list branch.t) :=
  mk_regex_info (brackets info) (num_brackets info) v (num_branches info)
                (error_msg info) (flags info).
Definition set_num_branches (info : regex_info) (v : Z) :=
  mk_regex_info (brackets info) (num_brackets info) (branches info) v
                (error_msg info) (flags info).
Definition set_error_msg (info : regex_info) (v : string) :=
  mk_regex_info (brackets info) (num_brackets info) (branches info)
                (num_branches info) v (flags info).

Definition bracket_at (info : regex_info) (k : Z) : bracket_pair.t :=
  array_get bracket_pair.zero (brackets info) k.
Definition branch_at (info : regex_info) (k : Z) : branch.t :=
  array_get branch.zero (branches info) k.

(** The memory a call works on: the caller's capture array ([None] is the
    NULL pointer) and the analysis record. *)
Record mem : Type := mk_mem {
  caps : option (list slre_cap.t);
  info : regex_info
}.

(** [FAIL_IF(cond, msg)] when [cond] holds: set the reason, return 0. *)
Definition FAIL_mem (m : mem) (msg : string) : option (Z * mem) :=
  Some (0, mk_mem (caps m) (set_error_msg (info m) msg)).

Definition isspace (c : ascii) : bool :=
  let n := Z.of_nat (nat_of_ascii c) in
  ((9 <=? n) && (n <=? 13)) || (n =? 32).

Definition isdigit (c : ascii) : bool :=
  let n := Z.of_nat (nat_of_ascii c) in
  (48 <=? n) && (n <=? 57).

(** ** The matcher: [bar] and [doh] *)

Section Matcher.

(** The pattern and subject buffers every pointer of a call points into. *)
Variables (pat subj : string).

Definition get_op_len (re : Z) : Z :=
  if Ascii.eqb (char_at pat re) "\" then 2 else 1.

Definition is_quantifier (re : Z) : bool :=
  Ascii.eqb (char_at pat re) "*" || Ascii.eqb (char_at pat re) "+"
  || Ascii.eqb (char_at pat re) "?".

(** The escaped characters that stand for themselves. *)
Definition is_escaped_literal (c : ascii) : bool :=
  Ascii.eqb c "+" || Ascii.eqb c "?" || Ascii.eqb c "*" || Ascii.eqb c "\"
  || Ascii.eqb c "(" || Ascii.eqb c ")" || Ascii.eqb c "^" || Ascii.eqb c "$"
  || Ascii.eqb c "." || Ascii.eqb c "[" || Ascii.eqb c "]".

(** [caps[k].ptr = p; caps[k].len = n] when [caps] is not NULL.  The caller
    provides the capacity: the C program has no defined store past it. *)
Definition store_cap (m : mem) (k : Z) (p n : Z) : mem :=
  match caps m with
  | Some a => mk_mem (Some (array_set a k (slre_cap.mk p n))) (info m)
  | None => m
  end.

(** Alternative [i] of bracket [b] starts at [p] = [alt_ptr] and is [len] =
    [alt_len] bytes long, as [doh] computes them. *)
Definition alt_ptr (inf : regex_info) (b : bracket_pair.t) (i : Z) : Z :=
  if i =? 0 then bracket_pair.ptr b
  else branch.schlong (branch_at inf (bracket_pair.branches b + i - 1)) + 1.

Definition alt_len (inf : regex_info) (b : bracket_pair.t) (i p : Z) : Z :=
  if bracket_pair.num_branches b =? 0 then bracket_pair.len b
  else if i =? bracket_pair.num_branches b
       then bracket_pair.ptr b + bracket_pair.len b - p
       else branch.schlong (branch_at inf (bracket_pair.branches b + i)) - p.

(** The iteration budget of a loop whose counter runs from [from] up to
    [upto]: one more than the distance left. *)
Definition budget (upto from : Z) : nat := S (Z.to_nat (upto - from)).

Section Level.

(** [doh] for the brackets nested below the current one. *)
Variable doh : Z -> Z -> mem -> Z -> option (Z * mem).

Section Call.

(** [bar] for the sub-patterns shorter than the current one. *)
Variable bar : Z -> Z -> Z -> Z -> mem -> Z -> option (Z * mem).

(** The [while] loop of a "+" or "*" quantifier, entered with [j2] and
    [nj]; it yields the final [nj]. *)
Fixpoint quant_loop (fuel : nat) (re re_len s s_len i step ni : Z)
         (non_greedy : bool) (bi j2 nj : Z) (m : mem) : option (Z * mem) :=
  match fuel with
  | O => None
  | S fuel =>
    match bar (re + i) step (s + j2) (s_len - j2) m bi with
    | None => None
    | Some (n1, m1) =>
      if n1 >? 0 then
        let after :=
          if ni >=? re_len then Some (j2 + n1, m1)
          else
            match bar (re + ni) (re_len - ni) (s + j2 + n1)
                      (s_len - (j2 + n1)) m1 bi with
            | None => None
            | Some (n2, m2) =>
              Some (if n2 >? 0 then j2 + n1 + n2 else nj, m2)
            end in
        match after with
        | None => None
        | Some (nj1, m2) =>
          if (nj1 >? 0) && non_greedy then Some (nj1, m2)
          else quant_loop fuel re re_len s s_len i step ni non_greedy bi
                          (j2 + n1) nj1 m2
        end
      else Some (nj, m1)
    end
  end.

(** The [for] loop of [bar], entered at the cursors [i] and [j] with the
    local [bi]. *)
Fixpoint bar_loop (fuel : nat) (re re_len s s_len i j bi : Z) (m : mem)
  : option (Z * mem) :=
  match fuel with
  | O => None
  | S fuel =>
    if (i <? re_len) && (j <? s_len) then
      let step := get_op_len (re + i) in
      if is_quantifier (re + i)
      then FAIL_mem m static_error_unexpected_quantifier
      else if step <=? 0 then FAIL_mem m static_error_internal
      else
        let look := (i + step <? re_len) && is_quantifier (re + i + step) in
        let q := char_at pat (re + i + step) in
        if look && Ascii.eqb q "?" then
          match bar (re + i) step (s + j) (s_len - j) m bi with
          | None => None
          | Some (n, m1) =>
            bar_loop fuel re re_len s s_len (i + 1 + step) (j + n) bi m1
          end
        else if look && (Ascii.eqb q "+" || Ascii.eqb q "*") then
          let non_greedy :=
            (i + step + 1 <? re_len)
            && Ascii.eqb (char_at pat (re + i + step + 1)) "?" in
          let next_step :=
            get_op_len (re + i + step) + (if non_greedy then 1 else 0) in
          let ni := i + step + next_step in
          match quant_loop (budget s_len j) re re_len s s_len i step ni
                           non_greedy bi j 0 m with
          | None => None
          | Some (nj, m1) =>
            if Ascii.eqb q "+" && (nj =? 0)
            then FAIL_mem m1 static_error_no_match
            else Some (nj, m1)
          end
        else
          let c := char_at pat (re + i) in
          if Ascii.eqb c "\" then
            let e := char_at pat (re + i + 1) in
            let x := char_at subj (s + j) in
            if Ascii.eqb e "S" then
              if isspace x then FAIL_mem m static_error_no_match
              else bar_loop fuel re re_len s s_len (i + step) (j + 1) bi m
            else if Ascii.eqb e "s" then
              if negb (isspace x) then FAIL_mem m static_error_no_match
              else bar_loop fuel re re_len s s_len (i + step) (j + 1) bi m
            else if Ascii.eqb e "d" then
              if negb (isdigit x) then FAIL_mem m static_error_no_match
              else bar_loop fuel re re_len s s_len (i + step) (j + 1) bi m
            else if is_escaped_literal e then
              if negb (Ascii.eqb e x) then FAIL_mem m static_error_no_match
              else bar_loop fuel re re_len s s_len (i + step) (j + 1) bi m
            else FAIL_mem m static_error_invalid_metacharacter
          else if Ascii.eqb c "(" then
            let bi := bi + 1 in
            if bi >=? num_brackets (info m)
            then FAIL_mem m static_error_internal
            else
              match doh (s + j) (s_len - j) m bi with
              | None => None
              | Some (n, m1) =>
                if n <=? 0 then FAIL_mem m1 static_error_no_match
                else
                  let m2 := store_cap m1 (bi - 1) (s + j) n in
                  bar_loop fuel re re_len s s_len
                           (i + (bracket_pair.len (bracket_at (info m2) bi) + 1)
                            + step)
                           (j + n) bi m2
              end
          else if Ascii.eqb c "^" then
            if negb (j =? 0) then FAIL_mem m static_error_no_match
            else bar_loop fuel re re_len s s_len (i + step) j bi m
          else if Ascii.eqb c "|" then FAIL_mem m static_error_internal
          else if Ascii.eqb c "$" then FAIL_mem m static_error_no_match
          else if Ascii.eqb c "." then
            bar_loop fuel re re_len s s_len (i + step) (j + 1) bi m
          else
            if negb (Ascii.eqb c (char_at subj (s + j)))
            then FAIL_mem m static_error_no_match
            else bar_loop fuel re re_len s s_len (i + step) (j + 1) bi m
    else
      (* the $ anchor: the subject is exhausted but the regex is not *)
      if (i <? re_len)
         && negb (Ascii.eqb (char_at pat (re + i)) "$" && (i + 1 =? re_len))
      then FAIL_mem m static_error_no_match
      else Some (j, m)
  end.

End Call.

(** [bar]; [fuel] bounds the length of the sub-pattern: each nested call
    is on a strictly shorter one. *)
Fixpoint bar (fuel : nat) (re re_len s s_len : Z) (m : mem) (bi : Z)
  : option (Z * mem) :=
  match fuel with
  | O => None
  | S fuel =>
    bar_loop (bar fuel) (budget re_len 0) re re_len s s_len 0 0 bi m
  end.

(** The [do ... while] of [doh], entered at alternative [i]. *)
Fixpoint doh_loop (fuel : nat) (s s_len bi i : Z) (m : mem)
  : option (Z * mem) :=
  match fuel with
  | O => None
  | S fuel =>
    let b := bracket_at (info m) bi in
    let p := alt_ptr (info m) b i in
    let len := alt_len (info m) b i p in
    match bar (budget len 0) p len s s_len m bi with
    | None => None
    | Some (result, m1) =>
      if i <? bracket_pair.num_branches b
      then doh_loop fuel s s_len bi (i + 1) m1
      else Some (result, m1)
    end
  end.

End Level.

(** [doh]; [fuel] bounds the bracket nesting: each nested call is on a
    bracket of larger index. *)
Fixpoint doh (fuel : nat) (s s_len : Z) (m : mem) (bi : Z)
  : option (Z * mem) :=
  match fuel with
  | O => None
  | S fuel =>
    doh_loop (doh fuel)
             (budget (bracket_pair.num_branches (bracket_at (info m) bi)) 0)
             s s_len bi 0 m
  end.

End Matcher.

(** ** The branch resolver: [setup_branch_points] *)

Definition swap_branches (a : list branch.t) (i j : Z) : list branch.t :=
  let tmp := array_get branch.zero a i in
  let a1 := array_set a i (array_get branch.zero a j) in
  array_set a1 j tmp.

(** The inner [for (j = i + 1; j < num_branches; j++)], with [k] iterations
    left. *)
Fixpoint sort_inner (k : nat) (i j : Z) (a : list branch.t) : list branch.t :=
  match k with
  | O => a
  | S k =>
    let a1 :=
      if branch.bracket_index (array_get branch.zero a i)
         >? branch.bracket_index (array_get branch.zero a j)
      then swap_branches a i j
      else a in
    sort_inner k i (j + 1) a1
  end.

(** The outer [for (i = 0; i < num_branches; i++)], with [k] iterations
    left. *)
Fixpoint sort_outer (k : nat) (n i : Z) (a : list branch.t) : list branch.t :=
  match k with
  | O => a
  | S k =>
    sort_outer k n (i + 1) (sort_inner (Z.to_nat (n - (i + 1))) i (i + 1) a)
  end.

Definition sort_branches (n : Z) (a : list branch.t) : list branch.t :=
  sort_outer (Z.to_nat n) n 0 a.

(** The [while] that counts the branches of bracket [i] from cursor [j],
    with at most [k] branches left; returns the count and the new cursor. *)
Fixpoint count_branches (k : nat) (inf : regex_info) (i j cnt : Z) : Z * Z :=
  match k with
  | O => (cnt, j)
  | S k =>
    if (j <? num_branches inf)
       && (branch.bracket_index (branch_at inf j) =? i)
    then count_branches k inf i (j + 1) (cnt + 1)
    else (cnt, j)
  end.

(** The second [for (i = j = 0; i < num_brackets; i++)], with [k] brackets
    left. *)
Fixpoint assign_branches (k : nat) (inf : regex_info) (i j : Z) : regex_info :=
  match k with
  | O => inf
  | S k =>
    let '(cnt, j1) :=
      count_branches (Z.to_nat (num_branches inf - j)) inf i j 0 in
    let b := bracket_pair.set_branches
               (bracket_pair.set_num_branches (bracket_at inf i) cnt) j in
    assign_branches k (set_brackets inf (array_set (brackets inf) i b))
                    (i + 1) j1
  end.

Definition setup_branch_points (inf : regex_info) : regex_info :=
  let inf1 :=
    set_branches inf (sort_branches (num_branches inf) (branches inf)) in
  assign_branches (Z.to_nat (num_brackets inf1)) inf1 0 0.

(** ** The analyzer and the outer driver: [foo] *)

Section Driver.

Variables (pat subj : string).

(** The innermost bracket still open: the last one pushed if its [len] is
    the sentinel, else the one at [depth]. *)
Definition open_bracket (inf : regex_info) (depth : Z) : Z :=
  if bracket_pair.len (bracket_at inf (num_brackets inf - 1)) =? -1
  then num_brackets inf - 1
  else depth.

(** What one iteration of the scanning loop does at offset [i]. *)
Inductive scan_result : Type :=
| ScanFail (inf : regex_info)               (* FAIL_IF fired: return 0 *)
| ScanNext (inf : regex_info) (depth : Z).  (* go on to [i + step] *)

Definition foo_step (re i : Z) (inf : regex_info) (depth : Z) : scan_result :=
  let c := char_at pat (re + i) in
  if Ascii.eqb c "|" then
    if num_branches inf >=? MAX_BRANCHES
    then ScanFail (set_error_msg inf error_too_many_branches)
    else
      let br := branch.mk (open_bracket inf depth) (re + i) in
      ScanNext
        (set_num_branches
           (set_branches inf (array_set (branches inf) (num_branches inf) br))
           (num_branches inf + 1))
        depth
  else if Ascii.eqb c "(" then
    if num_brackets inf >=? MAX_BRACKETS
    then ScanFail (set_error_msg inf error_too_many_brackets)
    else
      let depth := depth + 1 in
      let b := bracket_pair.set_len
                 (bracket_pair.set_ptr (bracket_at inf (num_brackets inf))
                                       (re + i + 1))
                 (-1) in
      ScanNext
        (set_num_brackets
           (set_brackets inf (array_set (brackets inf) (num_brackets inf) b))
           (num_brackets inf + 1))
        depth
  else if Ascii.eqb c ")" then
    let ind := open_bracket inf depth in
    let b := bracket_pair.set_len (bracket_at inf ind)
               (re + i - bracket_pair.ptr (bracket_at inf ind)) in
    let inf1 := set_brackets inf (array_set (brackets inf) ind b) in
    let depth := depth - 1 in
    if depth <? 0
    then ScanFail (set_error_msg inf1 static_error_unbalanced_brackets)
    else if (i >? 0) && Ascii.eqb (char_at pat (re + i - 1)) "("
    then ScanFail (set_error_msg inf1 static_error_no_match)
    else ScanNext inf1 depth
  else ScanNext inf depth.

(** The scanning loop [for (i = 0; i < re_len; i += step)] entered at [i];
    on normal exit it yields the record and the final [depth]. *)
Fixpoint foo_scan (fuel : nat) (re re_len i : Z) (inf : regex_info)
         (depth : Z) : option scan_result :=
  match fuel with
  | O => None
  | S fuel =>
    if i <? re_len then
      match foo_step re i inf depth with
      | ScanFail inf1 => Some (ScanFail inf1)
      | ScanNext inf1 depth1 =>
        foo_scan fuel re re_len (i + get_op_len pat (re + i)) inf1 depth1
      end
    else Some (ScanNext inf depth)
  end.

(** The matching loop [for (i = 0; i < s_len; i++)] entered at [i] with the
    current [result]. *)
Fixpoint foo_match (fuel : nat) (re s s_len i result : Z) (m : mem)
  : option (Z * mem) :=
  match fuel with
  | O => None
  | S fuel =>
    if i <? s_len then
      match doh pat subj (Z.to_nat (num_brackets (info m)))
                (s + i) (s_len - i) m 0 with
      | None => None
      | Some (result1, m1) =>
        if (result1 >? 0) || Ascii.eqb (char_at pat (re + 0)) "^"
        then Some (result1 + i, m1)
        else foo_match fuel re s s_len (i + 1) result1 m1
      end
    else Some (result, m)
  end.

(** The first bracket captures everything. *)
Definition foo_init (re re_len : Z) (inf : regex_info) : regex_info :=
  let b := bracket_pair.set_len
             (bracket_pair.set_ptr (bracket_at inf 0) re) re_len in
  set_num_brackets (set_brackets inf (array_set (brackets inf) 0 b)) 1.

Definition foo (re re_len s s_len : Z) (m : mem) : option (Z * mem) :=
  match foo_scan (budget re_len 0) re re_len 0
                 (foo_init re re_len (info m)) 0 with
  | None => None
  | Some (ScanFail inf1) => Some (0, mk_mem (caps m) inf1)
  | Some (ScanNext inf1 depth) =>
    if negb (depth =? 0)
    then FAIL_mem (mk_mem (caps m) inf1) static_error_unbalanced_brackets
    else foo_match (budget s_len 0) re s s_len 0 0
                   (mk_mem (caps m) (setup_branch_points inf1))
  end.

End Driver.

(** ** The public entry: [slre_match] *)

Definition initial_info : regex_info :=
  mk_regex_info [] 0 [] 0 static_error_no_match 0.

(** The result of a call: the returned [int], the capture array after the
    call and the reason written to [*error_msg]. *)
Definition slre_match (regexp s : string) (s_len : Z)
           (caps0 : option (list slre_cap.t))
  : option (Z * option (list slre_cap.t) * string) :=
  match foo regexp s 0 (strlen regexp) 0 s_len
            (mk_mem caps0 initial_info) with
  | None => None
  | Some (result, m) => Some (result, caps m, error_msg (info m))
  end.

(** * Specification vocabulary *)

Local Open Scope bool_scope.

(** The arrays of the analysis record; the matcher only writes the reason. *)
Definition arrays (inf : regex_info) :=
  (brackets inf, num_brackets inf, branches inf, num_branches inf).

(** A procedure is in range when its result lies between 0 and the length
    of the subject window, and leaves the arrays alone. *)
Definition bar_in_range
  (bar : Z -> Z -> Z -> Z -> mem -> Z -> option (Z * mem)) : Prop :=
  forall re re_len s s_len m bi r m',
    0 <= s_len ->
    bar re re_len s s_len m bi = Some (r, m') ->
    0 <= r <= s_len /\ arrays (info m') = arrays (info m).

Definition doh_in_range
  (doh : Z -> Z -> mem -> Z -> option (Z * mem)) : Prop :=
  forall s s_len m bi r m',
    0 <= s_len ->
    doh s s_len m bi = Some (r, m') ->
    0 <= r <= s_len /\ arrays (info m') = arrays (info m).

(** Every bracket has a length, or the sentinel of a bracket left open. *)
Definition wf_brackets (inf : regex_info) : Prop :=
  Forall (fun b => -1 <= bracket_pair.len b) (brackets inf).

(** A procedure is total on a class of calls when it never runs out of
    budget there. *)
Definition defined {A : Type} (x : option A) : Prop := x <> None.

(** At scan offset [p] every bracket recorded so far starts at or before
    [p] and has a length or the sentinel. *)
Definition scanned (p : Z) (inf : regex_info) : Prop :=
  Forall (fun b => bracket_pair.ptr b <= p /\ -1 <= bracket_pair.len b)
         (brackets inf)
  /\ 1 <= num_brackets inf.

(** [alts_run bar s s_len bi k i m r m']: from memory [m], the alternatives
    [i], [i+1], ..., [i+k] of bracket [bi] are each handed to [bar], in this
    order, each starting from the memory the one before left; the last of
    them returns [r] and leaves [m']. *)
Fixpoint alts_run (bar : Z -> Z -> Z -> Z -> mem -> Z -> option (Z * mem))
         (s s_len bi : Z) (k : nat) (i : Z) (m : mem) (r : Z) (m' : mem)
  : Prop :=
  let b := bracket_at (info m) bi in
  let p := alt_ptr (info m) b i in
  let len := alt_len (info m) b i p in
  match k with
  | O => bar p len s s_len m bi = Some (r, m')
  | S k =>
    exists r1 m1,
      bar p len s s_len m bi = Some (r1, m1)
      /\ alts_run bar s s_len bi k (i + 1) m1 r m'
  end.

(** [bar] as [doh] at nesting budget [S d] calls it. *)
Definition bar_of_doh (pat subj : string) (d : nat)
  : Z -> Z -> Z -> Z -> mem -> Z -> option (Z * mem) :=
  fun p len => bar pat subj (doh pat subj d) (budget len 0) p len.


(** Whether the quantifier after the atom at [i] carries the "?" suffix. *)
Definition non_greedy_at (pat : string) (re re_len i : Z) : bool :=
  let step := get_op_len pat (re + i) in
  (i + step + 1 <? re_len)
  && Ascii.eqb (char_at pat (re + i + step + 1)) "?".

(** The offset of the regex code after the quantifier. *)
Definition after_quantifier (pat : string) (re re_len i : Z) : Z :=
  i + get_op_len pat (re + i) + 1
  + (if non_greedy_at pat re re_len i then 1 else 0).

(** What [bar] does with the [nj] the repetition loop yields. *)
Definition quantifier_result (q : ascii) (r : option (Z * mem))
  : option (Z * mem) :=
  match r with
  | None => None
  | Some (nj, m1) =>
    if Ascii.eqb q "+" && (nj =? 0)
    then FAIL_mem m1 static_error_no_match
    else Some (nj, m1)
  end.

(** The state of the scanning loop of [foo] after [n] more iterations from
    offset [i]: the offset, the record and the depth; [None] when the loop
    has failed or ended before. *)
Fixpoint scan_after (pat : string) (n : nat) (re re_len i : Z)
         (inf : regex_info) (depth : Z) : option (Z * regex_info * Z) :=
  match n with
  | O => Some (i, inf, depth)
  | S n =>
    if i <? re_len then
      match foo_step pat re i inf depth with
      | ScanFail _ => None
      | ScanNext inf1 depth1 =>
        scan_after pat n re re_len (i + get_op_len pat (re + i)) inf1 depth1
      end
    else None
  end.

(** The record [slre_match] hands to the scan. *)
Definition scan_start (regexp : string) : regex_info :=
  foo_init 0 (strlen regexp) initial_info.

(** The scan of [regexp] by [slre_match] comes to offset [i] with the
    record [inf] and the depth counter at [depth]. *)
Definition scan_reaches (regexp : string) (i : Z) (inf : regex_info)
           (depth : Z) : Prop :=
  exists n,
    scan_after regexp n 0 (strlen regexp) 0 (scan_start regexp) 0
    = Some (i, inf, depth).

(** The scan as [slre_match] runs it. *)
Definition scan_of (regexp : string) : option scan_result :=
  foo_scan regexp (budget (strlen regexp) 0) 0 (strlen regexp) 0
           (scan_start regexp) 0.

(** The analysis record the matcher works on, when the analysis succeeds. *)
Definition analyzed (regexp : string) : option regex_info :=
  match scan_of regexp with
  | Some (ScanNext inf1 depth) =>
    if depth =? 0 then Some (setup_branch_points inf1) else None
  | _ => None
  end.

(** [regexp] has a ")" at offset [k] right after a "(". *)
Definition has_empty_pair (regexp : string) (k : Z) : Prop :=
  0 < k < strlen regexp
  /\ char_at regexp (k - 1) = "("
  /\ char_at regexp k = ")".

(** The key the sort compares. *)
Definition key_at (a : list branch.t) (k : Z) : Z :=
  branch.bracket_index (array_get branch.zero a k).

(** A branch of the implicit outermost bracket. *)
Definition in_bracket_0 (br : branch.t) : Prop := branch.bracket_index br = 0.

(** The analysis record of a pattern [pat] of length [E] without "(", as
    far as [doh] reads it: bracket 0 spans the pattern, and its last branch,
    if any, is a "|" inside it. *)
Definition spans_pattern (pat : string) (E : Z) (inf : regex_info) : Prop :=
  let b := bracket_at inf 0 in
  bracket_pair.ptr b = 0 /\ bracket_pair.len b = E
  /\ bracket_pair.branches b = 0 /\ 0 <= bracket_pair.num_branches b
  /\ (0 < bracket_pair.num_branches b ->
      let br := branch_at inf (bracket_pair.num_branches b - 1) in
      0 <= branch.schlong br < E /\ char_at pat (branch.schlong br) = "|").

(** What the scan keeps true of its record and depth on a pattern without
    "(": one bracket, depth 0, and every branch a "|" of bracket 0. *)
Definition plain_scan_state (regexp : string) (inf : regex_info) (depth : Z)
  : Prop :=
  brackets inf = [bracket_pair.mk 0 (strlen regexp) 0 0]
  /\ num_brackets inf = 1 /\ depth = 0
  /\ num_branches inf = Z.of_nat (List.length (branches inf))
  /\ Forall (fun br =>
               branch.bracket_index br = 0
               /\ 0 <= branch.schlong br < strlen regexp
               /\ char_at regexp (branch.schlong br) = "|")
            (branches inf).

(** ** The pieces of a bracket and the repetitions of an atom *)








(** Some number of repetitions of the atom at [i], at least one, taken from
    the cursor [j2] and the memory [m], is followed by a match of the rest
    of the pattern at [ni], or by the end of the pattern.  The repetitions
    are those the loop of the quantifier goes through: each one starts
    where the one before ended, from the memory the attempt on the rest
    left. *)
Inductive confirms (bar : Z -> Z -> Z -> Z -> mem -> Z -> option (Z * mem))
          (re re_len s s_len i step ni bi : Z) : Z -> mem -> Prop :=
| confirms_here j2 m n1 m1 :
    bar (re + i) step (s + j2) (s_len - j2) m bi = Some (n1, m1) ->
    0 < n1 ->
    (re_len <= ni
     \/ exists n2 m2,
         bar (re + ni) (re_len - ni) (s + j2 + n1) (s_len - (j2 + n1)) m1 bi
         = Some (n2, m2) /\ 0 < n2) ->
    confirms bar re re_len s s_len i step ni bi j2 m
| confirms_later j2 m n1 m1 n2 m2 :
    bar (re + i) step (s + j2) (s_len - j2) m bi = Some (n1, m1) ->
    0 < n1 ->
    ni < re_len ->
    bar (re + ni) (re_len - ni) (s + j2 + n1) (s_len - (j2 + n1)) m1 bi
    = Some (n2, m2) ->
    n2 <= 0 ->
    confirms bar re re_len s s_len i step ni bi (j2 + n1) m2 ->
    confirms bar re re_len s s_len i step ni bi j2 m.

(** ** Vocabulary of the further properties *)

(** A pattern byte that [bar] compares with one subject byte: any byte but
    the terminator and the metacharacters; "." stands for any byte. *)
Definition is_simple (c : ascii) : bool :=
  negb (Ascii.eqb c zero || Ascii.eqb c "\" || Ascii.eqb c "("
        || Ascii.eqb c ")" || Ascii.eqb c "|" || Ascii.eqb c "^"
        || Ascii.eqb c "$" || Ascii.eqb c "*" || Ascii.eqb c "+"
        || Ascii.eqb c "?").

Fixpoint all_simple (buf : string) : bool :=
  match buf with
  | EmptyString => true
  | String c rest => is_simple c && all_simple rest
  end.

(** A buffer without "(", ")" and "|": a pattern of one alternative and no
    group. *)
Fixpoint is_flat (buf : string) : bool :=
  match buf with
  | EmptyString => true
  | String c rest =>
    negb (Ascii.eqb c "(" || Ascii.eqb c ")" || Ascii.eqb c "|")
    && is_flat rest
  end.

(** The pattern byte [c] accepts the subject byte [x]. *)
Definition atom_ok (c x : ascii) : bool := Ascii.eqb c "." || Ascii.eqb c x.

(** The [k] pattern bytes from offset [p] accept, one by one, the subject
    bytes from offset [q], all of them below [limit]. *)
Fixpoint atoms_match (pat subj : string) (k : nat) (p q limit : Z) : bool :=
  match k with
  | O => true
  | S k =>
    (q <? limit) && atom_ok (char_at pat p) (char_at subj q)
    && atoms_match pat subj k (p + 1) (q + 1) limit
  end.

(** The end of the leftmost occurrence, at an offset from [i] on, of the
    [n] pattern bytes in the first [s_len] subject bytes; 0 when there is
    none.  [k] bounds the offsets tried. *)
Fixpoint leftmost_end (pat subj : string) (n s_len : Z) (k : nat) (i : Z)
  : Z :=
  match k with
  | O => 0
  | S k =>
    if i <? s_len then
      if atoms_match pat subj (Z.to_nat n) 0 i s_len then i + n
      else leftmost_end pat subj n s_len k (i + 1)
    else 0
  end.

(** The analysis record of a pattern without "(", ")" and "|". *)
Definition flat_info (regexp : string) : regex_info :=
  mk_regex_info [bracket_pair.mk 0 (strlen regexp) 0 0] 1 [] 0
                static_error_no_match 0.

(** An escape the sequencer has no case for. *)
Definition invalid_escape (e : ascii) : bool :=
  negb (Ascii.eqb e "S" || Ascii.eqb e "s" || Ascii.eqb e "d"
        || is_escaped_literal e).

(** A branch record that names a bracket of the record and the offset of a
    "|" of the pattern. *)
Definition branch_ok (regexp : string) (nb : Z) (br : branch.t) : Prop :=
  0 <= branch.bracket_index br < nb
  /\ 0 <= branch.schlong br < strlen regexp
  /\ char_at regexp (branch.schlong br) = "|".

(** A bracket record of a group: it starts right after a "(" of the
    pattern, and is either still open or ends right before a ")". *)
Definition group_ok (regexp : string) (b : bracket_pair.t) : Prop :=
  1 <= bracket_pair.ptr b <= strlen regexp
  /\ char_at regexp (bracket_pair.ptr b - 1) = "("
  /\ (bracket_pair.len b = -1
      \/ 0 <= bracket_pair.len b
         /\ bracket_pair.ptr b + bracket_pair.len b < strlen regexp
         /\ char_at regexp (bracket_pair.ptr b + bracket_pair.len b) = ")").

(** What the scan of [foo] keeps true of its record and depth counter. *)
Definition scan_inv (regexp : string) (inf : regex_info) (depth : Z) : Prop :=
  num_brackets inf = Z.of_nat (List.length (brackets inf))
  /\ num_branches inf = Z.of_nat (List.length (branches inf))
  /\ 1 <= num_brackets inf <= MAX_BRACKETS
  /\ num_branches inf <= MAX_BRANCHES
  /\ 0 <= depth < num_brackets inf
  /\ bracket_pair.ptr (bracket_at inf 0) = 0
  /\ bracket_pair.len (bracket_at inf 0) = strlen regexp
  /\ (forall k, 1 <= k < num_brackets inf ->
                group_ok regexp (bracket_at inf k))
  /\ Forall (branch_ok regexp (num_brackets inf)) (branches inf).

(** Bracket [i] of the record owns its branches: its slice of the branch
    array lies within the array and holds exactly the branches recorded for
    bracket [i]. *)
Definition owns_its_branches (inf : regex_info) (i : Z) : Prop :=
  let b := bracket_at inf i in
  0 <= bracket_pair.branches b
  /\ 0 <= bracket_pair.num_branches b
  /\ bracket_pair.branches b + bracket_pair.num_branches b <= num_branches inf
  /\ forall k, 0 <= k < num_branches inf ->
       (bracket_pair.branches b <= k
          < bracket_pair.branches b + bracket_pair.num_branches b
        <-> branch.bracket_index (branch_at inf k) = i).

(** The record of the scan of "(a|b)" when it comes to offset 3, and the
    record of its analysis. *)
Definition info_a_or_b_at_3 : regex_info :=
  mk_regex_info [bracket_pair.mk 0 5 0 0; bracket_pair.mk 1 (-1) 0 0] 2
                [branch.mk 1 2] 1 static_error_no_match 0.

Definition info_a_or_b : regex_info :=
  mk_regex_info [bracket_pair.mk 0 5 0 0; bracket_pair.mk 1 3 0 1] 2
                [branch.mk 1 2] 1 static_error_no_match 0.

(** The buffer of [k] bytes [c]. *)
Fixpoint repeat_char (c : ascii) (k : nat) : string :=
  match k with
  | O => EmptyString
  | S k => String c (repeat_char c k)
  end.

(** Two subject buffers agree on their first [n] bytes. *)
Definition subjects_agree (subj subj' : string) (n : Z) : Prop :=
  forall k, 0 <= k < n -> char_at subj k = char_at subj' k.

(** Two memories hold the same analysis record, and capture arrays related
    by [C]. *)
Definition mem_rel (C : option (list slre_cap.t) -> option (list slre_cap.t)
                        -> Prop) (m m' : mem) : Prop :=
  info m = info m' /\ C (caps m) (caps m').

(** Two calls end alike: the same returned value, and related memories. *)
Definition same_result (C : option (list slre_cap.t)
                            -> option (list slre_cap.t) -> Prop)
           (x y : option (Z * mem)) : Prop :=
  match x, y with
  | Some (r, m), Some (r', m') => r = r' /\ mem_rel C m m'
  | None, None => True
  | _, _ => False
  end.

(** A relation on capture arrays that a store of the same capture into the
    same slot of both keeps. *)
Definition store_stable (C : option (list slre_cap.t)
                             -> option (list slre_cap.t) -> Prop) : Prop :=
  forall m m' k p n,
    mem_rel C m m' -> C (caps (store_cap m k p n)) (caps (store_cap m' k p n)).

(** [bar] and [bar'] end alike on every window of the first [n] subject
    bytes, from related memories. *)
Definition bar_agree (C : option (list slre_cap.t)
                          -> option (list slre_cap.t) -> Prop) (n : Z)
  (bar bar' : Z -> Z -> Z -> Z -> mem -> Z -> option (Z * mem)) : Prop :=
  forall re re_len s s_len m m' bi,
    0 <= s -> 0 <= s_len -> s + s_len <= n -> mem_rel C m m' ->
    same_result C (bar re re_len s s_len m bi) (bar' re re_len s s_len m' bi).

Definition doh_agree (C : option (list slre_cap.t)
                          -> option (list slre_cap.t) -> Prop) (n : Z)
  (doh doh' : Z -> Z -> mem -> Z -> option (Z * mem)) : Prop :=
  forall s s_len m m' bi,
    0 <= s -> 0 <= s_len -> s + s_len <= n -> mem_rel C m m' ->
    same_result C (doh s s_len m bi) (doh' s s_len m' bi).

(** A property [Q] of the capture array that holds on after the store of a
    capture into a slot below [nb - 1], of a non-empty slice of the first
    [n] subject bytes. *)
Definition kept_by_stores (Q : option (list slre_cap.t) -> Prop) (nb n : Z)
  : Prop :=
  forall m k p l,
    Q (caps m) -> 0 <= k < nb - 1 -> 0 <= p -> 0 < l -> p + l <= n ->
    Q (caps (store_cap m k p l)).

(** [bar] keeps [Q] on every window of the first [n] subject bytes, for a
    record of [nb] brackets. *)
Definition bar_keeps (Q : option (list slre_cap.t) -> Prop) (nb n : Z)
  (bar : Z -> Z -> Z -> Z -> mem -> Z -> option (Z * mem)) : Prop :=
  forall re re_len s s_len m bi r m',
    0 <= s -> 0 <= s_len -> s + s_len <= n -> 0 <= bi ->
    num_brackets (info m) = nb -> Q (caps m) ->
    bar re re_len s s_len m bi = Some (r, m') -> Q (caps m').

Definition doh_keeps (Q : option (list slre_cap.t) -> Prop) (nb n : Z)
  (doh : Z -> Z -> mem -> Z -> option (Z * mem)) : Prop :=
  forall s s_len m bi r m',
    0 <= s -> 0 <= s_len -> s + s_len <= n -> 0 <= bi ->
    num_brackets (info m) = nb -> Q (caps m) ->
    doh s s_len m bi = Some (r, m') -> Q (caps m').

(** A capture that is a non-empty slice of the first [n] subject bytes. *)
Definition is_slice (n : Z) (c : slre_cap.t) : Prop :=
  0 <= slre_cap.ptr c /\ 0 < slre_cap.len c
  /\ slre_cap.ptr c + slre_cap.len c <= n.

(** The capture array [c] comes from the array [a0] by stores of slices:
    it has as many slots, and each slot is as in [a0] or holds a slice. *)
Definition written_from (n : Z) (a0 : list slre_cap.t)
           (c : option (list slre_cap.t)) : Prop :=
  match c with
  | Some a => Forall2 (fun c0 c1 => c1 = c0 \/ is_slice n c1) a0 a
  | None => False
  end.

(** The atom at pattern offset [p] is one [bar] matches against one subject
    byte: an ordinary byte, ".", or a backslash with "S", "s", "d" or an
    escaped metacharacter. *)
Definition atom_valid (pat : string) (p : Z) : bool :=
  let c := char_at pat p in
  if Ascii.eqb c "\" then negb (invalid_escape (char_at pat (p + 1)))
  else is_simple c.

(** The atom at pattern offset [p] accepts the subject byte [x]. *)
Definition atom_accepts (pat : string) (p : Z) (x : ascii) : bool :=
  let c := char_at pat p in
  if Ascii.eqb c "\" then
    let e := char_at pat (p + 1) in
    if Ascii.eqb e "S" then negb (isspace x)
    else if Ascii.eqb e "s" then isspace x
    else if Ascii.eqb e "d" then isdigit x
    else Ascii.eqb e x
  else atom_ok c x.

(** The atoms from offset [p] up to [e] are all valid; [k] bounds their
    number. *)
Fixpoint atoms_valid (pat : string) (k : nat) (p e : Z) : bool :=
  match k with
  | O => true
  | S k =>
    if p <? e
    then atom_valid pat p && atoms_valid pat k (p + get_op_len pat p) e
    else true
  end.

(** The subject offset after the atoms from [p] up to [e] have accepted,
    one by one, the subject bytes from [q] on, all of them below [limit];
    [None] when one does not.  [k] bounds the number of atoms. *)
Fixpoint atoms_end (pat subj : string) (k : nat) (p e q limit : Z)
  : option Z :=
  match k with
  | O => None
  | S k =>
    if p <? e then
      if (q <? limit) && atom_accepts pat p (char_at subj q)
      then atoms_end pat subj k (p + get_op_len pat p) e (q + 1) limit
      else None
    else Some q
  end.

(** The end of the leftmost place, at an offset from [i] on, where the
    atoms of the pattern of length [n] accept the subject; 0 when there is
    none. *)
Fixpoint leftmost_atoms_end (pat subj : string) (n s_len : Z) (k : nat)
         (i : Z) : Z :=
  match k with
  | O => 0
  | S k =>
    if i <? s_len then
      match atoms_end pat subj (budget n 0) 0 n i s_len with
      | Some q => q
      | None => leftmost_atoms_end pat subj n s_len k (i + 1)
      end
    else 0
  end.

(** The subject offset where the run, from offset [q], of bytes the first
    atom of the pattern accepts ends; the run stays below [limit], and [k]
    bounds its length. *)
Fixpoint run_end (pat subj : string) (k : nat) (q limit : Z) : Z :=
  match k with
  | O => q
  | S k =>
    if (q <? limit) && atom_accepts pat 0 (char_at subj q)
    then run_end pat subj k (q + 1) limit
    else q
  end.

(** The end of the leftmost non-empty run, from an offset from [i] on, of
    bytes the first atom accepts; 0 when there is none. *)
Fixpoint leftmost_run_end (pat subj : string) (s_len : Z) (k : nat) (i : Z)
  : Z :=
  match k with
  | O => 0
  | S k =>
    if i <? s_len then
      let r := run_end pat subj (budget (s_len - i) 0) i s_len in
      if r >? i then r else leftmost_run_end pat subj s_len k (i + 1)
    else 0
  end.

(** The pattern "(lit)": one group around the bytes [lit]. *)
Definition group_pattern (lit : string) : string :=
  String "(" (lit ++ ")")%string.

(** The analysis record of "(lit)" for [n] bytes [lit]. *)
Definition group_info (n : Z) : regex_info :=
  mk_regex_info [bracket_pair.mk 0 (n + 2) 0 0; bracket_pair.mk 1 n 0 0] 2
                [] 0 static_error_no_match 0.

(** The capture array after the store of the slice [(p, n)] into slot 0. *)
Definition with_capture_0 (c : option (list slre_cap.t)) (p n : Z)
  : option (list slre_cap.t) :=
  match c with
  | Some a => Some (array_set a 0 (slre_cap.mk p n))
  | None => None
  end.

(** ** Tactics *)

(** Turn the boolean tests of the code into propositions. *)
Ltac bool_to_prop :=
  repeat match goal with
  | H : _ && _ = true |- _ => apply andb_true_iff in H; destruct H
  | H : _ || _ = false |- _ => apply orb_false_iff in H; destruct H
  | H : negb _ = true |- _ => apply negb_true_iff in H
  | H : negb _ = false |- _ => apply negb_false_iff in H
  | H : (_ <? _) = true |- _ => apply Z.ltb_lt in H
  | H : (_ <? _) = false |- _ => apply Z.ltb_ge in H
  | H : (_ <=? _) = true |- _ => apply Z.leb_le in H
  | H : (_ <=? _) = false |- _ => apply Z.leb_gt in H
  | H : (_ >? _) = true |- _ => rewrite Z.gtb_ltb in H
  | H : (_ >? _) = false |- _ => rewrite Z.gtb_ltb in H
  | H : (_ >=? _) = true |- _ => rewrite Z.geb_leb in H
  | H : (_ >=? _) = false |- _ => rewrite Z.geb_leb in H
  | H : (_ =? _) = true |- _ => apply Z.eqb_eq in H
  | H : (_ =? _) = false |- _ => apply Z.eqb_neq in H
  end.

(** Split a hypothesis on the first test it branches on. *)
Ltac split_if H :=
  match type of H with
  | context [if ?c then _ else _] => destruct c eqn:?
  end.

Ltac fail_inv :=
  match goal with
  | H : FAIL_mem _ _ = Some _ |- _ =>
    unfold FAIL_mem in H; inversion H; subst; clear H
  | H : Some _ = Some _ |- _ => inversion H; subst; clear H
  | H : None = Some _ |- _ => discriminate H
  end.

(** * Verification *)

(** ** What every call preserves *)

Lemma arrays_store_cap m k p n : info (store_cap m k p n) = info m.
Proof. unfold store_cap. destruct (caps m); reflexivity. Qed.

Lemma arrays_num_brackets inf inf' :
  arrays inf' = arrays inf -> num_brackets inf' = num_brackets inf.
Proof. unfold arrays. congruence. Qed.

Lemma arrays_bracket_at inf inf' k :
  arrays inf' = arrays inf -> bracket_at inf' k = bracket_at inf k.
Proof. unfold arrays, bracket_at. intros H. congruence. Qed.

Lemma arrays_branch_at inf inf' k :
  arrays inf' = arrays inf -> branch_at inf' k = branch_at inf k.
Proof. unfold arrays, branch_at. intros H. congruence. Qed.

Section RangeCall.

Variables (pat subj : string).
Variable doh : Z -> Z -> mem -> Z -> option (Z * mem).
Variable bar : Z -> Z -> Z -> Z -> mem -> Z -> option (Z * mem).
Hypothesis doh_ok : doh_in_range doh.
Hypothesis bar_ok : bar_in_range bar.

Lemma quant_loop_in_range fuel :
  forall re re_len s s_len i step ni non_greedy bi j2 nj m r m',
    0 <= j2 <= s_len -> 0 <= nj <= s_len ->
    quant_loop bar fuel re re_len s s_len i step ni non_greedy bi j2 nj m
    = Some (r, m') ->
    0 <= r <= s_len /\ arrays (info m') = arrays (info m).
Proof.
  induction fuel as [|fuel IH]; intros * Hj Hnj H; [discriminate|].
  cbn [quant_loop] in H.
  destruct (bar (re + i) step (s + j2) (s_len - j2) m bi)
    as [[n1 m1]|] eqn:E1; [|discriminate].
  apply bar_ok in E1; [|lia]. destruct E1 as [R1 A1].
  split_if H; bool_to_prop; [|fail_inv; split; [lia|assumption]].
  split_if H.
  - split_if H; [fail_inv; split; [lia|assumption]|].
    apply IH in H; [|lia|lia]. destruct H as [R A]. split; [lia|congruence].
  - destruct (bar (re + ni) (re_len - ni) (s + j2 + n1) (s_len - (j2 + n1)) m1 bi)
      as [[n2 m2]|] eqn:E2; [|discriminate].
    apply bar_ok in E2; [|lia]. destruct E2 as [R2 A2].
    assert (0 <= (if n2 >? 0 then j2 + n1 + n2 else nj) <= s_len)
      by (destruct (n2 >? 0); lia).
    split_if H; [fail_inv; split; [lia|congruence]|].
    apply IH in H; [|lia|lia]. destruct H as [R A]. split; [lia|congruence].
Qed.

Lemma bar_loop_in_range fuel :
  forall re re_len s s_len i j bi m r m',
    0 <= j <= s_len ->
    bar_loop pat subj doh bar fuel re re_len s s_len i j bi m = Some (r, m') ->
    0 <= r <= s_len /\ arrays (info m') = arrays (info m).
Proof.
  induction fuel as [|fuel IH]; intros * Hj H; [discriminate|].
  cbn [bar_loop] in H.
  repeat first
    [ fail_inv; split; [lia|reflexivity]
    | match type of H with
      | context [match bar ?a ?b ?c ?d ?e ?f with _ => _ end] =>
        let E := fresh "E" in
        destruct (bar a b c d e f) as [[? ?]|] eqn:E; [|discriminate];
        apply bar_ok in E; [|lia]; destruct E
      | context [match doh ?a ?b ?c ?d with _ => _ end] =>
        let E := fresh "E" in
        destruct (doh a b c d) as [[? ?]|] eqn:E; [|discriminate];
        apply doh_ok in E; [|lia]; destruct E
      | context [match quant_loop ?a ?b ?c ?d ?e ?f ?g ?h ?i ?j ?k ?l ?m ?n with _ => _ end] =>
        let E := fresh "E" in
        destruct (quant_loop a b c d e f g h i j k l m n) as [[? ?]|] eqn:E;
        [|discriminate];
        apply quant_loop_in_range in E; [|lia|lia]; destruct E
      end
    | fail_inv; split; [lia|assumption]
    | split_if H; bool_to_prop
    | apply IH in H; [|lia];
      try rewrite arrays_store_cap in H;
      destruct H; split; [lia|congruence] ].
Qed.

End RangeCall.

Section RangeLevel.

Variables (pat subj : string).
Variable doh : Z -> Z -> mem -> Z -> option (Z * mem).
Hypothesis doh_ok : doh_in_range doh.

Lemma bar_fuel_in_range fuel : bar_in_range (bar pat subj doh fuel).
Proof.
  induction fuel as [|fuel IH]; intros re re_len s s_len m bi r m' Hs H;
    [discriminate|].
  cbn [bar] in H.
  eapply bar_loop_in_range in H; eauto. lia.
Qed.

Lemma doh_loop_in_range fuel :
  forall s s_len bi i m r m',
    0 <= s_len ->
    doh_loop pat subj doh fuel s s_len bi i m = Some (r, m') ->
    0 <= r <= s_len /\ arrays (info m') = arrays (info m).
Proof.
  induction fuel as [|fuel IH]; intros * Hs H; [discriminate|].
  cbn [doh_loop] in H.
  match type of H with
  | context [match bar ?a ?b ?c ?d ?e ?f ?g ?h ?i ?j with _ => _ end] =>
    destruct (bar a b c d e f g h i j) as [[r1 m1]|] eqn:E; [|discriminate]
  end.
  apply bar_fuel_in_range in E; [|assumption]. destruct E as [R1 A1].
  split_if H.
  - apply IH in H; [|assumption]. destruct H. split; [lia|congruence].
  - fail_inv. split; assumption.
Qed.

End RangeLevel.

Lemma doh_fuel_in_range pat subj fuel : doh_in_range (doh pat subj fuel).
Proof.
  induction fuel as [|fuel IH]; intros s s_len m bi r m' Hs H;
    [discriminate|].
  cbn [doh] in H.
  eapply doh_loop_in_range in H; eauto.
Qed.

Lemma bar_in_range_all pat subj d fuel :
  bar_in_range (bar pat subj (doh pat subj d) fuel).
Proof. apply bar_fuel_in_range, doh_fuel_in_range. Qed.

(** ** Well-formed analysis records and totality *)

Lemma array_get_Forall {A : Type} (P : A -> Prop) d a k :
  P d -> Forall P a -> P (array_get d a k).
Proof.
  intros Hd Ha. unfold array_get. destruct (k <? 0); [assumption|].
  destruct (nth_in_or_default (Z.to_nat k) a d) as [Hin|Heq].
  - rewrite Forall_forall in Ha. apply Ha, Hin.
  - rewrite Heq. assumption.
Qed.

Lemma list_set_Forall {A : Type} (P : A -> Prop) a :
  forall k v, P v -> Forall P a -> Forall P (list_set a k v).
Proof.
  induction a as [|x a IH]; intros [|k] v Hv Ha; cbn [list_set].
  - constructor; [assumption|constructor].
  - constructor.
  - inversion Ha; subst. constructor; assumption.
  - inversion Ha; subst. constructor; [assumption|]. apply IH; assumption.
Qed.

Lemma array_set_Forall {A : Type} (P : A -> Prop) a k v :
  P v -> Forall P a -> Forall P (array_set a k v).
Proof.
  intros Hv Ha. unfold array_set. destruct (k <? 0); [assumption|].
  apply list_set_Forall; assumption.
Qed.

Lemma list_set_length {A : Type} (a : list A) (v : A) :
  list_set a (List.length a) v = a ++ [v].
Proof.
  induction a as [|x a IH]; cbn [list_set List.length app]; [reflexivity|].
  rewrite IH. reflexivity.
Qed.

Lemma array_set_append {A : Type} (a : list A) (k : Z) (v : A) :
  k = Z.of_nat (List.length a) -> array_set a k v = a ++ [v].
Proof.
  intros ->. unfold array_set.
  replace (Z.of_nat (List.length a) <? 0) with false
    by (symmetry; apply Z.ltb_ge; lia).
  rewrite Nat2Z.id. apply list_set_length.
Qed.

Lemma wf_bracket_at inf k :
  wf_brackets inf -> -1 <= bracket_pair.len (bracket_at inf k).
Proof.
  intros H. unfold bracket_at.
  apply (array_get_Forall (fun b => -1 <= bracket_pair.len b)).
  - cbn. lia.
  - exact H.
Qed.

Lemma wf_brackets_arrays inf inf' :
  arrays inf' = arrays inf -> wf_brackets inf -> wf_brackets inf'.
Proof. unfold arrays, wf_brackets. intros H. congruence. Qed.

Lemma get_op_len_cases pat p : get_op_len pat p = 1 \/ get_op_len pat p = 2.
Proof. unfold get_op_len. destruct (Ascii.eqb _ _); auto. Qed.

Section TotalCall.

Variables (pat subj : string).
Variable doh : Z -> Z -> mem -> Z -> option (Z * mem).
Variable bar : Z -> Z -> Z -> Z -> mem -> Z -> option (Z * mem).

(** The arrays every memory of the call shares, the bracket index and the
    pattern length the call starts from. *)
Variable inf0 : regex_info.
Variables (bi0 top : Z).
Hypothesis wf0 : wf_brackets inf0.

Hypothesis bar_ok : bar_in_range bar.
Hypothesis doh_ok : doh_in_range doh.
Hypothesis bar_total :
  forall re re_len s s_len m bi,
    arrays (info m) = arrays inf0 -> bi0 <= bi -> 0 < re_len < top ->
    0 <= s_len -> defined (bar re re_len s s_len m bi).
Hypothesis doh_total :
  forall s s_len m bi,
    arrays (info m) = arrays inf0 -> bi0 < bi < num_brackets inf0 ->
    0 <= s_len -> defined (doh s s_len m bi).

Lemma quant_loop_total fuel :
  forall re re_len s s_len i step ni non_greedy bi j2 nj m,
    arrays (info m) = arrays inf0 -> bi0 <= bi ->
    0 < step < top -> (ni < re_len -> re_len - ni < top) ->
    0 <= j2 <= s_len -> 0 <= nj <= s_len ->
    s_len - j2 < Z.of_nat fuel ->
    defined (quant_loop bar fuel re re_len s s_len i step ni non_greedy bi
                        j2 nj m).
Proof.
  induction fuel as [|fuel IH]; intros * Hm Hbi Hstep Hni Hj Hnj Hf; [lia|].
  cbn [quant_loop].
  destruct (bar (re + i) step (s + j2) (s_len - j2) m bi)
    as [[n1 m1]|] eqn:E1;
    [|exfalso; eapply (bar_total (re + i)); [..|exact E1]; auto; lia].
  apply bar_ok in E1; [|lia]. destruct E1 as [R1 A1].
  destruct (n1 >? 0) eqn:Hn1; [|discriminate]. bool_to_prop.
  destruct (ni >=? re_len) eqn:Hge.
  - destruct ((j2 + n1 >? 0) && non_greedy); [discriminate|].
    apply IH; auto; try lia. congruence.
  - bool_to_prop.
    destruct (bar (re + ni) (re_len - ni) (s + j2 + n1) (s_len - (j2 + n1)) m1 bi)
      as [[n2 m2]|] eqn:E2;
      [|exfalso; eapply (bar_total (re + ni)); [..|exact E2];
        auto; try lia; congruence].
    apply bar_ok in E2; [|lia]. destruct E2 as [R2 A2].
    assert (0 <= (if n2 >? 0 then j2 + n1 + n2 else nj) <= s_len)
      by (destruct (n2 >? 0); lia).
    destruct (_ && non_greedy); [discriminate|].
    apply IH; auto; try lia. congruence.
Qed.

Lemma defined_FAIL_mem m msg : defined (FAIL_mem m msg).
Proof. discriminate. Qed.

Lemma defined_Some {A : Type} (x : A) : defined (Some x).
Proof. discriminate. Qed.

Lemma bar_loop_total fuel :
  forall re re_len s s_len i j bi m,
    arrays (info m) = arrays inf0 -> bi0 <= bi -> re_len <= top ->
    0 <= i -> 0 <= j <= s_len ->
    (1 <= fuel)%nat -> re_len - i < Z.of_nat fuel ->
    defined (bar_loop pat subj doh bar fuel re re_len s s_len i j bi m).
Proof.
  induction fuel as [|fuel IH]; intros * Hm Hbi Htop Hi Hj Hf1 Hf; [lia|].
  cbn [bar_loop].
  pose proof (get_op_len_cases pat (re + i)) as Hstep.
  pose proof (get_op_len_cases pat (re + i + get_op_len pat (re + i))) as Hq.
  assert (Hnb : num_brackets (info m) = num_brackets inf0)
    by (apply arrays_num_brackets; assumption).
  repeat first
    [ apply defined_FAIL_mem
    | apply defined_Some
    | match goal with
      | |- context [match bar ?a ?b ?c ?d ?e ?f with _ => _ end] =>
        let E := fresh "E" in
        destruct (bar a b c d e f) as [[? ?]|] eqn:E;
        [ apply bar_ok in E; [|lia]; destruct E
        | exfalso; eapply (bar_total a); [..|exact E]; auto; lia ]
      | |- context [match doh ?a ?b ?c ?d with _ => _ end] =>
        let E := fresh "E" in
        destruct (doh a b c d) as [[? ?]|] eqn:E;
        [ apply doh_ok in E; [|lia]; destruct E
        | exfalso; eapply (doh_total a); [..|exact E]; auto; lia ]
      | |- context [match quant_loop ?a ?b ?c ?d ?e ?f ?g ?h ?i ?j ?k ?l ?m ?n
                    with _ => _ end] =>
        let E := fresh "E" in
        destruct (quant_loop a b c d e f g h i j k l m n) as [[? ?]|] eqn:E;
        [ | exfalso; eapply (quant_loop_total b); [..|exact E];
            auto; unfold budget; try lia;
            destruct (_ && Ascii.eqb _ _); lia ]
      | |- context [if ?c then _ else _] => destruct c eqn:?; bool_to_prop
      | |- defined (bar_loop _ _ _ _ _ _ _ _ _ _ _ _ ?m1) =>
        assert (arrays (info m1) = arrays inf0)
          by (try rewrite arrays_store_cap; congruence);
        try match goal with
            | |- context [bracket_pair.len (bracket_at ?inf ?k)] =>
              pose proof (wf_bracket_at inf k
                            (wf_brackets_arrays inf0 inf
                               ltac:(assumption) wf0))
            end;
        apply IH; auto; lia
      end ].
Qed.

End TotalCall.

Section TotalLevel.

Variables (pat subj : string).
Variable doh : Z -> Z -> mem -> Z -> option (Z * mem).
Variable inf0 : regex_info.
Variable bi0 : Z.
Hypothesis wf0 : wf_brackets inf0.
Hypothesis doh_ok : doh_in_range doh.
Hypothesis doh_total :
  forall s s_len m bi,
    arrays (info m) = arrays inf0 -> bi0 < bi < num_brackets inf0 ->
    0 <= s_len -> defined (doh s s_len m bi).

Lemma bar_fuel_total fuel :
  forall re re_len s s_len m bi,
    arrays (info m) = arrays inf0 -> bi0 <= bi ->
    (1 <= fuel)%nat -> re_len < Z.of_nat fuel -> 0 <= s_len ->
    defined (bar pat subj doh fuel re re_len s s_len m bi).
Proof.
  induction fuel as [|fuel IH]; intros * Hm Hbi Hf1 Hf Hs; [lia|].
  cbn [bar].
  apply (bar_loop_total pat subj doh (bar pat subj doh fuel) inf0 bi0 re_len);
    auto; try (unfold budget; lia).
  - apply bar_fuel_in_range, doh_ok.
  - intros. apply IH; auto; lia.
Qed.

Lemma doh_loop_total fuel :
  forall s s_len bi i m,
    arrays (info m) = arrays inf0 -> bi0 <= bi -> 0 <= s_len ->
    (1 <= fuel)%nat ->
    bracket_pair.num_branches (bracket_at inf0 bi) - i < Z.of_nat fuel ->
    defined (doh_loop pat subj doh fuel s s_len bi i m).
Proof.
  induction fuel as [|fuel IH]; intros * Hm Hbi Hs Hf1 Hf; [lia|].
  cbn [doh_loop].
  match goal with
  | |- context [match bar ?a ?b ?c ?d ?e ?f ?g ?h ?i ?j with _ => _ end] =>
    destruct (bar a b c d e f g h i j) as [[r1 m1]|] eqn:E;
    [ apply bar_fuel_in_range in E; [destruct E|exact doh_ok|assumption]
    | exfalso; eapply bar_fuel_total; [..|exact E];
      auto; unfold budget; lia ]
  end.
  rewrite (arrays_bracket_at inf0 (info m) bi Hm) in *.
  destruct (_ <? _) eqn:Hlt; [|apply defined_Some]. bool_to_prop.
  apply IH; auto; try lia. congruence.
Qed.

End TotalLevel.

Lemma doh_fuel_total pat subj inf0 (wf0 : wf_brackets inf0) fuel :
  forall s s_len m bi,
    arrays (info m) = arrays inf0 ->
    (1 <= fuel)%nat -> num_brackets inf0 - bi <= Z.of_nat fuel ->
    0 <= s_len ->
    defined (doh pat subj fuel s s_len m bi).
Proof.
  induction fuel as [|fuel IH]; intros * Hm Hf1 Hf Hs; [lia|].
  cbn [doh].
  apply (doh_loop_total pat subj (doh pat subj fuel) inf0 bi); auto;
    try (unfold budget; lia).
  - apply doh_fuel_in_range.
  - intros. apply IH; auto; lia.
  - rewrite (arrays_bracket_at inf0 (info m) bi Hm). unfold budget. lia.
Qed.

(** ** The analyzer yields a well-formed record *)

Lemma scanned_mono p q inf : p <= q -> scanned p inf -> scanned q inf.
Proof.
  intros Hpq [H Hn]. split; [|assumption].
  eapply Forall_impl; [|exact H]. cbn. intros b [? ?]. split; lia.
Qed.

Lemma scanned_wf p inf : scanned p inf -> wf_brackets inf.
Proof.
  intros [H _]. eapply Forall_impl; [|exact H]. cbn. intros b [? ?]. lia.
Qed.

Lemma scanned_bracket_at p inf k :
  0 <= p -> scanned p inf ->
  bracket_pair.ptr (bracket_at inf k) <= p
  /\ -1 <= bracket_pair.len (bracket_at inf k).
Proof.
  intros Hp [H _]. unfold bracket_at.
  apply (array_get_Forall
           (fun b => bracket_pair.ptr b <= p /\ -1 <= bracket_pair.len b)).
  - cbn. lia.
  - exact H.
Qed.

Section ScanFacts.

Variable pat : string.

Lemma foo_step_scanned re i inf depth inf' depth' :
  0 <= re + i -> scanned (re + i) inf ->
  foo_step pat re i inf depth = ScanNext inf' depth' ->
  scanned (re + i + 1) inf'.
Proof.
  intros Hp Hs H. unfold foo_step in H.
  pose proof Hs as [Hb Hn].
  repeat (split_if H; bool_to_prop); inversion H; subst; clear H.
  - apply (scanned_mono (re + i)); [lia|]. split; assumption.
  - split; cbn; [|lia]. apply array_set_Forall.
    + cbn. lia.
    + eapply Forall_impl; [|exact Hb]. cbn. intros b [? ?]. lia.
  - split; cbn; [|assumption]. apply array_set_Forall.
    + cbn. destruct (scanned_bracket_at (re + i) inf (open_bracket inf depth)
                                         Hp Hs). lia.
    + eapply Forall_impl; [|exact Hb]. cbn. intros b [? ?]. lia.
  - apply (scanned_mono (re + i)); [lia|]. split; assumption.
Qed.

Lemma foo_scan_scanned fuel :
  forall re re_len i inf depth inf' depth',
    0 <= re + i -> scanned (re + i) inf ->
    foo_scan pat fuel re re_len i inf depth = Some (ScanNext inf' depth') ->
    wf_brackets inf' /\ 1 <= num_brackets inf'.
Proof.
  induction fuel as [|fuel IH]; intros * Hp Hs H; [discriminate|].
  cbn [foo_scan] in H.
  destruct (i <? re_len).
  - destruct (foo_step pat re i inf depth) as [|inf1 depth1] eqn:E;
      [discriminate|].
    apply foo_step_scanned in E; auto.
    pose proof (get_op_len_cases pat (re + i)).
    apply IH in H; auto; [lia|].
    apply (scanned_mono (re + i + 1)); [lia|assumption].
  - inversion H; subst. split; [eapply scanned_wf; eassumption|apply Hs].
Qed.

Lemma foo_scan_total fuel :
  forall re re_len i inf depth,
    (1 <= fuel)%nat -> re_len - i < Z.of_nat fuel ->
    defined (foo_scan pat fuel re re_len i inf depth).
Proof.
  induction fuel as [|fuel IH]; intros * Hf1 Hf; [lia|].
  cbn [foo_scan].
  destruct (i <? re_len) eqn:Hi; [|discriminate]. bool_to_prop.
  destruct (foo_step pat re i inf depth); [discriminate|].
  pose proof (get_op_len_cases pat (re + i)).
  apply IH; lia.
Qed.

Lemma foo_init_scanned re re_len inf :
  brackets inf = [] -> -1 <= re_len -> scanned re (foo_init re re_len inf).
Proof.
  intros Hb Hlen. unfold foo_init, bracket_at. rewrite Hb.
  split; cbn; [|lia]. constructor; [cbn; lia|constructor].
Qed.

End ScanFacts.

(** The resolver touches neither [ptr] nor [len], nor the bracket count. *)
Lemma assign_branches_wf k :
  forall inf i j,
    wf_brackets inf ->
    wf_brackets (assign_branches k inf i j)
    /\ num_brackets (assign_branches k inf i j) = num_brackets inf.
Proof.
  induction k as [|k IH]; intros inf i j Hwf; cbn [assign_branches];
    [split; [assumption|reflexivity]|].
  destruct (count_branches _ inf i j 0) as [cnt j1].
  match goal with
  | |- wf_brackets (assign_branches k ?inf1 _ _) /\ _ =>
    destruct (IH inf1 (i + 1) j1) as [H1 H2]
  end.
  - unfold wf_brackets. cbn. apply array_set_Forall; [|exact Hwf].
    cbn. apply wf_bracket_at, Hwf.
  - split; [exact H1|]. rewrite H2. reflexivity.
Qed.

Lemma setup_branch_points_wf inf :
  wf_brackets inf ->
  wf_brackets (setup_branch_points inf)
  /\ num_brackets (setup_branch_points inf) = num_brackets inf.
Proof.
  intros Hwf. unfold setup_branch_points.
  match goal with
  | |- wf_brackets (assign_branches ?k ?inf1 _ _) /\ _ =>
    destruct (assign_branches_wf k inf1 0 0) as [H1 H2]
  end.
  - exact Hwf.
  - split; [exact H1|]. rewrite H2. reflexivity.
Qed.

(** ** The outer driver: range and totality *)

Section DriverFacts.

Variables (pat subj : string).

Lemma foo_match_in_range fuel :
  forall re s s_len i result m r m',
    0 <= i -> 0 <= result <= s_len \/ (result = 0 /\ s_len < 0) ->
    foo_match pat subj fuel re s s_len i result m = Some (r, m') ->
    (0 <= r <= s_len \/ (r = 0 /\ s_len < 0))
    /\ arrays (info m') = arrays (info m).
Proof.
  induction fuel as [|fuel IH]; intros * Hi Hres H; [discriminate|].
  cbn [foo_match] in H.
  destruct (i <? s_len) eqn:Hlt; bool_to_prop;
    [|fail_inv; split; [assumption|reflexivity]].
  destruct (doh _ _ _ _ _ _ _) as [[r1 m1]|] eqn:E; [|discriminate].
  apply doh_fuel_in_range in E; [|lia]. destruct E as [R1 A1].
  split_if H.
  - fail_inv. split; [left; lia|assumption].
  - apply IH in H; [|lia|left; lia]. destruct H as [R A].
    split; [assumption|congruence].
Qed.

Lemma foo_match_total fuel :
  forall re s s_len i result m,
    wf_brackets (info m) -> 1 <= num_brackets (info m) ->
    0 <= i -> (1 <= fuel)%nat -> s_len - i < Z.of_nat fuel ->
    defined (foo_match pat subj fuel re s s_len i result m).
Proof.
  induction fuel as [|fuel IH]; intros * Hwf Hnb Hi Hf1 Hf; [lia|].
  cbn [foo_match].
  destruct (i <? s_len) eqn:Hlt; bool_to_prop; [|apply defined_Some].
  destruct (doh _ _ _ _ _ _ _) as [[r1 m1]|] eqn:E.
  - apply doh_fuel_in_range in E; [|lia]. destruct E as [R1 A1].
    destruct (_ || _); [apply defined_Some|].
    apply IH; auto; try lia.
    + eapply wf_brackets_arrays; eassumption.
    + rewrite (arrays_num_brackets _ _ A1). assumption.
  - exfalso. eapply (doh_fuel_total pat subj (info m) Hwf); [..|exact E];
      auto; lia.
Qed.

(** [foo] never runs out of budget, and its result is within the subject. *)
Lemma foo_total_in_range re re_len s s_len m :
  0 <= re -> 0 <= re_len -> brackets (info m) = [] ->
  exists r m',
    foo pat subj re re_len s s_len m = Some (r, m')
    /\ (0 <= r <= s_len \/ (r = 0 /\ s_len < 0)).
Proof.
  intros Hre Hlen Hb. unfold foo.
  pose proof (foo_init_scanned re re_len (info m) Hb ltac:(lia)) as Hs.
  destruct (foo_scan pat (budget re_len 0) re re_len 0
                     (foo_init re re_len (info m)) 0)
    as [[inf1|inf1 depth]|] eqn:E.
  - eexists _, _. split; [reflexivity|].
    destruct (Z_lt_le_dec s_len 0); [right|left]; lia.
  - apply foo_scan_scanned in E;
      [|lia|replace (re + 0) with re by lia; exact Hs].
    destruct E as [Hwf Hnb].
    destruct (negb (depth =? 0)).
    + eexists _, _. split; [reflexivity|].
      destruct (Z_lt_le_dec s_len 0); [right|left]; lia.
    + destruct (setup_branch_points_wf inf1 Hwf) as [Hwf2 Hnb2].
      destruct (foo_match pat subj (budget s_len 0) re s s_len 0 0
                  (mk_mem (caps m) (setup_branch_points inf1)))
        as [[r m']|] eqn:F.
      * exists r, m'. split; [reflexivity|].
        apply foo_match_in_range in F; [apply F|lia|].
        destruct (Z_lt_le_dec s_len 0); [right|left]; lia.
      * exfalso. eapply foo_match_total; [..|exact F]; cbn [info];
          auto; unfold budget; lia.
  - exfalso. eapply foo_scan_total; [..|exact E]; unfold budget; lia.
Qed.

End DriverFacts.

Lemma strlen_nonneg buf : 0 <= strlen buf.
Proof. unfold strlen. lia. Qed.

(** [slre_match] always returns, with a result inside the subject. *)
Lemma slre_match_total_in_range regexp s s_len caps0 :
  exists r caps1 msg,
    slre_match regexp s s_len caps0 = Some (r, caps1, msg)
    /\ (0 <= r <= s_len \/ (r = 0 /\ s_len < 0)).
Proof.
  unfold slre_match.
  destruct (foo_total_in_range regexp s 0 (strlen regexp) 0 s_len
              (mk_mem caps0 initial_info))
    as (r & m' & H & R); [lia|apply strlen_nonneg|reflexivity|].
  rewrite H. eauto.
Qed.

(** ** The branch dispatcher *)

Lemma doh_loop_alts_run pat subj d fuel :
  forall s s_len bi i m r m' nb,
    0 <= s_len ->
    bracket_pair.num_branches (bracket_at (info m) bi) = nb ->
    0 <= i <= nb ->
    doh_loop pat subj (doh pat subj d) fuel s s_len bi i m = Some (r, m') ->
    alts_run (bar_of_doh pat subj d) s s_len bi (Z.to_nat (nb - i)) i m r m'.
Proof.
  induction fuel as [|fuel IH]; intros * Hs Hnb Hi H; [discriminate|].
  cbn [doh_loop] in H.
  match type of H with
  | context [match bar ?a ?b ?c ?d ?e ?f ?g ?h ?i ?j with _ => _ end] =>
    destruct (bar a b c d e f g h i j) as [[r1 m1]|] eqn:E; [|discriminate]
  end.
  rewrite Hnb in H.
  destruct (i <? nb) eqn:Hlt; bool_to_prop.
  - replace (Z.to_nat (nb - i)) with (S (Z.to_nat (nb - (i + 1)))) by lia.
    cbn [alts_run]. exists r1, m1. split; [exact E|].
    apply IH; auto; [|lia].
    apply bar_in_range_all in E; [|assumption]. destruct E as [_ A].
    rewrite (arrays_bracket_at _ _ bi A). exact Hnb.
  - replace (Z.to_nat (nb - i)) with O by lia.
    fail_inv. exact E.
Qed.

Lemma doh_alts_run pat subj d s s_len m bi r m' :
  0 <= s_len ->
  0 <= bracket_pair.num_branches (bracket_at (info m) bi) ->
  doh pat subj (S d) s s_len m bi = Some (r, m') ->
  alts_run (bar_of_doh pat subj d) s s_len bi
           (Z.to_nat (bracket_pair.num_branches (bracket_at (info m) bi)))
           0 m r m'.
Proof.
  intros Hs Hnb H. cbn [doh] in H.
  apply doh_loop_alts_run with (nb := bracket_pair.num_branches
                                        (bracket_at (info m) bi)) in H;
    auto; [|lia].
  rewrite Z.sub_0_r in H. exact H.
Qed.

(** C10.  The public match function always returns, and its result lies
    between 0 and the subject length; a subject of length 0 yields 0, also
    for "^" and "a*". *)
Theorem C10_result_within_subject :
  (forall regexp s s_len caps0,
      0 <= s_len ->
      exists r caps1 msg,
        slre_match regexp s s_len caps0 = Some (r, caps1, msg)
        /\ 0 <= r <= s_len
        /\ (s_len = 0 -> r = 0))
  /\ slre_match "^" "" 0 None = Some (0, None, static_error_no_match)
  /\ slre_match "a*" "" 0 None = Some (0, None, static_error_no_match).
Proof.
  split; [|split; vm_compute; reflexivity].
  intros * Hs.
  destruct (slre_match_total_in_range regexp s s_len caps0)
    as (r & caps1 & msg & H & R).
  exists r, caps1, msg. split; [exact H|]. split; lia.
Qed.

Lemma C10_witness :
  exists r caps1 msg,
    slre_match "a+b" "xaab" 4 None = Some (r, caps1, msg)
    /\ 0 <= r <= 4
    /\ (4 = 0 -> r = 0).
Proof.
  apply (proj1 C10_result_within_subject "a+b"%string "xaab"%string 4 None).
  lia.
Defined.

(** ** The sequencer at a quantifier *)

(** At an atom followed by "+" or "*" the loop of [bar] runs the repetition
    loop from the current cursor and returns what it yields. *)
Lemma bar_loop_at_quantifier pat subj doh bar fuel re re_len s s_len i j bi m :
  let step := get_op_len pat (re + i) in
  let q := char_at pat (re + i + step) in
  i < re_len -> j < s_len ->
  is_quantifier pat (re + i) = false ->
  i + step < re_len ->
  q = "+" \/ q = "*" ->
  bar_loop pat subj doh bar (S fuel) re re_len s s_len i j bi m
  = quantifier_result q
      (quant_loop bar (budget s_len j) re re_len s s_len i step
                  (after_quantifier pat re re_len i)
                  (non_greedy_at pat re re_len i) bi j 0 m).
Proof.
  intros step q Hi Hj Hnq Hlook Hq.
  cbn [bar_loop].
  replace ((i <? re_len) && (j <? s_len)) with true
    by (symmetry; apply andb_true_iff; split; apply Z.ltb_lt; assumption).
  rewrite Hnq.
  pose proof (get_op_len_cases pat (re + i)) as Hs.
  fold step. fold q.
  replace (step <=? 0) with false by (symmetry; apply Z.leb_gt; lia).
  assert (Hquant : is_quantifier pat (re + i + step) = true).
  { unfold is_quantifier. fold q. destruct Hq as [-> | ->]; reflexivity. }
  assert (Hnotopt : Ascii.eqb q "?" = false)
    by (destruct Hq as [-> | ->]; reflexivity).
  assert (Hstar : Ascii.eqb q "+" || Ascii.eqb q "*" = true)
    by (destruct Hq as [-> | ->]; reflexivity).
  assert (Hlen : get_op_len pat (re + i + step) = 1).
  { unfold get_op_len. fold q. destruct Hq as [-> | ->]; reflexivity. }
  rewrite Hquant, Hnotopt, Hstar, Hlen.
  replace (i + step <? re_len) with true by (symmetry; apply Z.ltb_lt; lia).
  cbn [andb]. unfold quantifier_result, after_quantifier, non_greedy_at.
  fold step. rewrite Z.add_assoc. reflexivity.
Qed.

(** C2.  With the "?" suffix the repetition loop returns at the first
    repetition count after which the tail of the pattern matches (at the
    first repetition when nothing follows the quantifier); without it the
    loop records that end offset and goes on repeating the atom.  As long as
    the tail has not matched, both go on.  The flag of the loop is the test
    for a "?" right after the quantifier.  So ".+c" against "abcabc" yields
    6 and ".+?c" yields 3. *)
Theorem C2_non_greedy_stops_at_first_tail_match :
  (forall bar fuel re re_len s s_len i step ni bi j2 nj m n1 m1 n2 m2,
      0 <= j2 -> ni < re_len ->
      bar (re + i) step (s + j2) (s_len - j2) m bi = Some (n1, m1) ->
      0 < n1 ->
      bar (re + ni) (re_len - ni) (s + j2 + n1) (s_len - (j2 + n1)) m1 bi
      = Some (n2, m2) ->
      (0 < n2 ->
       quant_loop bar (S fuel) re re_len s s_len i step ni true bi j2 nj m
       = Some (j2 + n1 + n2, m2)
       /\ quant_loop bar (S fuel) re re_len s s_len i step ni false bi j2 nj m
          = quant_loop bar fuel re re_len s s_len i step ni false bi
                       (j2 + n1) (j2 + n1 + n2) m2)
      /\ (n2 <= 0 -> nj = 0 ->
          forall non_greedy,
            quant_loop bar (S fuel) re re_len s s_len i step ni non_greedy
                       bi j2 nj m
            = quant_loop bar fuel re re_len s s_len i step ni non_greedy bi
                         (j2 + n1) 0 m2))
  /\ (forall bar fuel re re_len s s_len i step ni bi j2 nj m n1 m1,
         0 <= j2 -> re_len <= ni ->
         bar (re + i) step (s + j2) (s_len - j2) m bi = Some (n1, m1) ->
         0 < n1 ->
         quant_loop bar (S fuel) re re_len s s_len i step ni true bi j2 nj m
         = Some (j2 + n1, m1)
         /\ quant_loop bar (S fuel) re re_len s s_len i step ni false bi
                       j2 nj m
            = quant_loop bar fuel re re_len s s_len i step ni false bi
                         (j2 + n1) (j2 + n1) m1)
  /\ (forall pat subj doh bar fuel re re_len s s_len i j bi m,
         i < re_len -> j < s_len ->
         is_quantifier pat (re + i) = false ->
         i + get_op_len pat (re + i) < re_len ->
         char_at pat (re + i + get_op_len pat (re + i)) = "+"
         \/ char_at pat (re + i + get_op_len pat (re + i)) = "*" ->
         bar_loop pat subj doh bar (S fuel) re re_len s s_len i j bi m
         = quantifier_result
             (char_at pat (re + i + get_op_len pat (re + i)))
             (quant_loop bar (budget s_len j) re re_len s s_len i
                         (get_op_len pat (re + i))
                         (after_quantifier pat re re_len i)
                         (non_greedy_at pat re re_len i) bi j 0 m))
  /\ slre_match ".+c" "abcabc" 6 None = Some (6, None, static_error_no_match)
  /\ slre_match ".+?c" "abcabc" 6 None = Some (3, None, static_error_no_match).
Proof.
  split; [|split; [|split; [|split; vm_compute; reflexivity]]].
  - intros * Hj2 Hni E1 Hn1 E2. split.
    + intros Hn2. split.
      * cbn [quant_loop]. rewrite E1.
        replace (n1 >? 0) with true by (symmetry; apply Z.gtb_lt; lia).
        replace (ni >=? re_len) with false
          by (symmetry; rewrite Z.geb_leb; apply Z.leb_gt; lia).
        rewrite E2.
        replace (n2 >? 0) with true by (symmetry; apply Z.gtb_lt; lia).
        replace (j2 + n1 + n2 >? 0) with true
          by (symmetry; apply Z.gtb_lt; lia).
        reflexivity.
      * cbn [quant_loop]. rewrite E1.
        replace (n1 >? 0) with true by (symmetry; apply Z.gtb_lt; lia).
        replace (ni >=? re_len) with false
          by (symmetry; rewrite Z.geb_leb; apply Z.leb_gt; lia).
        rewrite E2.
        replace (n2 >? 0) with true by (symmetry; apply Z.gtb_lt; lia).
        rewrite andb_false_r. reflexivity.
    + intros Hn2 -> non_greedy. cbn [quant_loop]. rewrite E1.
      replace (n1 >? 0) with true by (symmetry; apply Z.gtb_lt; lia).
      replace (ni >=? re_len) with false
        by (symmetry; rewrite Z.geb_leb; apply Z.leb_gt; lia).
      rewrite E2.
      replace (n2 >? 0) with false
        by (symmetry; rewrite Z.gtb_ltb; apply Z.ltb_ge; lia).
      cbn [Z.gtb Z.compare andb]. reflexivity.
  - intros * Hj2 Hni E1 Hn1. split.
    + cbn [quant_loop]. rewrite E1.
      replace (n1 >? 0) with true by (symmetry; apply Z.gtb_lt; lia).
      replace (ni >=? re_len) with true
        by (symmetry; rewrite Z.geb_leb; apply Z.leb_le; lia).
      replace (j2 + n1 >? 0) with true by (symmetry; apply Z.gtb_lt; lia).
      reflexivity.
    + cbn [quant_loop]. rewrite E1.
      replace (n1 >? 0) with true by (symmetry; apply Z.gtb_lt; lia).
      replace (ni >=? re_len) with true
        by (symmetry; rewrite Z.geb_leb; apply Z.leb_le; lia).
      rewrite andb_false_r. reflexivity.
  - intros. apply bar_loop_at_quantifier; assumption.
Qed.

Lemma C2_witness :
  quant_loop (bar ".+?c" "abcabc" (doh ".+?c" "abcabc" 0) 5) 1
             0 4 0 6 0 1 3 true 0 1 0 (mk_mem None initial_info)
  = Some (1 + 1 + 1, mk_mem None initial_info)
  /\ quant_loop (bar ".+?c" "abcabc" (doh ".+?c" "abcabc" 0) 5) 1
                0 4 0 6 0 1 3 false 0 1 0 (mk_mem None initial_info)
     = quant_loop (bar ".+?c" "abcabc" (doh ".+?c" "abcabc" 0) 5) 0
                  0 4 0 6 0 1 3 false 0 (1 + 1) (1 + 1 + 1)
                  (mk_mem None initial_info).
Proof.
  apply (proj1 (proj1 C2_non_greedy_stops_at_first_tail_match
                 (bar ".+?c"%string "abcabc"%string
                      (doh ".+?c"%string "abcabc"%string 0) 5)
                 O 0 4 0 6 0 1 3 0 1 0 (mk_mem None initial_info)
                 1 (mk_mem None initial_info) 1 (mk_mem None initial_info)
                 ltac:(lia) ltac:(lia) ltac:(vm_compute; reflexivity)
                 ltac:(lia) ltac:(vm_compute; reflexivity))).
  lia.
Defined.

(** ** What the repetition loop records *)

Section Recorded.

Variable bar : Z -> Z -> Z -> Z -> mem -> Z -> option (Z * mem).
Variables re re_len s s_len i step ni : Z.
Variable non_greedy : bool.
Variable bi : Z.

(** A recorded end offset above 0 is never given up. *)
Lemma quant_loop_keeps_positive fuel :
  forall j2 nj m r m',
    0 <= j2 -> 0 < nj ->
    quant_loop bar fuel re re_len s s_len i step ni non_greedy bi j2 nj m
    = Some (r, m') ->
    0 < r.
Proof.
  induction fuel as [|fuel IH]; intros * Hj Hnj H; [discriminate|].
  cbn [quant_loop] in H.
  destruct (bar (re + i) step (s + j2) (s_len - j2) m bi)
    as [[n1 m1]|]; [|discriminate].
  destruct (n1 >? 0) eqn:Hn1; bool_to_prop;
    [|inversion H; subst; assumption].
  destruct (ni >=? re_len).
  - destruct ((j2 + n1 >? 0) && non_greedy).
    + inversion H; subst. lia.
    + eapply IH; [| |exact H]; lia.
  - destruct (bar (re + ni) (re_len - ni) (s + j2 + n1)
                  (s_len - (j2 + n1)) m1 bi) as [[n2 m2]|]; [|discriminate].
    destruct (n2 >? 0) eqn:Hn2; bool_to_prop.
    + destruct ((j2 + n1 + n2 >? 0) && non_greedy).
      * inversion H; subst. lia.
      * eapply IH; [| |exact H]; lia.
    + destruct ((nj >? 0) && non_greedy).
      * inversion H; subst. lia.
      * eapply IH; [| |exact H]; lia.
Qed.

Lemma quant_loop_confirms fuel :
  forall j2 m r m',
    0 <= j2 ->
    quant_loop bar fuel re re_len s s_len i step ni non_greedy bi j2 0 m
    = Some (r, m') ->
    0 < r ->
    confirms bar re re_len s s_len i step ni bi j2 m.
Proof.
  induction fuel as [|fuel IH]; intros * Hj H Hr; [discriminate|].
  cbn [quant_loop] in H.
  destruct (bar (re + i) step (s + j2) (s_len - j2) m bi)
    as [[n1 m1]|] eqn:E1; [|discriminate].
  destruct (n1 >? 0) eqn:Hn1; bool_to_prop; [|inversion H; subst; lia].
  destruct (ni >=? re_len) eqn:Hni.
  - rewrite Z.geb_leb in Hni. bool_to_prop.
    eapply confirms_here; [exact E1|lia|left; lia].
  - rewrite Z.geb_leb in Hni. bool_to_prop.
    destruct (bar (re + ni) (re_len - ni) (s + j2 + n1)
                  (s_len - (j2 + n1)) m1 bi) as [[n2 m2]|] eqn:E2;
      [|discriminate].
    destruct (n2 >? 0) eqn:Hn2; bool_to_prop.
    + eapply confirms_here; [exact E1|lia|right; eauto].
    + cbn [Z.gtb Z.compare andb] in H.
      eapply confirms_later; [exact E1|lia|lia|exact E2|lia|].
      eapply IH; [|exact H|exact Hr]. lia.
Qed.

Lemma confirms_quant_loop j2 m :
  confirms bar re re_len s s_len i step ni bi j2 m ->
  forall fuel r m',
    0 <= j2 ->
    quant_loop bar fuel re re_len s s_len i step ni non_greedy bi j2 0 m
    = Some (r, m') ->
    0 < r.
Proof.
  induction 1 as [j2 m n1 m1 E1 Hn1 Htail
                 |j2 m n1 m1 n2 m2 E1 Hn1 Hni E2 Hn2 _ IH];
    intros fuel r m' Hj H; (destruct fuel as [|fuel]; [discriminate|]);
    cbn [quant_loop] in H; rewrite E1 in H;
    replace (n1 >? 0) with true in H by (symmetry; apply Z.gtb_lt; lia).
  - destruct (ni >=? re_len) eqn:Hge.
    + destruct ((j2 + n1 >? 0) && non_greedy).
      * inversion H; subst. lia.
      * eapply quant_loop_keeps_positive; [| |exact H]; lia.
    + rewrite Z.geb_leb in Hge. bool_to_prop.
      destruct Htail as [Hend | (n2 & m2 & E2 & Hn2)]; [lia|].
      rewrite E2 in H.
      replace (n2 >? 0) with true in H by (symmetry; apply Z.gtb_lt; lia).
      destruct ((j2 + n1 + n2 >? 0) && non_greedy).
      * inversion H; subst. lia.
      * eapply quant_loop_keeps_positive; [| |exact H]; lia.
  - replace (ni >=? re_len) with false in H
      by (symmetry; rewrite Z.geb_leb; apply Z.leb_gt; lia).
    rewrite E2 in H.
    replace (n2 >? 0) with false in H
      by (symmetry; rewrite Z.gtb_ltb; apply Z.ltb_ge; lia).
    cbn [Z.gtb Z.compare andb] in H.
    eapply IH; [|exact H]. lia.
Qed.

Lemma quant_loop_nonneg fuel :
  forall j2 nj m r m',
    0 <= j2 -> 0 <= nj ->
    quant_loop bar fuel re re_len s s_len i step ni non_greedy bi j2 nj m
    = Some (r, m') ->
    0 <= r.
Proof.
  intros * Hj Hnj H.
  destruct (Z.eq_dec nj 0) as [->|Hne].
  - destruct (Z_lt_le_dec 0 r) as [Hr|Hr]; [lia|].
    revert j2 m Hj H.
    induction fuel as [|fuel IH]; intros j2 m Hj H; [discriminate|].
    cbn [quant_loop] in H.
    destruct (bar (re + i) step (s + j2) (s_len - j2) m bi)
      as [[n1 m1]|]; [|discriminate].
    destruct (n1 >? 0) eqn:Hn1; bool_to_prop;
      [|inversion H; subst; lia].
    destruct (ni >=? re_len).
    + destruct ((j2 + n1 >? 0) && non_greedy).
      * inversion H; subst. lia.
      * apply quant_loop_keeps_positive in H; lia.
    + destruct (bar (re + ni) (re_len - ni) (s + j2 + n1)
                    (s_len - (j2 + n1)) m1 bi) as [[n2 m2]|];
        [|discriminate].
      destruct (n2 >? 0) eqn:Hn2; bool_to_prop.
      * destruct ((j2 + n1 + n2 >? 0) && non_greedy).
        -- inversion H; subst. lia.
        -- apply quant_loop_keeps_positive in H; lia.
      * cbn [Z.gtb Z.compare andb] in H.
        eapply IH; [|exact H]. lia.
  - apply quant_loop_keeps_positive in H; lia.
Qed.

End Recorded.

(** With no repetition at all the sequencer returns 0 at the quantifier,
    and the rest of the pattern is not tried. *)
Lemma bar_loop_no_repetition pat subj doh bar fuel re re_len s s_len i j bi m
      n1 m1 :
  i < re_len -> j < s_len ->
  is_quantifier pat (re + i) = false ->
  i + get_op_len pat (re + i) < re_len ->
  bar (re + i) (get_op_len pat (re + i)) (s + j) (s_len - j) m bi
  = Some (n1, m1) ->
  n1 <= 0 ->
  (char_at pat (re + i + get_op_len pat (re + i)) = "*" ->
   bar_loop pat subj doh bar (S fuel) re re_len s s_len i j bi m
   = Some (0, m1))
  /\ (char_at pat (re + i + get_op_len pat (re + i)) = "+" ->
      bar_loop pat subj doh bar (S fuel) re re_len s s_len i j bi m
      = Some (0, mk_mem (caps m1)
                        (set_error_msg (info m1) static_error_no_match))).
Proof.
  intros Hi Hj Hnq Hlook E1 Hn1.
  assert (Hloop :
    quant_loop bar (budget s_len j) re re_len s s_len i
               (get_op_len pat (re + i)) (after_quantifier pat re re_len i)
               (non_greedy_at pat re re_len i) bi j 0 m
    = Some (0, m1)).
  { unfold budget. cbn [quant_loop]. rewrite E1.
    replace (n1 >? 0) with false
      by (symmetry; rewrite Z.gtb_ltb; apply Z.ltb_ge; lia).
    reflexivity. }
  split; intros Hq; rewrite bar_loop_at_quantifier; auto;
    rewrite Hloop, Hq; reflexivity.
Qed.

(** C7.  When the repeated atom stops matching, the repetition loop yields
    the recorded [nj].  Behind "+" the sequencer then fails with reason
    "No match" exactly when [nj] is 0, and returns [nj] otherwise; behind "*"
    it returns [nj] whatever it is, 0 included.  The recorded [nj] is never
    negative, and it is above 0 exactly when some number of repetitions, at
    least one, was followed by a match of the rest of the pattern or by the
    end of the pattern.  With no repetition at all the sequencer hence
    returns 0 behind "*" too, without trying the rest of the pattern, and 0
    is what a failed match returns: "a*b" does not match "b", and "xa*" does
    not match "xb", while "a+" and "a*" match all of "aaa". *)
Theorem C7_plus_and_star_need_confirmed_repetition :
  (forall bar fuel re re_len s s_len i step ni non_greedy bi j2 nj m n1 m1,
      bar (re + i) step (s + j2) (s_len - j2) m bi = Some (n1, m1) ->
      n1 <= 0 ->
      quant_loop bar (S fuel) re re_len s s_len i step ni non_greedy bi
                 j2 nj m
      = Some (nj, m1))
  /\ (forall pat subj doh bar fuel re re_len s s_len i j bi m nj m1,
         i < re_len -> j < s_len ->
         is_quantifier pat (re + i) = false ->
         i + get_op_len pat (re + i) < re_len ->
         quant_loop bar (budget s_len j) re re_len s s_len i
                    (get_op_len pat (re + i))
                    (after_quantifier pat re re_len i)
                    (non_greedy_at pat re re_len i) bi j 0 m
         = Some (nj, m1) ->
         (char_at pat (re + i + get_op_len pat (re + i)) = "+" ->
          (nj = 0 ->
           bar_loop pat subj doh bar (S fuel) re re_len s s_len i j bi m
           = Some (0, mk_mem (caps m1)
                             (set_error_msg (info m1) static_error_no_match)))
          /\ (nj <> 0 ->
              bar_loop pat subj doh bar (S fuel) re re_len s s_len i j bi m
              = Some (nj, m1)))
         /\ (char_at pat (re + i + get_op_len pat (re + i)) = "*" ->
             bar_loop pat subj doh bar (S fuel) re re_len s s_len i j bi m
             = Some (nj, m1)))
  /\ (forall bar fuel re re_len s s_len i step ni non_greedy bi j m nj m1,
         0 <= j ->
         quant_loop bar fuel re re_len s s_len i step ni non_greedy bi j 0 m
         = Some (nj, m1) ->
         0 <= nj
         /\ (0 < nj <-> confirms bar re re_len s s_len i step ni bi j m))
  /\ (forall pat subj doh bar fuel re re_len s s_len i j bi m n1 m1,
         i < re_len -> j < s_len ->
         is_quantifier pat (re + i) = false ->
         i + get_op_len pat (re + i) < re_len ->
         bar (re + i) (get_op_len pat (re + i)) (s + j) (s_len - j) m bi
         = Some (n1, m1) ->
         n1 <= 0 ->
         (char_at pat (re + i + get_op_len pat (re + i)) = "*" ->
          bar_loop pat subj doh bar (S fuel) re re_len s s_len i j bi m
          = Some (0, m1))
         /\ (char_at pat (re + i + get_op_len pat (re + i)) = "+" ->
             bar_loop pat subj doh bar (S fuel) re re_len s s_len i j bi m
             = Some (0, mk_mem (caps m1)
                               (set_error_msg (info m1)
                                              static_error_no_match))))
  /\ slre_match "p+" "fooklmn" 7 None = Some (0, None, static_error_no_match)
  /\ slre_match "a+" "aaa" 3 None = Some (3, None, static_error_no_match)
  /\ slre_match "a*" "aaa" 3 None = Some (3, None, static_error_no_match)
  /\ slre_match "a*b" "b" 1 None = Some (0, None, static_error_no_match)
  /\ slre_match "xa*" "xb" 2 None = Some (0, None, static_error_no_match).
Proof.
  split; [|split; [|split; [|split]]].
  - intros * E1 Hn1. cbn [quant_loop]. rewrite E1.
    replace (n1 >? 0) with false
      by (symmetry; rewrite Z.gtb_ltb; apply Z.ltb_ge; lia).
    reflexivity.
  - intros * Hi Hj Hnq Hlook Hloop. split.
    + intros Hq. split; intros Hnj.
      * rewrite bar_loop_at_quantifier; auto. rewrite Hloop, Hq, Hnj.
        reflexivity.
      * rewrite bar_loop_at_quantifier; auto. rewrite Hloop, Hq.
        cbn [quantifier_result].
        replace (nj =? 0) with false by (symmetry; apply Z.eqb_neq; lia).
        reflexivity.
    + intros Hq. rewrite bar_loop_at_quantifier; auto. rewrite Hloop, Hq.
      reflexivity.
  - intros * Hj H. split; [|split].
    + eapply quant_loop_nonneg; [| |exact H]; lia.
    + intros Hr. eapply quant_loop_confirms; [|exact H|exact Hr]. exact Hj.
    + intros Hc. eapply confirms_quant_loop; [exact Hc|exact Hj|exact H].
  - intros. apply bar_loop_no_repetition with (n1 := n1); assumption.
  - repeat split; vm_compute; reflexivity.
Qed.

Lemma C7_witness :
  quant_loop (bar "p*" "foo" (doh "p*" "foo" 0) 5) 1
             0 2 0 3 0 1 2 false 0 0 0 (mk_mem None initial_info)
  = Some (0, mk_mem None initial_info).
Proof.
  apply (proj1 C7_plus_and_star_need_confirmed_repetition
               (bar "p*"%string "foo"%string (doh "p*"%string "foo"%string 0) 5)
               O 0 2 0 3 0 1 2 false 0 0 0 (mk_mem None initial_info)
               0 (mk_mem None initial_info)).
  - vm_compute. reflexivity.
  - lia.
Defined.

(** "*" does not accept an empty repetition: where the atom does not match
    at all, "x*" returns 0, which is the result of a failed match, and the
    rest of the pattern is never tried.  "b" matches "b" and "x" matches
    "xb", but "a*b" does not match "b" and "xa*" does not match "xb". *)
Lemma C7_counterexample :
  slre_match "a*b" "b" 1 None = Some (0, None, static_error_no_match)
  /\ slre_match "b" "b" 1 None = Some (1, None, static_error_no_match)
  /\ slre_match "xa*" "xb" 2 None = Some (0, None, static_error_no_match)
  /\ slre_match "x" "xb" 2 None = Some (1, None, static_error_no_match).
Proof. repeat split; vm_compute; reflexivity. Qed.

(** ** The anchors *)

(** The loop of [bar] at a "^" that no quantifier follows. *)
Lemma bar_loop_at_caret pat subj doh bar fuel re re_len s s_len i j bi m :
  i < re_len -> j < s_len ->
  char_at pat (re + i) = "^" ->
  (i + 1 <? re_len) && is_quantifier pat (re + i + 1) = false ->
  bar_loop pat subj doh bar (S fuel) re re_len s s_len i j bi m
  = if negb (j =? 0) then FAIL_mem m static_error_no_match
    else bar_loop pat subj doh bar fuel re re_len s s_len (i + 1) j bi m.
Proof.
  intros Hi Hj Hc Hlook.
  assert (Hstep : get_op_len pat (re + i) = 1)
    by (unfold get_op_len; rewrite Hc; reflexivity).
  assert (Hnq : is_quantifier pat (re + i) = false)
    by (unfold is_quantifier; rewrite Hc; reflexivity).
  cbn [bar_loop].
  replace ((i <? re_len) && (j <? s_len)) with true
    by (symmetry; apply andb_true_iff; split; apply Z.ltb_lt; assumption).
  rewrite Hnq, Hstep, Hlook, Hc. reflexivity.
Qed.

(** C6.  The "^" atom consumes nothing: with the cursor [j] of the call of
    the sequencer at 0 the loop goes on to the next atom with [j]
    unchanged, and with [j] past 0 the whole call returns 0 with reason
    "No match".  The cursor counts from the start of the window the call
    was given, not from the start of the subject: a call on a pattern that
    begins with "^" passes it wherever its window [s] starts.  So "o^k"
    does not match "fooklmn", but "a+^b" and "x?^b" match "ab" with result
    2, the "^" being read by a call whose window starts at offset 1. *)
Theorem C6_caret_needs_cursor_at_window_start :
  (forall pat subj doh bar fuel re re_len s s_len i j bi m,
      i < re_len -> j < s_len ->
      char_at pat (re + i) = "^" ->
      (i + 1 <? re_len) && is_quantifier pat (re + i + 1) = false ->
      (j <> 0 ->
       bar_loop pat subj doh bar (S fuel) re re_len s s_len i j bi m
       = Some (0, mk_mem (caps m)
                         (set_error_msg (info m) static_error_no_match)))
      /\ (j = 0 ->
          bar_loop pat subj doh bar (S fuel) re re_len s s_len i j bi m
          = bar_loop pat subj doh bar fuel re re_len s s_len (i + 1) 0 bi m))
  /\ (forall pat subj doh fuel re re_len s s_len m bi,
         0 < re_len -> 0 < s_len ->
         char_at pat re = "^" ->
         (1 <? re_len) && is_quantifier pat (re + 1) = false ->
         bar pat subj doh (S fuel) re re_len s s_len m bi
         = bar_loop pat subj doh (bar pat subj doh fuel)
                    (Z.to_nat (re_len - 0)) re re_len s s_len 1 0 bi m)
  /\ slre_match "^o" "fooklmn" 7 None = Some (0, None, static_error_no_match)
  /\ slre_match "o^k" "fooklmn" 7 None = Some (0, None, static_error_no_match)
  /\ slre_match "^fo" "fooklmn" 7 None = Some (2, None, static_error_no_match)
  /\ slre_match "a+^b" "ab" 2 None = Some (2, None, static_error_no_match)
  /\ slre_match "x?^b" "ab" 2 None = Some (2, None, static_error_no_match).
Proof.
  split; [|split; [|repeat split; vm_compute; reflexivity]].
  - intros pat subj doh1 bar1 fuel re re_len s s_len i j bi m Hi Hj Hc Hlook.
    split; intros Hj0; rewrite bar_loop_at_caret by assumption.
    + replace (j =? 0) with false by (symmetry; apply Z.eqb_neq; assumption).
      reflexivity.
    + subst j. reflexivity.
  - intros pat subj doh1 fuel re re_len s s_len m bi Hre Hs Hc Hlook.
    cbn [bar]. unfold budget.
    rewrite bar_loop_at_caret;
      rewrite ?Z.add_0_r; try assumption; reflexivity.
Qed.

Lemma C6_witness :
  bar_loop "o^k" "ok" (doh "o^k" "ok" 0) (bar "o^k" "ok" (doh "o^k" "ok" 0) 0)
           1 0 3 0 2 1 1 0 (mk_mem None initial_info)
  = Some (0, mk_mem None (set_error_msg initial_info static_error_no_match)).
Proof.
  apply (proj1 C6_caret_needs_cursor_at_window_start
               "o^k"%string "ok"%string (doh "o^k"%string "ok"%string 0)
               (bar "o^k"%string "ok"%string (doh "o^k"%string "ok"%string 0) 0)
               O 0 3 0 2 1 1 0 (mk_mem None initial_info)).
  - lia.
  - lia.
  - vm_compute. reflexivity.
  - vm_compute. reflexivity.
  - lia.
Defined.

(** The "^" of "a+^b" and of "x?^b" is passed at offset 1 of the subject
    "ab".  In "a+^b" it is read by the call the quantifier makes on the
    rest of the pattern, "^b", on the window that starts behind the "a";
    in "x?^b" by the call the driver makes for offset 1.  In both the
    cursor is 0 at the "^", and both patterns match "ab" up to offset 2. *)
Lemma C6_counterexample :
  slre_match "a+^b" "ab" 2 None = Some (2, None, static_error_no_match)
  /\ slre_match "x?^b" "ab" 2 None = Some (2, None, static_error_no_match)
  /\ bar "a+^b" "ab" (doh "a+^b" "ab" 0) 3 2 2 1 1
         (mk_mem None (flat_info "a+^b")) 0
     = Some (1, mk_mem None (flat_info "a+^b")).
Proof. repeat split; vm_compute; reflexivity. Qed.

(** ** The analyzer's scan *)

Section ScanRuns.

Variable pat : string.

Lemma foo_scan_fuel fuel :
  forall fuel' re re_len i inf depth,
    (1 <= fuel)%nat -> re_len - i < Z.of_nat fuel ->
    (1 <= fuel')%nat -> re_len - i < Z.of_nat fuel' ->
    foo_scan pat fuel re re_len i inf depth
    = foo_scan pat fuel' re re_len i inf depth.
Proof.
  induction fuel as [|fuel IH]; intros [|fuel'] * H1 H2 H3 H4; try lia.
  cbn [foo_scan].
  destruct (i <? re_len) eqn:Hi; [|reflexivity]. bool_to_prop.
  destruct (foo_step pat re i inf depth); [reflexivity|].
  pose proof (get_op_len_cases pat (re + i)).
  apply IH; lia.
Qed.

Lemma foo_scan_after n :
  forall fuel fuel' re re_len i inf depth i' inf' depth',
    scan_after pat n re re_len i inf depth = Some (i', inf', depth') ->
    (1 <= fuel)%nat -> re_len - i < Z.of_nat fuel ->
    (1 <= fuel')%nat -> re_len - i' < Z.of_nat fuel' ->
    foo_scan pat fuel re re_len i inf depth
    = foo_scan pat fuel' re re_len i' inf' depth'.
Proof.
  induction n as [|n IH]; intros * H H1 H2 H3 H4; cbn [scan_after] in H.
  - inversion H; subst. apply foo_scan_fuel; assumption.
  - destruct (i <? re_len) eqn:Hi; [|discriminate]. bool_to_prop.
    destruct (foo_step pat re i inf depth) as [|inf1 depth1] eqn:E;
      [discriminate|].
    destruct fuel as [|fuel]; [lia|].
    cbn [foo_scan].
    replace (i <? re_len) with true by (symmetry; apply Z.ltb_lt; lia).
    rewrite E.
    pose proof (get_op_len_cases pat (re + i)).
    eapply IH; eauto; lia.
Qed.

(** The depth counter of a state the scan comes to is not negative. *)
Lemma scan_after_depth n :
  forall re re_len i inf depth i' inf' depth',
    scan_after pat n re re_len i inf depth = Some (i', inf', depth') ->
    0 <= depth -> 0 <= depth'.
Proof.
  induction n as [|n IH]; intros * H Hd; cbn [scan_after] in H.
  - inversion H; subst. assumption.
  - destruct (i <? re_len); [|discriminate].
    destruct (foo_step pat re i inf depth) as [|inf1 depth1] eqn:E;
      [discriminate|].
    eapply IH; [exact H|].
    unfold foo_step in E.
    repeat (split_if E; bool_to_prop); inversion E; subst; lia.
Qed.

End ScanRuns.

Lemma scan_after_snoc pat n :
  forall re re_len i inf depth i1 inf1 depth1 inf2 depth2,
    scan_after pat n re re_len i inf depth = Some (i1, inf1, depth1) ->
    i1 < re_len ->
    foo_step pat re i1 inf1 depth1 = ScanNext inf2 depth2 ->
    scan_after pat (n + 1) re re_len i inf depth
    = Some (i1 + get_op_len pat (re + i1), inf2, depth2).
Proof.
  induction n as [|n IH]; intros * H Hlt Hstep;
    cbn [Nat.add scan_after] in H |- *.
  - inversion H; subst.
    replace (i1 <? re_len) with true by (symmetry; apply Z.ltb_lt; lia).
    rewrite Hstep. reflexivity.
  - destruct (i <? re_len); [|discriminate].
    destruct (foo_step pat re i inf depth); [discriminate|].
    eapply IH; eassumption.
Qed.

Lemma scan_reaches_scan_of regexp i inf depth :
  scan_reaches regexp i inf depth ->
  0 <= i ->
  scan_of regexp
  = foo_scan regexp (budget (strlen regexp) i) 0 (strlen regexp) i inf depth.
Proof.
  intros [n H] Hi. unfold scan_of.
  eapply foo_scan_after; [exact H|..]; unfold budget; lia.
Qed.

Lemma scan_after_offset pat n :
  forall re re_len i inf depth i' inf' depth',
    scan_after pat n re re_len i inf depth = Some (i', inf', depth') ->
    i <= i'.
Proof.
  induction n as [|n IH]; intros * H; cbn [scan_after] in H.
  - inversion H; subst. lia.
  - destruct (i <? re_len); [|discriminate].
    destruct (foo_step pat re i inf depth) as [|inf1 depth1];
      [discriminate|].
    apply IH in H. pose proof (get_op_len_cases pat (re + i)). lia.
Qed.

Lemma scan_reaches_offset regexp i inf depth :
  scan_reaches regexp i inf depth -> 0 <= i /\ 0 <= depth.
Proof.
  intros [n H]. split.
  - eapply scan_after_offset. exact H.
  - eapply scan_after_depth; [exact H|]. lia.
Qed.

(** What [slre_match] returns when the analysis fails. *)
Lemma slre_match_scan_fail regexp s s_len caps0 inf1 :
  scan_of regexp = Some (ScanFail inf1) ->
  slre_match regexp s s_len caps0 = Some (0, caps0, error_msg inf1).
Proof.
  unfold scan_of, scan_start, slre_match, foo. cbn [info caps].
  intros ->. reflexivity.
Qed.

Lemma slre_match_scan_unbalanced regexp s s_len caps0 inf1 depth :
  scan_of regexp = Some (ScanNext inf1 depth) ->
  depth <> 0 ->
  slre_match regexp s s_len caps0
  = Some (0, caps0, static_error_unbalanced_brackets).
Proof.
  unfold scan_of, scan_start, slre_match, foo. cbn [info caps].
  intros -> Hd.
  replace (depth =? 0) with false by (symmetry; apply Z.eqb_neq; assumption).
  reflexivity.
Qed.

(** What [slre_match] does once the analysis has succeeded. *)
Lemma slre_match_analyzed regexp s s_len caps0 inf :
  analyzed regexp = Some inf ->
  slre_match regexp s s_len caps0
  = match foo_match regexp s (budget s_len 0) 0 0 s_len 0 0
                    (mk_mem caps0 inf) with
    | None => None
    | Some (result, m) => Some (result, caps m, error_msg (info m))
    end.
Proof.
  unfold analyzed, scan_of, scan_start, slre_match, foo. cbn [info caps].
  destruct (foo_scan _ _ _ _ _ _ _) as [[inf1|inf1 depth]|]; try discriminate.
  destruct (depth =? 0); [|discriminate].
  intros H. inversion H; subst. reflexivity.
Qed.

Lemma slre_match_not_analyzed regexp s s_len caps0 :
  analyzed regexp = None ->
  exists msg, slre_match regexp s s_len caps0 = Some (0, caps0, msg).
Proof.
  unfold analyzed. intros H.
  destruct (scan_of regexp) as [[inf1|inf1 depth]|] eqn:E.
  - eexists. eapply slre_match_scan_fail. exact E.
  - destruct (depth =? 0) eqn:Hd; [discriminate|]. bool_to_prop.
    eexists. eapply slre_match_scan_unbalanced; eassumption.
  - exfalso. unfold scan_of in E.
    eapply foo_scan_total; [..|exact E]; unfold budget; lia.
Qed.

(** C9.  When the scan of the analyzer comes to a ")" that takes the depth
    counter below 0, or comes to the end of the pattern with the counter not
    0, the match call returns 0 with reason "Unbalanced brackets", and the
    captures are untouched.  So does "(" on every subject. *)
Theorem C9_unbalanced_brackets_rejected :
  (forall regexp s s_len caps0 i inf depth,
      scan_reaches regexp i inf depth ->
      i < strlen regexp -> char_at regexp i = ")" -> depth - 1 < 0 ->
      slre_match regexp s s_len caps0
      = Some (0, caps0, static_error_unbalanced_brackets))
  /\ (forall regexp s s_len caps0 i inf depth,
         scan_reaches regexp i inf depth ->
         strlen regexp <= i -> depth <> 0 ->
         slre_match regexp s s_len caps0
         = Some (0, caps0, static_error_unbalanced_brackets))
  /\ (forall s s_len caps0,
         slre_match "(" s s_len caps0
         = Some (0, caps0, static_error_unbalanced_brackets)).
Proof.
  split; [|split].
  - intros * Hr Hi Hc Hd.
    destruct (scan_reaches_offset _ _ _ _ Hr) as [Hi0 _].
    pose proof (scan_reaches_scan_of _ _ _ _ Hr Hi0) as Hscan.
    unfold budget in Hscan.
    replace (Z.to_nat (strlen regexp - i)) with (S (Z.to_nat (strlen regexp - i - 1)))
      in Hscan by lia.
    cbn [foo_scan] in Hscan.
    replace (i <? strlen regexp) with true in Hscan
      by (symmetry; apply Z.ltb_lt; lia).
    unfold foo_step in Hscan. rewrite Z.add_0_l, Hc in Hscan.
    cbn [Ascii.eqb Bool.eqb] in Hscan.
    replace (depth - 1 <? 0) with true in Hscan
      by (symmetry; apply Z.ltb_lt; lia).
    apply (slre_match_scan_fail _ s s_len caps0) in Hscan. exact Hscan.
  - intros * Hr Hi Hd.
    destruct (scan_reaches_offset _ _ _ _ Hr) as [Hi0 _].
    pose proof (scan_reaches_scan_of _ _ _ _ Hr Hi0) as Hscan.
    unfold budget in Hscan. cbn [foo_scan] in Hscan.
    replace (i <? strlen regexp) with false in Hscan
      by (symmetry; apply Z.ltb_ge; lia).
    eapply slre_match_scan_unbalanced; eassumption.
  - intros. eapply slre_match_scan_unbalanced with (depth := 1);
      [vm_compute; reflexivity|lia].
Qed.

Lemma C9_witness :
  slre_match "(x))" "fooklmn" 7 None
  = Some (0, None, static_error_unbalanced_brackets).
Proof.
  refine (proj1 C9_unbalanced_brackets_rejected "(x))"%string
                "fooklmn"%string 7 None 3 _ 0 _ _ _ _).
  - exists 3%nat. vm_compute. reflexivity.
  - vm_compute. reflexivity.
  - vm_compute. reflexivity.
  - lia.
Defined.

(** Once the scan is at or before the ")" of an empty pair, it fails. *)
Lemma foo_scan_fails_before_empty_pair regexp k fuel :
  has_empty_pair regexp k ->
  forall i inf depth,
    0 <= i <= k ->
    (1 <= fuel)%nat -> strlen regexp - i < Z.of_nat fuel ->
    exists inf',
      foo_scan regexp fuel 0 (strlen regexp) i inf depth
      = Some (ScanFail inf').
Proof.
  intros (Hk & Hopen & Hclose).
  induction fuel as [|fuel IH]; intros * Hi H1 H2; [lia|].
  cbn [foo_scan].
  replace (i <? strlen regexp) with true by (symmetry; apply Z.ltb_lt; lia).
  destruct (foo_step regexp 0 i inf depth) as [inf1|inf1 depth1] eqn:E;
    [eexists; reflexivity|].
  assert (Hik : i < k).
  { destruct (Z.eq_dec i k) as [->|]; [exfalso|lia].
    unfold foo_step in E. rewrite !Z.add_0_l, Hclose, Hopen in E.
    cbn [Ascii.eqb Bool.eqb] in E.
    replace (k >? 0) with true in E by (symmetry; apply Z.gtb_lt; lia).
    cbn [andb] in E. destruct (depth - 1 <? 0); discriminate. }
  assert (Hstep : i + get_op_len regexp (0 + i) <= k).
  { destruct (Z.eq_dec i (k - 1)) as [->|].
    - unfold get_op_len. rewrite Z.add_0_l, Hopen. cbn. lia.
    - pose proof (get_op_len_cases regexp (0 + i)). lia. }
  pose proof (get_op_len_cases regexp (0 + i)).
  apply IH; lia.
Qed.

(** C8, as the code has it.  A pattern with an empty bracket pair never
    matches: the call returns 0 and leaves the captures alone.  The reason
    is "No match" when the scan comes to the ")" of the pair with the depth
    counter at 1 or more, in particular when it comes to the "(" of the pair
    with room left in the bracket array; an earlier failure of the scan, or
    a depth counter at 0, gives that failure's reason instead. *)
Theorem C8_empty_pair_rejected :
  (forall regexp s s_len caps0 k,
      has_empty_pair regexp k ->
      exists msg, slre_match regexp s s_len caps0 = Some (0, caps0, msg))
  /\ (forall regexp s s_len caps0 k inf depth,
         has_empty_pair regexp k ->
         scan_reaches regexp k inf depth -> 1 <= depth ->
         slre_match regexp s s_len caps0
         = Some (0, caps0, static_error_no_match))
  /\ (forall regexp s s_len caps0 k inf depth,
         has_empty_pair regexp k ->
         scan_reaches regexp (k - 1) inf depth ->
         num_brackets inf < MAX_BRACKETS ->
         slre_match regexp s s_len caps0
         = Some (0, caps0, static_error_no_match))
  /\ slre_match "()+" "fooklmn" 7 None = Some (0, None, static_error_no_match).
Proof.
  assert (Hat : forall regexp s s_len caps0 k inf depth,
             has_empty_pair regexp k ->
             scan_reaches regexp k inf depth -> 1 <= depth ->
             slre_match regexp s s_len caps0
             = Some (0, caps0, static_error_no_match)).
  { intros * (Hk & Hopen & Hclose) Hr Hd.
    pose proof (scan_reaches_scan_of _ _ _ _ Hr ltac:(lia)) as Hscan.
    unfold budget in Hscan.
    replace (Z.to_nat (strlen regexp - k))
      with (S (Z.to_nat (strlen regexp - k - 1))) in Hscan by lia.
    cbn [foo_scan] in Hscan.
    replace (k <? strlen regexp) with true in Hscan
      by (symmetry; apply Z.ltb_lt; lia).
    unfold foo_step in Hscan. rewrite !Z.add_0_l, Hclose, Hopen in Hscan.
    cbn [Ascii.eqb Bool.eqb] in Hscan.
    replace (depth - 1 <? 0) with false in Hscan
      by (symmetry; apply Z.ltb_ge; lia).
    replace (k >? 0) with true in Hscan by (symmetry; apply Z.gtb_lt; lia).
    cbn [andb] in Hscan.
    apply (slre_match_scan_fail _ s s_len caps0) in Hscan. exact Hscan. }
  split; [|split; [exact Hat|split; [|vm_compute; reflexivity]]].
  - intros * Hpair.
    destruct (foo_scan_fails_before_empty_pair regexp k
                (budget (strlen regexp) 0) Hpair 0 (scan_start regexp) 0)
      as [inf' E]; try (unfold budget; lia).
    + destruct Hpair. lia.
    + eexists. eapply slre_match_scan_fail. exact E.
  - intros * Hpair [n Hn] Hroom.
    pose proof Hpair as (Hk & Hopen & Hclose).
    destruct (scan_reaches_offset regexp (k - 1) inf depth
                (ex_intro _ n Hn)) as [_ Hd].
    assert (Hstep : foo_step regexp 0 (k - 1) inf depth
                    = ScanNext
                        (set_num_brackets
                           (set_brackets inf
                              (array_set (brackets inf) (num_brackets inf)
                                 (bracket_pair.set_len
                                    (bracket_pair.set_ptr
                                       (bracket_at inf (num_brackets inf))
                                       (0 + (k - 1) + 1)) (-1))))
                           (num_brackets inf + 1))
                        (depth + 1)).
    { unfold foo_step. rewrite !Z.add_0_l, Hopen.
      cbn [Ascii.eqb Bool.eqb]. unfold MAX_BRACKETS in Hroom.
      replace (num_brackets inf >=? MAX_BRACKETS) with false
        by (symmetry; rewrite Z.geb_leb; apply Z.leb_gt;
            unfold MAX_BRACKETS; lia).
      reflexivity. }
    eapply Hat with (k := k) (depth := depth + 1); [exact Hpair| |lia].
    exists (n + 1)%nat.
    erewrite scan_after_snoc; [|exact Hn|lia|exact Hstep].
    unfold get_op_len. rewrite Z.add_0_l, Hopen. cbn [Ascii.eqb Bool.eqb].
    f_equal. f_equal. f_equal. lia.
Qed.

Lemma C8_witness :
  slre_match "a()" "fooklmn" 7 None = Some (0, None, static_error_no_match).
Proof.
  refine (proj1 (proj2 (proj2 C8_empty_pair_rejected)) "a()"%string
                "fooklmn"%string 7 None 2 _ 0 _ _ _).
  - vm_compute. repeat split; reflexivity.
  - exists 1%nat. vm_compute. reflexivity.
  - vm_compute. reflexivity.
Defined.

(** ")()" has an empty pair, and its reason is "Unbalanced brackets". *)
Lemma C8_counterexample :
  has_empty_pair ")()" 2
  /\ slre_match ")()" "abc" 3 None
     = Some (0, None, static_error_unbalanced_brackets).
Proof. vm_compute. repeat split; reflexivity. Qed.

(** ** The branch resolver's sort *)

Lemma list_set_length_in {A : Type} (a : list A) :
  forall k v, (k < List.length a)%nat ->
              List.length (list_set a k v) = List.length a.
Proof.
  induction a as [|x a IH]; intros [|k] v Hk; cbn [list_set List.length] in *;
    try lia.
  rewrite IH; lia.
Qed.

Lemma list_set_nth {A : Type} (d : A) (a : list A) :
  forall k k' v,
    (k < List.length a)%nat ->
    nth k' (list_set a k v) d = if Nat.eqb k' k then v else nth k' a d.
Proof.
  induction a as [|x a IH]; intros [|k] [|k'] v Hk;
    cbn [list_set List.length nth Nat.eqb] in *; try lia; try reflexivity.
  apply IH. lia.
Qed.

Lemma array_set_length {A : Type} (a : list A) k v :
  0 <= k < Z.of_nat (List.length a) ->
  List.length (array_set a k v) = List.length a.
Proof.
  intros Hk. unfold array_set.
  replace (k <? 0) with false by (symmetry; apply Z.ltb_ge; lia).
  apply list_set_length_in. lia.
Qed.

Lemma array_get_set {A : Type} (d : A) (a : list A) k k' v :
  0 <= k < Z.of_nat (List.length a) -> 0 <= k' ->
  array_get d (array_set a k v) k'
  = if k' =? k then v else array_get d a k'.
Proof.
  intros Hk Hk'. unfold array_get, array_set.
  replace (k <? 0) with false by (symmetry; apply Z.ltb_ge; lia).
  replace (k' <? 0) with false by (symmetry; apply Z.ltb_ge; lia).
  rewrite list_set_nth by lia.
  destruct (k' =? k) eqn:E; bool_to_prop.
  - subst. rewrite Nat.eqb_refl. reflexivity.
  - replace (Nat.eqb (Z.to_nat k') (Z.to_nat k)) with false; [reflexivity|].
    symmetry. apply Nat.eqb_neq. lia.
Qed.

Lemma swap_branches_length a i j :
  0 <= i < Z.of_nat (List.length a) -> 0 <= j < Z.of_nat (List.length a) ->
  List.length (swap_branches a i j) = List.length a.
Proof.
  intros Hi Hj. unfold swap_branches.
  rewrite array_set_length; rewrite array_set_length; lia.
Qed.

Lemma swap_branches_get a i j k :
  0 <= i < Z.of_nat (List.length a) -> 0 <= j < Z.of_nat (List.length a) ->
  0 <= k ->
  array_get branch.zero (swap_branches a i j) k
  = if k =? j then array_get branch.zero a i
    else if k =? i then array_get branch.zero a j
         else array_get branch.zero a k.
Proof.
  intros Hi Hj Hk. unfold swap_branches.
  rewrite array_get_set; [|rewrite array_set_length; lia|lia].
  destruct (k =? j); [reflexivity|].
  rewrite array_get_set by lia. reflexivity.
Qed.

(** The inner loop at [i]: afterwards slot [i] is not above any later slot,
    the slots before [i] are untouched, and a lower bound of the slots from
    [i] on stays one. *)
Lemma sort_inner_spec k :
  forall i j a,
    0 <= i < j -> k = Z.to_nat (Z.of_nat (List.length a) - j) ->
    j <= Z.of_nat (List.length a) ->
    (forall q, i < q < j -> key_at a i <= key_at a q) ->
    let a' := sort_inner k i j a in
    List.length a' = List.length a
    /\ (forall p, 0 <= p < i ->
                  array_get branch.zero a' p = array_get branch.zero a p)
    /\ (forall q, i < q < Z.of_nat (List.length a) ->
                  key_at a' i <= key_at a' q)
    /\ (forall B,
           (forall q, i <= q < Z.of_nat (List.length a) -> B <= key_at a q) ->
           forall q, i <= q < Z.of_nat (List.length a) -> B <= key_at a' q).
Proof.
  induction k as [|k IH]; intros i j a Hij Hk Hj Hdone; cbn [sort_inner].
  - cbv zeta. repeat split; auto. intros q Hq. apply Hdone. lia.
  - cbv zeta.
    fold (key_at a i). fold (key_at a j).
    destruct (key_at a i >? key_at a j) eqn:Hgt; bool_to_prop.
    + assert (Hlen : List.length (swap_branches a i j) = List.length a)
        by (apply swap_branches_length; lia).
      assert (Hget : forall q, 0 <= q ->
                 key_at (swap_branches a i j) q
                 = if q =? j then key_at a i
                   else if q =? i then key_at a j else key_at a q).
      { intros q Hq. unfold key_at. rewrite swap_branches_get by lia.
        destruct (q =? j); [reflexivity|]. destruct (q =? i); reflexivity. }
      destruct (IH i (j + 1) (swap_branches a i j)) as (L & P & S1 & S2);
        try lia.
      * intros q Hq. rewrite (Hget i), (Hget q) by lia.
        replace (i =? j) with false by (symmetry; apply Z.eqb_neq; lia).
        rewrite Z.eqb_refl.
        destruct (q =? j) eqn:Hqj; bool_to_prop; [lia|].
        replace (q =? i) with false by (symmetry; apply Z.eqb_neq; lia).
        specialize (Hdone q ltac:(lia)). lia.
      * rewrite Hlen in *. repeat split; auto.
        -- intros p Hp. rewrite P by lia.
           rewrite swap_branches_get by lia.
           replace (p =? j) with false by (symmetry; apply Z.eqb_neq; lia).
           replace (p =? i) with false by (symmetry; apply Z.eqb_neq; lia).
           reflexivity.
        -- intros B HB. apply S2. intros q Hq. rewrite Hget by lia.
           destruct (q =? j); [apply HB; lia|].
           destruct (q =? i); apply HB; lia.
    + destruct (IH i (j + 1) a) as (L & P & S1 & S2); try lia.
      * intros q Hq. destruct (Z.eq_dec q j) as [->|]; [lia|].
        apply Hdone. lia.
      * repeat split; auto.
Qed.

(** The outer loop from [i]: the slots before [i] are already in place. *)
Lemma sort_outer_spec k :
  forall i a,
    0 <= i -> k = Z.to_nat (Z.of_nat (List.length a) - i) ->
    (forall p q, 0 <= p < i -> p < q < Z.of_nat (List.length a) ->
                 key_at a p <= key_at a q) ->
    let a' := sort_outer k (Z.of_nat (List.length a)) i a in
    List.length a' = List.length a
    /\ forall p q, 0 <= p < q -> q < Z.of_nat (List.length a) ->
                   key_at a' p <= key_at a' q.
Proof.
  induction k as [|k IH]; intros i a Hi Hk Hinv; cbn [sort_outer]; cbv zeta.
  - split; [reflexivity|]. intros p q Hp Hq. apply Hinv; lia.
  - destruct (sort_inner_spec
                (Z.to_nat (Z.of_nat (List.length a) - (i + 1))) i (i + 1) a)
      as (L & P & S1 & S2); try lia.
    remember (sort_inner _ i (i + 1) a) as a1 eqn:Ha1.
    destruct (IH (i + 1) a1) as (L' & S'); [lia|rewrite L; lia| |].
    + intros p q Hp Hq. rewrite L in Hq.
      destruct (Z.eq_dec p i) as [->|Hne]; [apply S1; lia|].
      unfold key_at at 1. rewrite P by lia. fold (key_at a p).
      destruct (Z_lt_le_dec q i) as [Hqi|Hqi].
      * unfold key_at at 2. rewrite P by lia. fold (key_at a q).
        apply Hinv; lia.
      * apply (S2 (key_at a p)); [|lia].
        intros q' Hq'. apply Hinv; lia.
    + rewrite L in *. split; [exact L'|exact S'].
Qed.

(** The sort leaves the branches in nondecreasing order of the bracket
    index. *)
Lemma sort_branches_sorted a :
  forall p q,
    0 <= p < q -> q < Z.of_nat (List.length a) ->
    key_at (sort_branches (Z.of_nat (List.length a)) a) p
    <= key_at (sort_branches (Z.of_nat (List.length a)) a) q.
Proof.
  unfold sort_branches.
  destruct (sort_outer_spec (Z.to_nat (Z.of_nat (List.length a))) 0 a)
    as (_ & S); try lia.
  exact S.
Qed.

(** The scan keeps the branch count equal to the number of branches
    recorded. *)
Lemma foo_step_branch_count pat re i inf depth inf' depth' :
  num_branches inf = Z.of_nat (List.length (branches inf)) ->
  foo_step pat re i inf depth = ScanNext inf' depth' ->
  num_branches inf' = Z.of_nat (List.length (branches inf')).
Proof.
  intros Hn H. unfold foo_step in H.
  repeat (split_if H; try discriminate); inversion H; subst; cbn; auto.
  rewrite (array_set_append _ _ _ Hn), List.length_app. cbn [List.length].
  lia.
Qed.

Lemma foo_scan_branch_count pat fuel :
  forall re re_len i inf depth inf' depth',
    num_branches inf = Z.of_nat (List.length (branches inf)) ->
    foo_scan pat fuel re re_len i inf depth = Some (ScanNext inf' depth') ->
    num_branches inf' = Z.of_nat (List.length (branches inf')).
Proof.
  induction fuel as [|fuel IH]; intros * Hn H; [discriminate|].
  cbn [foo_scan] in H.
  destruct (i <? re_len).
  - destruct (foo_step pat re i inf depth) as [|inf1 depth1] eqn:E;
      [discriminate|].
    apply foo_step_branch_count in E; [|assumption].
    eapply IH; eassumption.
  - inversion H; subst. assumption.
Qed.

Lemma assign_branches_branches k :
  forall inf i j,
    branches (assign_branches k inf i j) = branches inf
    /\ num_branches (assign_branches k inf i j) = num_branches inf.
Proof.
  induction k as [|k IH]; intros inf i j; cbn [assign_branches];
    [split; reflexivity|].
  destruct (count_branches _ inf i j 0) as [cnt j1].
  match goal with
  | |- branches (assign_branches k ?inf1 _ _) = _ /\ _ =>
    destruct (IH inf1 (i + 1) j1) as [H1 H2]; rewrite H1, H2
  end.
  split; reflexivity.
Qed.

(** After a successful analysis the branches are in nondecreasing order of
    [bracket_index]. *)
Lemma analyzed_branches_sorted regexp inf p q :
  analyzed regexp = Some inf ->
  0 <= p < q -> q < num_branches inf ->
  branch.bracket_index (branch_at inf p)
  <= branch.bracket_index (branch_at inf q).
Proof.
  unfold analyzed. intros Ha Hp Hq.
  destruct (scan_of regexp) as [[inf1|inf1 depth]|] eqn:Es; try discriminate.
  destruct (depth =? 0); [|discriminate].
  inversion Ha; subst; clear Ha.
  unfold scan_of in Es.
  apply foo_scan_branch_count in Es; [|reflexivity].
  unfold setup_branch_points in *.
  match goal with
  | |- context [assign_branches ?k ?inf1 ?i ?j] =>
    destruct (assign_branches_branches k inf1 i j) as [Hb Hn];
    unfold branch_at; rewrite Hb; rewrite Hn in Hq
  end.
  cbn [branches num_branches set_branches] in *.
  rewrite Es in *.
  apply (sort_branches_sorted (branches inf1)); assumption.
Qed.

(** C3 holds in part.  After a successful analysis the branch array is in
    nondecreasing order of [bracket_index].  But the exchange sort of
    [setup_branch_points] is not stable: for "(a(b|c|d)|e)" the scan records
    the branches of bracket 2 at offsets 4 and 6 and then the branch of
    bracket 1 at offset 9; the sort puts bracket 1 first and leaves the
    branches of bracket 2 in the order 6, 4. *)
Theorem C3_branch_sort_is_not_stable :
  (forall regexp inf p q,
      analyzed regexp = Some inf ->
      0 <= p < q -> q < num_branches inf ->
      branch.bracket_index (branch_at inf p)
      <= branch.bracket_index (branch_at inf q))
  /\ sort_branches 3 [branch.mk 2 4; branch.mk 2 6; branch.mk 1 9]
     = [branch.mk 1 9; branch.mk 2 6; branch.mk 2 4]
  /\ exists inf1,
      scan_of "(a(b|c|d)|e)" = Some (ScanNext inf1 0)
      /\ branches inf1 = [branch.mk 2 4; branch.mk 2 6; branch.mk 1 9]
      /\ analyzed "(a(b|c|d)|e)" = Some (setup_branch_points inf1)
      /\ branches (setup_branch_points inf1)
         = [branch.mk 1 9; branch.mk 2 6; branch.mk 2 4].
Proof.
  split; [intros; eapply analyzed_branches_sorted; eassumption|].
  split; [vm_compute; reflexivity|].
  eexists. split; [vm_compute; reflexivity|].
  repeat split; vm_compute; reflexivity.
Qed.

(** ** The outer driver and the "^" anchor *)

(** C4.  When the pattern starts with "^" the matching loop of the driver
    calls the dispatcher once, on the whole subject at offset 0, and returns
    what it returned.  So a positive result of the match call is the number
    of bytes the dispatcher matched from subject offset 0. *)
Theorem C4_caret_pattern_tried_at_offset_0_only :
  (forall pat subj fuel re s s_len m,
      char_at pat (re + 0) = "^" -> 0 < s_len ->
      foo_match pat subj (S fuel) re s s_len 0 0 m
      = match doh pat subj (Z.to_nat (num_brackets (info m)))
                  (s + 0) (s_len - 0) m 0 with
        | None => None
        | Some (result, m1) => Some (result + 0, m1)
        end)
  /\ (forall regexp s s_len caps0 r caps1 msg,
         char_at regexp 0 = "^" ->
         slre_match regexp s s_len caps0 = Some (r, caps1, msg) ->
         0 < r ->
         exists inf m1,
           analyzed regexp = Some inf
           /\ doh regexp s (Z.to_nat (num_brackets inf)) 0 s_len
                  (mk_mem caps0 inf) 0
              = Some (r, m1)
           /\ r <= s_len /\ caps1 = caps m1 /\ msg = error_msg (info m1))
  /\ slre_match "^o" "fooklmn" 7 None = Some (0, None, static_error_no_match)
  /\ slre_match "o" "fooklmn" 7 None = Some (2, None, static_error_no_match).
Proof.
  assert (Hloop : forall pat subj fuel re s s_len m,
             char_at pat (re + 0) = "^" -> 0 < s_len ->
             foo_match pat subj (S fuel) re s s_len 0 0 m
             = match doh pat subj (Z.to_nat (num_brackets (info m)))
                         (s + 0) (s_len - 0) m 0 with
               | None => None
               | Some (result, m1) => Some (result + 0, m1)
               end).
  { intros * Hc Hs. cbn [foo_match].
    replace (0 <? s_len) with true by (symmetry; apply Z.ltb_lt; lia).
    rewrite Hc. cbn [Ascii.eqb Bool.eqb].
    destruct (doh _ _ _ _ _ _ _) as [[r1 m1]|]; [|reflexivity].
    rewrite orb_true_r. reflexivity. }
  split; [exact Hloop|split; [|split; vm_compute; reflexivity]].
  intros * Hc H Hr.
  destruct (analyzed regexp) as [inf|] eqn:Ha.
  - rewrite (slre_match_analyzed _ s s_len caps0 inf Ha) in H.
    destruct (Z_lt_le_dec 0 s_len) as [Hs|Hs].
    + unfold budget in H. rewrite Hloop in H; [|exact Hc|exact Hs].
      cbn [info] in H. rewrite Z.add_0_l, Z.sub_0_r in H.
      destruct (doh _ _ _ _ _ _ _) as [[r1 m1]|] eqn:E; [|discriminate].
      inversion H; subst. rewrite Z.add_0_r in *.
      exists inf, m1. split; [reflexivity|]. split; [exact E|].
      apply doh_fuel_in_range in E; [|lia]. destruct E. repeat split. lia.
    + unfold budget in H. cbn [foo_match] in H.
      replace (0 <? s_len) with false in H
        by (symmetry; apply Z.ltb_ge; lia).
      inversion H; subst. lia.
  - destruct (slre_match_not_analyzed regexp s s_len caps0 Ha) as [msg' H'].
    rewrite H' in H. inversion H; subst. lia.
Qed.

Lemma C4_witness :
  exists inf m1,
    analyzed "^fo" = Some inf
    /\ doh "^fo" "fooklmn" (Z.to_nat (num_brackets inf)) 0 7
           (mk_mem None inf) 0
       = Some (2, m1)
    /\ 2 <= 7 /\ None = caps m1
    /\ static_error_no_match = error_msg (info m1).
Proof.
  apply (proj1 (proj2 C4_caret_pattern_tried_at_offset_0_only)
               "^fo"%string "fooklmn"%string 7 None 2 None
               static_error_no_match).
  - vm_compute. reflexivity.
  - vm_compute. reflexivity.
  - lia.
Defined.

(** ** The "$" anchor *)

Section DollarCall.

(** A pattern buffer without "(" whose byte at [E - 1] is an unescaped "$";
    the sub-patterns considered all end at [E]. *)
Variables (pat subj : string).
Variable doh : Z -> Z -> mem -> Z -> option (Z * mem).
Variable bar : Z -> Z -> Z -> Z -> mem -> Z -> option (Z * mem).
Variable E : Z.
Hypothesis dollar_at_end : char_at pat (E - 1) = "$".
Hypothesis dollar_not_escaped : char_at pat (E - 2) <> "\".
Hypothesis no_bracket : forall k, char_at pat k <> "(".
Hypothesis bar_ok : bar_in_range bar.
Hypothesis bar_dollar :
  forall re re_len s s_len m bi r m',
    re + re_len = E -> 1 <= re_len -> 0 <= s_len ->
    bar re re_len s s_len m bi = Some (r, m') ->
    0 < r -> r = s_len.

Lemma quant_loop_dollar fuel :
  forall re re_len s s_len i step ni non_greedy bi j2 nj m r m',
    re + re_len = E -> ni < re_len ->
    0 <= j2 <= s_len -> nj = 0 \/ nj = s_len ->
    quant_loop bar fuel re re_len s s_len i step ni non_greedy bi j2 nj m
    = Some (r, m') ->
    r = 0 \/ r = s_len.
Proof.
  induction fuel as [|fuel IH]; intros * HE Hni Hj Hnj H; [discriminate|].
  cbn [quant_loop] in H.
  destruct (bar (re + i) step (s + j2) (s_len - j2) m bi)
    as [[n1 m1]|] eqn:E1; [|discriminate].
  apply bar_ok in E1; [|lia]. destruct E1 as [R1 _].
  split_if H; bool_to_prop; [|fail_inv; assumption].
  replace (ni >=? re_len) with false in H
    by (symmetry; rewrite Z.geb_leb; apply Z.leb_gt; lia).
  destruct (bar (re + ni) (re_len - ni) (s + j2 + n1) (s_len - (j2 + n1)) m1 bi)
    as [[n2 m2]|] eqn:E2; [|discriminate].
  assert (Hnj1 : (if n2 >? 0 then j2 + n1 + n2 else nj) = 0
                 \/ (if n2 >? 0 then j2 + n1 + n2 else nj) = s_len).
  { destruct (n2 >? 0) eqn:Hn2; [|assumption]. bool_to_prop.
    apply bar_dollar in E2; try lia. }
  split_if H; [fail_inv; assumption|].
  apply IH in H; auto; lia.
Qed.

Lemma bar_loop_dollar fuel :
  forall re re_len s s_len i j bi m r m',
    re + re_len = E -> 0 <= i <= re_len - 1 -> 0 <= j <= s_len ->
    bar_loop pat subj doh bar fuel re re_len s s_len i j bi m = Some (r, m') ->
    0 < r -> r = s_len.
Proof.
  induction fuel as [|fuel IH]; intros * HE Hi Hj H Hr; [discriminate|].
  cbn [bar_loop] in H.
  destruct ((i <? re_len) && (j <? s_len)) eqn:Hloop.
  - bool_to_prop.
    destruct (Z.eq_dec i (re_len - 1)) as [Hlast|Hlast].
    + (* the "$" itself, with subject bytes left *)
      replace (re + i) with (E - 1) in H by lia.
      unfold is_quantifier, get_op_len in H.
      rewrite dollar_at_end in H. cbn [Ascii.eqb Bool.eqb orb] in H.
      replace (i + 1 <? re_len) with false in H
        by (symmetry; apply Z.ltb_ge; lia).
      cbn [andb Z.leb Z.compare] in H. fail_inv. lia.
    + pose proof (get_op_len_cases pat (re + i)) as Hstep.
      assert (Hnext : i + get_op_len pat (re + i) <= re_len - 1).
      { destruct Hstep as [->| Hs2]; [lia|]. rewrite Hs2.
        destruct (Z.eq_dec i (re_len - 2)) as [Hi2|]; [exfalso|lia].
        unfold get_op_len in Hs2.
        destruct (Ascii.eqb (char_at pat (re + i)) "\") eqn:Hc;
          [|discriminate].
        apply Ascii.eqb_eq in Hc. apply dollar_not_escaped.
        rewrite <- Hc. f_equal. lia. }
      assert (Hquant :
        is_quantifier pat (re + i + get_op_len pat (re + i)) = true ->
        i + get_op_len pat (re + i) <= re_len - 2).
      { intros Hq.
        destruct (Z.eq_dec (i + get_op_len pat (re + i)) (re_len - 1))
          as [Heq|]; [exfalso|lia].
        replace (re + i + get_op_len pat (re + i)) with (E - 1) in Hq by lia.
        unfold is_quantifier in Hq. rewrite dollar_at_end in Hq.
        discriminate Hq. }
      assert (Hsuffix :
        Ascii.eqb (char_at pat (re + i + get_op_len pat (re + i) + 1)) "?"
        = true ->
        i + get_op_len pat (re + i) + 1 <> re_len - 1).
      { intros Hq Heq.
        replace (re + i + get_op_len pat (re + i) + 1) with (E - 1) in Hq
          by lia.
        rewrite dollar_at_end in Hq. discriminate Hq. }
      assert (Hqlen :
        Ascii.eqb (char_at pat (re + i + get_op_len pat (re + i))) "+"
        || Ascii.eqb (char_at pat (re + i + get_op_len pat (re + i))) "*"
        = true ->
        get_op_len pat (re + i + get_op_len pat (re + i)) = 1).
      { intros Hq. unfold get_op_len at 1.
        destruct (Ascii.eqb (char_at pat (re + i + get_op_len pat (re + i)))
                            "\") eqn:Hb; [|reflexivity].
        apply Ascii.eqb_eq in Hb. rewrite Hb in Hq. discriminate Hq. }
      repeat first
        [ fail_inv; lia
        | match goal with
          | Hc : Ascii.eqb (char_at pat _) "(" = true |- _ =>
            apply Ascii.eqb_eq in Hc; exfalso; eapply no_bracket; exact Hc
          end
        | match type of H with
          | context [match bar ?a ?b ?c ?d ?e ?f with _ => _ end] =>
            let E1 := fresh "E" in
            destruct (bar a b c d e f) as [[? ?]|] eqn:E1; [|discriminate];
            apply bar_ok in E1; [|lia]; destruct E1
          | context [match quant_loop ?a ?b ?c ?d ?e ?f ?g ?h ?i ?j ?k ?l ?m ?n
                     with _ => _ end] =>
            let E1 := fresh "E" in
            destruct (quant_loop a b c d e f g h i j k l m n) as [[? ?]|] eqn:E1;
            [|discriminate];
            apply quant_loop_dollar in E1;
            [ | assumption
              | repeat match goal with
                       | Hq : is_quantifier _ _ = true |- _ =>
                         apply Hquant in Hq
                       | Hq : _ || _ = true |- _ => apply Hqlen in Hq
                       end;
                destruct (_ && Ascii.eqb _ _) eqn:?; bool_to_prop;
                repeat match goal with
                       | Hq : Ascii.eqb _ "?" = true |- _ =>
                         apply Hsuffix in Hq
                       end; lia
              | lia | left; reflexivity ]
          end
        | split_if H; bool_to_prop
        | apply IH in H; auto; try lia;
          repeat match goal with
                 | Hq : is_quantifier _ _ = true |- _ => apply Hquant in Hq
                 end; lia ].
  - (* the subject is exhausted *)
    apply andb_false_iff in Hloop.
    replace (i <? re_len) with true in H by (symmetry; apply Z.ltb_lt; lia).
    cbn [andb] in H. split_if H; [fail_inv; lia|].
    fail_inv. destruct Hloop as [Hl|Hl]; bool_to_prop; lia.
Qed.

End DollarCall.

Section DollarPattern.

Variables (pat subj : string).
Variable E : Z.
Hypothesis dollar_at_end : char_at pat (E - 1) = "$".
Hypothesis dollar_not_escaped : char_at pat (E - 2) <> "\".
Hypothesis no_bracket : forall k, char_at pat k <> "(".

Lemma bar_fuel_dollar d fuel :
  forall re re_len s s_len m bi r m',
    re + re_len = E -> 1 <= re_len -> 0 <= s_len ->
    bar pat subj (doh pat subj d) fuel re re_len s s_len m bi = Some (r, m') ->
    0 < r -> r = s_len.
Proof.
  induction fuel as [|fuel IH]; intros * HE Hlen Hs H Hr; [discriminate|].
  cbn [bar] in H.
  eapply (bar_loop_dollar pat subj (doh pat subj d)
                          (bar pat subj (doh pat subj d) fuel) E);
    eauto; try lia.
  apply bar_in_range_all.
Qed.

(** The last alternative of a run is handed to [bar] from a memory with the
    same arrays. *)
Lemma alts_run_last bar s s_len bi k :
  bar_in_range bar -> 0 <= s_len ->
  forall i m r m',
    alts_run bar s s_len bi k i m r m' ->
    exists m1,
      arrays (info m1) = arrays (info m)
      /\ bar (alt_ptr (info m1) (bracket_at (info m1) bi) (i + Z.of_nat k))
             (alt_len (info m1) (bracket_at (info m1) bi) (i + Z.of_nat k)
                      (alt_ptr (info m1) (bracket_at (info m1) bi)
                               (i + Z.of_nat k)))
             s s_len m1 bi
         = Some (r, m').
Proof.
  intros Hok Hs. induction k as [|k IH]; intros * H; cbn [alts_run] in H.
  - exists m. split; [reflexivity|]. rewrite Z.add_0_r. exact H.
  - destruct H as (r1 & m1 & E1 & H).
    apply Hok in E1; [|assumption]. destruct E1 as [_ A1].
    destruct (IH _ _ _ _ H) as (m2 & A2 & E2).
    exists m2. split; [congruence|].
    replace (i + Z.of_nat (S k)) with (i + 1 + Z.of_nat k) by lia.
    exact E2.
Qed.

Lemma doh_dollar d :
  forall s s_len m r m',
    1 <= E -> spans_pattern pat E (info m) -> 0 <= s_len ->
    doh pat subj (S d) s s_len m 0 = Some (r, m') ->
    0 < r -> r = s_len.
Proof.
  intros * HE Hspan Hs H Hr.
  apply doh_alts_run in H; [|assumption|apply Hspan].
  apply alts_run_last in H;
    [|unfold bar_of_doh; intros ? ? ? ? ? ? ? ? ? Hb;
      eapply bar_in_range_all; eassumption|assumption].
  destruct H as (m1 & A1 & H).
  rewrite (arrays_bracket_at _ _ 0 A1) in H.
  destruct Hspan as (Hptr & Hlen & Hbr & Hnb & Hlast).
  remember (bracket_at (info m) 0) as b eqn:Hb.
  rewrite Z.add_0_l, Z2Nat.id in H by assumption.
  unfold bar_of_doh in H.
  assert (Hp : 0 <= alt_ptr (info m1) b (bracket_pair.num_branches b) <= E - 1).
  { unfold alt_ptr. destruct (_ =? 0) eqn:H0; bool_to_prop; [lia|].
    rewrite Hbr, Z.add_0_l.
    rewrite (arrays_branch_at _ _ _ A1).
    destruct Hlast as [Hrange Hbar]; [lia|].
    destruct (Z.eq_dec (branch.schlong
                          (branch_at (info m)
                                     (bracket_pair.num_branches b - 1)))
                       (E - 1)) as [Heq|]; [exfalso|lia].
    rewrite Heq, dollar_at_end in Hbar. discriminate Hbar. }
  eapply bar_fuel_dollar in H; eauto.
  - unfold alt_len. rewrite Z.eqb_refl.
    destruct (_ =? 0) eqn:H0; bool_to_prop; [|lia].
    unfold alt_ptr. rewrite H0. cbn. lia.
  - unfold alt_len. rewrite Z.eqb_refl.
    destruct (_ =? 0) eqn:H0; bool_to_prop; [|lia].
    unfold alt_ptr in Hp. rewrite H0 in Hp. cbn in Hp. lia.
Qed.

End DollarPattern.

(** *** The analysis of a pattern without "(" *)

Lemma array_get_in_bracket_0 a k :
  Forall in_bracket_0 a ->
  branch.bracket_index (array_get branch.zero a k) = 0.
Proof.
  intros H. apply (array_get_Forall in_bracket_0); [reflexivity|exact H].
Qed.

Lemma sort_inner_in_bracket_0 k :
  forall i j a, Forall in_bracket_0 a -> sort_inner k i j a = a.
Proof.
  induction k as [|k IH]; intros i j a Ha; cbn [sort_inner]; [reflexivity|].
  rewrite !array_get_in_bracket_0 by assumption.
  cbn [Z.gtb Z.compare]. apply IH, Ha.
Qed.

Lemma sort_outer_in_bracket_0 k :
  forall n i a, Forall in_bracket_0 a -> sort_outer k n i a = a.
Proof.
  induction k as [|k IH]; intros n i a Ha; cbn [sort_outer]; [reflexivity|].
  rewrite sort_inner_in_bracket_0 by assumption. apply IH, Ha.
Qed.

Lemma count_branches_in_bracket_0 k :
  forall inf j cnt,
    Forall in_bracket_0 (branches inf) ->
    0 <= j -> k = Z.to_nat (num_branches inf - j) ->
    j <= num_branches inf ->
    count_branches k inf 0 j cnt
    = (cnt + (num_branches inf - j), num_branches inf).
Proof.
  induction k as [|k IH]; intros inf j cnt Ha Hj Hk Hle;
    cbn [count_branches].
  - f_equal; lia.
  - replace (j <? num_branches inf) with true
      by (symmetry; apply Z.ltb_lt; lia).
    unfold branch_at. rewrite array_get_in_bracket_0 by assumption.
    cbn [Z.eqb andb]. rewrite IH; auto; try lia. f_equal. lia.
Qed.

Section PlainScan.

Variable regexp : string.
Hypothesis no_bracket : forall k, char_at regexp k <> "(".

Lemma scan_start_plain : plain_scan_state regexp (scan_start regexp) 0.
Proof.
  unfold plain_scan_state, scan_start, foo_init. cbn.
  repeat split; constructor.
Qed.

Lemma foo_step_plain i inf depth inf' depth' :
  plain_scan_state regexp inf depth -> 0 <= i < strlen regexp ->
  foo_step regexp 0 i inf depth = ScanNext inf' depth' ->
  plain_scan_state regexp inf' depth'.
Proof.
  intros (Hb & Hnb & Hd & Hlen & Hall) Hi H. unfold foo_step in H.
  rewrite !Z.add_0_l in H.
  destruct (Ascii.eqb (char_at regexp i) "|") eqn:Hbar.
  - split_if H; [discriminate|]. inversion H; subst; clear H.
    unfold plain_scan_state. cbn.
    rewrite (array_set_append _ _ _ Hlen).
    repeat split; auto.
    + rewrite List.length_app. cbn [List.length]. lia.
    + apply Forall_app. split; [exact Hall|].
      constructor; [|constructor]. cbn.
      unfold open_bracket, bracket_at. rewrite Hnb, Hb. cbn.
      pose proof (strlen_nonneg regexp).
      replace (strlen regexp =? -1) with false
        by (symmetry; apply Z.eqb_neq; lia).
      apply Ascii.eqb_eq in Hbar. repeat split; auto; lia.
  - destruct (Ascii.eqb (char_at regexp i) "(") eqn:Hopen.
    + apply Ascii.eqb_eq in Hopen. exfalso. eapply no_bracket. exact Hopen.
    + destruct (Ascii.eqb (char_at regexp i) ")").
      * subst depth. cbn [Z.sub Z.add Z.opp Z.ltb Z.compare] in H.
        discriminate H.
      * inversion H; subst. repeat split; auto.
Qed.

Lemma foo_scan_plain fuel :
  forall i inf depth inf' depth',
    plain_scan_state regexp inf depth -> 0 <= i ->
    foo_scan regexp fuel 0 (strlen regexp) i inf depth
    = Some (ScanNext inf' depth') ->
    plain_scan_state regexp inf' depth'.
Proof.
  induction fuel as [|fuel IH]; intros * Hst Hi H; [discriminate|].
  cbn [foo_scan] in H.
  destruct (i <? strlen regexp) eqn:Hlt; bool_to_prop.
  - destruct (foo_step regexp 0 i inf depth) as [|inf1 depth1] eqn:E;
      [discriminate|].
    apply foo_step_plain in E; auto.
    pose proof (get_op_len_cases regexp (0 + i)).
    eapply IH; [exact E| |exact H]. lia.
  - inversion H; subst. exact Hst.
Qed.

Lemma setup_branch_points_plain inf :
  plain_scan_state regexp inf 0 ->
  brackets (setup_branch_points inf)
  = [bracket_pair.mk 0 (strlen regexp) 0 (num_branches inf)]
  /\ num_brackets (setup_branch_points inf) = 1
  /\ branches (setup_branch_points inf) = branches inf.
Proof.
  intros (Hb & Hnb & _ & Hlen & Hall).
  assert (Hall0 : Forall in_bracket_0 (branches inf)).
  { eapply Forall_impl; [|exact Hall]. intros br (H0 & _). exact H0. }
  unfold setup_branch_points, sort_branches.
  rewrite sort_outer_in_bracket_0 by assumption.
  cbn [num_brackets set_branches]. rewrite Hnb.
  change (Z.to_nat 1) with 1%nat. cbn [assign_branches].
  cbn [num_branches].
  rewrite count_branches_in_bracket_0;
    try (unfold set_branches; cbn [branches num_branches]; auto; lia).
  unfold bracket_at, set_brackets, set_branches.
  cbn [brackets num_brackets branches num_branches].
  rewrite Hb, Hnb. cbn.
  repeat split.
  unfold bracket_pair.set_branches, bracket_pair.set_num_branches. cbn.
  rewrite Z.sub_0_r. reflexivity.
Qed.

End PlainScan.

Lemma spans_pattern_arrays pat E inf inf' :
  arrays inf' = arrays inf -> spans_pattern pat E inf ->
  spans_pattern pat E inf'.
Proof.
  intros A H. unfold spans_pattern in *.
  rewrite (arrays_bracket_at _ _ 0 A), (arrays_branch_at _ _ _ A). exact H.
Qed.

Lemma plain_spans_pattern regexp inf1 :
  plain_scan_state regexp inf1 0 ->
  (forall k, char_at regexp k <> "(") ->
  spans_pattern regexp (strlen regexp) (setup_branch_points inf1)
  /\ num_brackets (setup_branch_points inf1) = 1.
Proof.
  intros Hst Hno.
  destruct (setup_branch_points_plain regexp inf1 Hst) as (Hb & Hnb & Hbr).
  destruct Hst as (_ & _ & _ & Hlen & Hall).
  split; [|exact Hnb].
  assert (Hb0 : bracket_at (setup_branch_points inf1) 0
                = bracket_pair.mk 0 (strlen regexp) 0 (num_branches inf1))
    by (unfold bracket_at; rewrite Hb; reflexivity).
  unfold spans_pattern. rewrite Hb0. unfold branch_at. rewrite Hbr.
  cbn [bracket_pair.ptr bracket_pair.len bracket_pair.branches
       bracket_pair.num_branches].
  split; [reflexivity|]. split; [reflexivity|]. split; [reflexivity|].
  split; [lia|]. intros Hpos. cbv zeta.
  assert (Hin : In (array_get branch.zero (branches inf1)
                              (num_branches inf1 - 1))
                   (branches inf1)).
  { unfold array_get.
    replace (num_branches inf1 - 1 <? 0) with false
      by (symmetry; apply Z.ltb_ge; lia).
    apply nth_In. lia. }
  rewrite Forall_forall in Hall. apply Hall in Hin.
  destruct Hin as (_ & Hrange & Hbar). split; assumption.
Qed.

Section DollarDriver.

Variables (regexp subj : string).
Hypothesis dollar_at_end : char_at regexp (strlen regexp - 1) = "$".
Hypothesis dollar_not_escaped : char_at regexp (strlen regexp - 2) <> "\".
Hypothesis no_bracket : forall k, char_at regexp k <> "(".

Lemma foo_match_dollar fuel :
  forall s s_len i result m r m',
    spans_pattern regexp (strlen regexp) (info m) ->
    num_brackets (info m) = 1 ->
    0 <= i -> (char_at regexp 0 = "^" -> i = 0) -> result <= 0 ->
    foo_match regexp subj fuel 0 s s_len i result m = Some (r, m') ->
    0 < r -> r = s_len.
Proof.
  assert (HE : 1 <= strlen regexp).
  { pose proof (strlen_nonneg regexp).
    destruct (Z.eq_dec (strlen regexp) 0) as [H0|]; [exfalso|lia].
    rewrite H0 in dollar_at_end. discriminate dollar_at_end. }
  induction fuel as [|fuel IH]; intros * Hspan Hnb Hi Hcaret Hres H Hr;
    [discriminate|].
  cbn [foo_match] in H.
  destruct (i <? s_len) eqn:Hlt; bool_to_prop; [|fail_inv; lia].
  rewrite Hnb in H. change (Z.to_nat 1) with 1%nat in H.
  destruct (doh regexp subj 1 (s + i) (s_len - i) m 0)
    as [[r1 m1]|] eqn:E1; [|discriminate].
  pose proof E1 as R1. apply doh_fuel_in_range in R1; [|lia].
  destruct R1 as [R1 A1].
  assert (Hr1 : 0 < r1 -> r1 = s_len - i).
  { intros Hpos.
    eapply (doh_dollar regexp subj (strlen regexp)); eauto. lia. }
  rewrite Z.add_0_l in H.
  destruct (r1 >? 0) eqn:Hgt; bool_to_prop.
  - cbn [orb] in H. fail_inv. lia.
  - cbn [orb] in H.
    destruct (Ascii.eqb (char_at regexp 0) "^") eqn:Hc.
    + apply Ascii.eqb_eq in Hc. fail_inv. specialize (Hcaret Hc). lia.
    + eapply IH in H; eauto; try lia.
      * eapply spans_pattern_arrays; eassumption.
      * rewrite (arrays_num_brackets _ _ A1). assumption.
      * intros Hc'. rewrite Hc' in Hc. discriminate Hc.
Qed.

Lemma slre_match_dollar s_len caps0 r caps1 msg :
  slre_match regexp subj s_len caps0 = Some (r, caps1, msg) ->
  0 < r -> r = s_len.
Proof.
  intros H Hr.
  destruct (analyzed regexp) as [inf|] eqn:Ha.
  - rewrite (slre_match_analyzed _ subj s_len caps0 inf Ha) in H.
    destruct (foo_match _ _ _ _ _ _ _ _ _) as [[r1 m1]|] eqn:F;
      [|discriminate].
    inversion H; subst; clear H.
    unfold analyzed in Ha.
    destruct (scan_of regexp) as [[inf1|inf1 depth]|] eqn:Es;
      try discriminate.
    destruct (depth =? 0) eqn:Hd; [|discriminate]. bool_to_prop. subst depth.
    inversion Ha; subst; clear Ha.
    unfold scan_of in Es.
    apply foo_scan_plain in Es;
      [|assumption|apply scan_start_plain|lia].
    destruct (plain_spans_pattern regexp inf1 Es no_bracket) as [Hspan Hnb].
    eapply foo_match_dollar in F; eauto; cbn [info]; auto; lia.
  - destruct (slre_match_not_analyzed regexp subj s_len caps0 Ha) as [msg' H'].
    rewrite H' in H. inversion H; subst. lia.
Qed.

End DollarDriver.

(** C5, as the code has it.  After the loop of the sequencer a remaining
    "$" that is the last pattern byte is accepted, and the call returns the
    cursor; anything else remaining fails with "No match".  A "$" met as an
    atom inside the loop fails with "No match".  For a pattern that ends in
    "$", has no "(" and whose "$" does not follow a backslash, a positive
    result of the match call is the subject length. *)
Theorem C5_dollar_matches_only_at_end :
  (forall pat subj doh bar fuel re re_len s s_len i j bi m,
      i < re_len -> s_len <= j ->
      (char_at pat (re + i) = "$" -> i + 1 = re_len ->
       bar_loop pat subj doh bar (S fuel) re re_len s s_len i j bi m
       = Some (j, m))
      /\ (char_at pat (re + i) <> "$" \/ i + 1 <> re_len ->
          bar_loop pat subj doh bar (S fuel) re re_len s s_len i j bi m
          = Some (0, mk_mem (caps m)
                            (set_error_msg (info m) static_error_no_match))))
  /\ (forall pat subj doh bar fuel re re_len s s_len i j bi m,
         i < re_len -> j < s_len ->
         char_at pat (re + i) = "$" ->
         (i + 1 <? re_len) && is_quantifier pat (re + i + 1) = false ->
         bar_loop pat subj doh bar (S fuel) re re_len s s_len i j bi m
         = Some (0, mk_mem (caps m)
                           (set_error_msg (info m) static_error_no_match)))
  /\ (forall regexp s s_len caps0 r caps1 msg,
         char_at regexp (strlen regexp - 1) = "$" ->
         char_at regexp (strlen regexp - 2) <> "\" ->
         (forall k, char_at regexp k <> "(") ->
         slre_match regexp s s_len caps0 = Some (r, caps1, msg) ->
         0 < r -> r = s_len)
  /\ slre_match "n$" "fooklmn" 7 None = Some (7, None, static_error_no_match)
  /\ slre_match "l$" "fooklmn" 7 None = Some (0, None, static_error_no_match)
  /\ slre_match "n$k" "fooklmn" 7 None = Some (0, None, static_error_no_match).
Proof.
  split; [|split; [|split; [|repeat split; vm_compute; reflexivity]]].
  - intros pat subj doh1 bar1 fuel re re_len s s_len i j bi m Hi Hj.
    assert (Hbody :
      bar_loop pat subj doh1 bar1 (S fuel) re re_len s s_len i j bi m
      = if negb (Ascii.eqb (char_at pat (re + i)) "$" && (i + 1 =? re_len))
        then FAIL_mem m static_error_no_match
        else Some (j, m)).
    { cbn [bar_loop].
      replace (j <? s_len) with false by (symmetry; apply Z.ltb_ge; lia).
      replace (i <? re_len) with true by (symmetry; apply Z.ltb_lt; lia).
      reflexivity. }
    rewrite Hbody. split.
    + intros Hc Hlast. rewrite Hc.
      replace (i + 1 =? re_len) with true by (symmetry; apply Z.eqb_eq; lia).
      reflexivity.
    + intros [Hc|Hlast].
      * replace (Ascii.eqb (char_at pat (re + i)) "$") with false
          by (symmetry; apply Ascii.eqb_neq; assumption).
        reflexivity.
      * replace (i + 1 =? re_len) with false
          by (symmetry; apply Z.eqb_neq; lia).
        rewrite andb_false_r. reflexivity.
  - intros pat subj doh1 bar1 fuel re re_len s s_len i j bi m Hi Hj Hc Hlook.
    cbn [bar_loop].
    replace ((i <? re_len) && (j <? s_len)) with true
      by (symmetry; apply andb_true_iff; split; apply Z.ltb_lt; assumption).
    unfold is_quantifier at 1. unfold get_op_len. rewrite Hc.
    cbn [Ascii.eqb Bool.eqb orb Z.leb Z.compare].
    rewrite Hlook. reflexivity.
  - intros * Hend Hesc Hno H Hr.
    eapply slre_match_dollar; eassumption.
Qed.

Lemma C5_witness :
  slre_match ".$" "fooklmn" 7 None = Some (7, None, static_error_no_match)
  /\ 7 = 7.
Proof.
  split; [vm_compute; reflexivity|].
  refine (proj1 (proj2 (proj2 C5_dollar_matches_only_at_end)) ".$"%string
                "fooklmn"%string 7 None 7 None static_error_no_match
                _ _ _ _ _).
  - vm_compute. reflexivity.
  - vm_compute. discriminate.
  - intros k.
    unfold char_at. destruct (k <? 0); [discriminate|].
    destruct (Z.to_nat k) as [|[|[|n]]]; cbn; discriminate.
  - vm_compute. reflexivity.
  - lia.
Defined.

(** "a\$" ends in "$" and matches "a$" inside "a$b"; "(abc)|(a)$" ends in
    "$" and matches "abc" inside "abcd". *)
Lemma C5_counterexample :
  (char_at "a\$" (strlen "a\$" - 1) = "$"
   /\ slre_match "a\$" "a$b" 3 None = Some (2, None, static_error_no_match))
  /\ (char_at "(abc)|(a)$" (strlen "(abc)|(a)$" - 1) = "$"
      /\ slre_match "(abc)|(a)$" "abcd" 4 None
         = Some (3, None, static_error_no_match)).
Proof. vm_compute. repeat split; reflexivity. Qed.

(** ** The pieces the dispatcher hands to the sequencer *)






(** *** The pieces of a pattern without "(" *)


Section PlainPieces.

Variable regexp : string.
Hypothesis no_bracket : forall k, char_at regexp k <> "(".



End PlainPieces.





(** * Further properties of the code *)

(** ** Patterns of one alternative and no group *)

Lemma char_at_nil p : char_at EmptyString p = zero.
Proof.
  unfold char_at. destruct (p <? 0); [reflexivity|].
  destruct (Z.to_nat p); reflexivity.
Qed.

Lemma char_at_cons c rest p :
  0 < p -> char_at (String c rest) p = char_at rest (p - 1).
Proof.
  intros Hp. unfold char_at.
  replace (p <? 0) with false by (symmetry; apply Z.ltb_ge; lia).
  replace (p - 1 <? 0) with false by (symmetry; apply Z.ltb_ge; lia).
  replace (Z.to_nat p) with (S (Z.to_nat (p - 1))) by lia.
  reflexivity.
Qed.

Lemma char_at_negative buf p : p < 0 -> char_at buf p = zero.
Proof.
  intros Hp. unfold char_at.
  replace (p <? 0) with true by (symmetry; apply Z.ltb_lt; lia).
  reflexivity.
Qed.

Lemma is_flat_char_at buf :
  is_flat buf = true ->
  forall k, char_at buf k <> "(" /\ char_at buf k <> ")"
            /\ char_at buf k <> "|".
Proof.
  induction buf as [|c rest IH]; intros H k.
  - rewrite char_at_nil. repeat split; discriminate.
  - cbn [is_flat] in H. bool_to_prop.
    destruct (Z_lt_le_dec k 0) as [Hk|Hk].
    + rewrite char_at_negative by assumption. repeat split; discriminate.
    + destruct (Z.eq_dec k 0) as [->|Hne].
      * cbn. repeat split; intros ->; discriminate.
      * rewrite char_at_cons by lia. apply IH. assumption.
Qed.

Lemma all_simple_is_flat buf : all_simple buf = true -> is_flat buf = true.
Proof.
  induction buf as [|c rest IH]; intros H; [reflexivity|].
  cbn [all_simple is_flat] in *. bool_to_prop.
  rewrite IH by assumption. unfold is_simple in *. bool_to_prop.
  repeat match goal with
         | H : Ascii.eqb _ _ = false |- _ => rewrite H; clear H
         end.
  reflexivity.
Qed.

Lemma all_simple_strlen buf :
  all_simple buf = true -> strlen buf = Z.of_nat (String.length buf).
Proof.
  unfold strlen. intros H. f_equal.
  induction buf as [|c rest IH]; [reflexivity|].
  cbn [all_simple strlen_nat String.length] in *. bool_to_prop.
  unfold is_simple in *. bool_to_prop.
  match goal with H : Ascii.eqb c zero = false |- _ => rewrite H end.
  rewrite IH by assumption. reflexivity.
Qed.

Lemma all_simple_char_at buf :
  all_simple buf = true ->
  forall k, 0 <= k < strlen buf -> is_simple (char_at buf k) = true.
Proof.
  intros H k. rewrite (all_simple_strlen buf H). revert H k.
  induction buf as [|c rest IH]; intros H k Hk.
  - cbn [String.length] in Hk. lia.
  - cbn [all_simple String.length] in *. bool_to_prop.
    destruct (Z.eq_dec k 0) as [->|Hne]; [assumption|].
    rewrite char_at_cons by lia. apply IH; [assumption|lia].
Qed.

Lemma FAIL_mem_no_match m :
  error_msg (info m) = static_error_no_match ->
  FAIL_mem m static_error_no_match = Some (0, m).
Proof.
  destruct m as [c [a b d e msg f]]. cbn. intros ->. reflexivity.
Qed.

Section FlatScan.

Variable regexp : string.
Hypothesis flat : is_flat regexp = true.

Lemma foo_step_flat i inf depth :
  foo_step regexp 0 i inf depth = ScanNext inf depth.
Proof.
  unfold foo_step.
  destruct (is_flat_char_at regexp flat (0 + i)) as (A & B & C).
  apply Ascii.eqb_neq in A, B, C. rewrite A, B, C. reflexivity.
Qed.

Lemma foo_scan_flat fuel :
  forall i inf depth,
    (1 <= fuel)%nat -> strlen regexp - i < Z.of_nat fuel ->
    foo_scan regexp fuel 0 (strlen regexp) i inf depth
    = Some (ScanNext inf depth).
Proof.
  induction fuel as [|fuel IH]; intros i inf depth Hf1 Hf; [lia|].
  cbn [foo_scan].
  destruct (i <? strlen regexp) eqn:Hi; [|reflexivity]. bool_to_prop.
  rewrite foo_step_flat.
  pose proof (get_op_len_cases regexp (0 + i)).
  apply IH; lia.
Qed.

Lemma analyzed_flat : analyzed regexp = Some (flat_info regexp).
Proof.
  unfold analyzed, scan_of.
  rewrite foo_scan_flat by (unfold budget; lia).
  reflexivity.
Qed.

End FlatScan.

Lemma doh_flat regexp subj s s_len m :
  arrays (info m) = arrays (flat_info regexp) ->
  doh regexp subj (Z.to_nat (num_brackets (info m))) s s_len m 0
  = bar regexp subj (doh regexp subj 0) (budget (strlen regexp) 0)
        0 (strlen regexp) s s_len m 0.
Proof.
  intros A.
  rewrite (arrays_num_brackets _ _ A).
  change (Z.to_nat (num_brackets (flat_info regexp))) with 1%nat.
  cbn [doh].
  rewrite (arrays_bracket_at _ _ 0 A).
  change (bracket_at (flat_info regexp) 0)
    with (bracket_pair.mk 0 (strlen regexp) 0 0).
  cbn [bracket_pair.num_branches]. change (budget 0 0) with 1%nat.
  cbn [doh_loop].
  rewrite (arrays_bracket_at _ _ 0 A).
  change (bracket_at (flat_info regexp) 0)
    with (bracket_pair.mk 0 (strlen regexp) 0 0).
  unfold alt_ptr, alt_len.
  cbn [bracket_pair.num_branches bracket_pair.ptr bracket_pair.len
       Z.eqb Z.ltb Z.compare].
  destruct (bar _ _ _ _ _ _ _ _ _ _) as [[r m1]|]; reflexivity.
Qed.

Section SimpleCall.

Variables (pat subj : string).
Variable doh : Z -> Z -> mem -> Z -> option (Z * mem).
Variable bar : Z -> Z -> Z -> Z -> mem -> Z -> option (Z * mem).

Lemma bar_loop_simple fuel :
  forall re re_len s s_len i j bi m,
    0 <= i <= re_len -> re_len - i < Z.of_nat fuel ->
    (forall k, i <= k < re_len -> is_simple (char_at pat (re + k)) = true) ->
    bar_loop pat subj doh bar fuel re re_len s s_len i j bi m
    = if atoms_match pat subj (Z.to_nat (re_len - i)) (re + i) (s + j)
                     (s + s_len)
      then Some (j + (re_len - i), m)
      else FAIL_mem m static_error_no_match.
Proof.
  induction fuel as [|fuel IH]; intros * Hi Hf Hsimple; [lia|].
  cbn [bar_loop].
  destruct (i <? re_len) eqn:Hlt; bool_to_prop.
  - replace (Z.to_nat (re_len - i)) with (S (Z.to_nat (re_len - (i + 1))))
      by lia.
    cbn [atoms_match].
    pose proof (Hsimple i ltac:(lia)) as Hc.
    unfold is_simple in Hc. bool_to_prop.
    assert (Hq : (i + 1 <? re_len) && is_quantifier pat (re + i + 1) = false).
    { destruct (i + 1 <? re_len) eqn:Hn; [|reflexivity]. bool_to_prop.
      pose proof (Hsimple (i + 1) ltac:(lia)) as Hc'.
      unfold is_simple in Hc'. bool_to_prop.
      unfold is_quantifier. rewrite Z.add_assoc in *.
      repeat match goal with
             | H : Ascii.eqb (char_at pat (re + i + 1)) _ = false |- _ =>
               rewrite H; clear H
             end.
      reflexivity. }
    destruct (j <? s_len) eqn:Hj; bool_to_prop.
    + replace (s + j <? s + s_len) with true
        by (symmetry; apply Z.ltb_lt; lia).
      cbn [andb].
      unfold is_quantifier, get_op_len.
      repeat match goal with
             | H : Ascii.eqb (char_at pat (re + i)) _ = false |- _ =>
               rewrite H
             end.
      cbn [orb Z.leb Z.compare].
      unfold is_quantifier in Hq. rewrite Hq. cbn [andb].
      unfold atom_ok.
      destruct (Ascii.eqb (char_at pat (re + i)) ".") eqn:Hdot; cbn [orb].
      * rewrite IH; try lia.
        -- replace (re + (i + 1)) with (re + i + 1) by lia.
           replace (s + (j + 1)) with (s + j + 1) by lia.
           replace (j + 1 + (re_len - (i + 1))) with (j + (re_len - i))
             by lia.
           reflexivity.
        -- intros k Hk. apply Hsimple. lia.
      * destruct (Ascii.eqb (char_at pat (re + i)) (char_at subj (s + j)));
          cbn [negb andb]; [|reflexivity].
        rewrite IH; try lia.
        -- replace (re + (i + 1)) with (re + i + 1) by lia.
           replace (s + (j + 1)) with (s + j + 1) by lia.
           replace (j + 1 + (re_len - (i + 1))) with (j + (re_len - i))
             by lia.
           reflexivity.
        -- intros k Hk. apply Hsimple. lia.
    + replace (s + j <? s + s_len) with false
        by (symmetry; apply Z.ltb_ge; lia).
      cbn [andb].
      match goal with
      | H : Ascii.eqb (char_at pat (re + i)) "$" = false |- _ => rewrite H
      end.
      reflexivity.
  - replace (re_len - i) with 0 by lia. cbn [andb Z.to_nat atoms_match].
    replace (i <? re_len) with false by (symmetry; apply Z.ltb_ge; lia).
    cbn [andb]. rewrite Z.add_0_r. reflexivity.
Qed.

End SimpleCall.

Lemma atoms_match_cons c rest subj k :
  forall p q limit,
    1 <= p ->
    atoms_match (String c rest) subj k p q limit
    = atoms_match rest subj k (p - 1) q limit.
Proof.
  induction k as [|k IH]; intros p q limit Hp; cbn [atoms_match];
    [reflexivity|].
  rewrite char_at_cons by lia. rewrite IH by lia.
  replace (p + 1 - 1) with (p - 1 + 1) by lia. reflexivity.
Qed.

Section FlatDriver.

Variables (regexp subj : string).
Hypothesis flat_analysis : analyzed regexp = Some (flat_info regexp).

Lemma slre_match_flat s_len caps0 :
  slre_match regexp subj s_len caps0
  = match foo_match regexp subj (budget s_len 0) 0 0 s_len 0 0
                    (mk_mem caps0 (flat_info regexp)) with
    | None => None
    | Some (result, m) => Some (result, caps m, error_msg (info m))
    end.
Proof. apply slre_match_analyzed, flat_analysis. Qed.

(** The call of [doh] at subject offset [i]: [bar] on the whole pattern. *)
Lemma doh_flat_at s_len i m :
  arrays (info m) = arrays (flat_info regexp) ->
  doh regexp subj (Z.to_nat (num_brackets (info m))) (0 + i) (s_len - i) m 0
  = bar_loop regexp subj (doh regexp subj 0)
             (bar regexp subj (doh regexp subj 0)
                  (Z.to_nat (strlen regexp - 0)))
             (budget (strlen regexp) 0) 0 (strlen regexp) i (s_len - i)
             0 0 0 m.
Proof.
  intros A. rewrite (doh_flat regexp subj _ _ m A).
  unfold budget at 1. cbn [bar]. rewrite Z.add_0_l. reflexivity.
Qed.

(** A pattern whose first atom makes [bar] fail with the reason [msg] on
    every non-empty window. *)
Lemma foo_match_first_atom_fails msg s_len :
  char_at regexp 0 <> "^" ->
  (forall i m,
      arrays (info m) = arrays (flat_info regexp) -> 0 <= i < s_len ->
      doh regexp subj (Z.to_nat (num_brackets (info m)))
          (0 + i) (s_len - i) m 0
      = FAIL_mem m msg) ->
  forall fuel i result m,
    arrays (info m) = arrays (flat_info regexp) ->
    0 <= i < s_len -> s_len - i < Z.of_nat fuel ->
    foo_match regexp subj fuel 0 0 s_len i result m
    = Some (0, mk_mem (caps m) (set_error_msg (info m) msg)).
Proof.
  intros Hcaret Hdoh.
  induction fuel as [|fuel IH]; intros i result m A Hi Hf; [lia|].
  cbn [foo_match].
  replace (i <? s_len) with true by (symmetry; apply Z.ltb_lt; lia).
  rewrite Hdoh by assumption. unfold FAIL_mem.
  apply Ascii.eqb_neq in Hcaret. rewrite Z.add_0_l, Hcaret.
  cbn [Z.gtb Z.compare orb].
  destruct (Z_lt_le_dec (i + 1) s_len) as [Hlt|Hge].
  - rewrite IH; [reflexivity| |lia|lia]. exact A.
  - destruct fuel as [|fuel]; [lia|]. cbn [foo_match].
    replace (i + 1 <? s_len) with false by (symmetry; apply Z.ltb_ge; lia).
    reflexivity.
Qed.

End FlatDriver.

(** X1.  For a non-empty pattern of ordinary bytes and ".", the match call
    returns the end of the leftmost occurrence of the pattern in the first
    [s_len] subject bytes, "." standing for any byte, and 0 when there is
    none.  The captures are untouched and the reason is "No match", also
    after a match. *)
Theorem X1_simple_pattern_finds_leftmost_occurrence regexp subj s_len caps0 :
  all_simple regexp = true ->
  regexp <> EmptyString ->
  slre_match regexp subj s_len caps0
  = Some (leftmost_end regexp subj (strlen regexp) s_len (budget s_len 0) 0,
          caps0, static_error_no_match).
Proof.
  intros Hs Hne.
  pose proof (all_simple_is_flat regexp Hs) as Hflat.
  assert (Hn : 1 <= strlen regexp).
  { rewrite (all_simple_strlen regexp Hs).
    destruct regexp; [congruence|]. cbn [String.length]. lia. }
  rewrite (slre_match_flat regexp subj (analyzed_flat regexp Hflat)).
  assert (Hloop : forall fuel i,
             0 <= i -> (1 <= fuel)%nat -> s_len - i < Z.of_nat fuel ->
             foo_match regexp subj fuel 0 0 s_len i 0
                       (mk_mem caps0 (flat_info regexp))
             = Some (leftmost_end regexp subj (strlen regexp) s_len fuel i,
                     mk_mem caps0 (flat_info regexp))).
  { induction fuel as [|fuel IH]; intros i Hi Hf1 Hf; [lia|].
    cbn [foo_match leftmost_end].
    destruct (i <? s_len) eqn:Hlt; [|reflexivity]. bool_to_prop.
    rewrite (doh_flat_at regexp subj s_len i
               (mk_mem caps0 (flat_info regexp)) eq_refl).
    rewrite bar_loop_simple;
      [|lia|unfold budget; lia
       |intros k Hk; rewrite Z.add_0_l; apply all_simple_char_at;
        [exact Hs|lia]].
    rewrite !Z.add_0_l, !Z.add_0_r, Z.sub_0_r.
    replace (i + (s_len - i)) with s_len by lia.
    pose proof (all_simple_char_at regexp Hs 0 ltac:(lia)) as Hc.
    unfold is_simple in Hc. bool_to_prop.
    match goal with
    | H : Ascii.eqb (char_at regexp 0) "^" = false |- _ => rewrite H
    end.
    destruct (atoms_match _ _ _ _ _ _).
    - replace (strlen regexp >? 0) with true
        by (symmetry; rewrite Z.gtb_ltb; apply Z.ltb_lt; lia).
      cbn [orb]. rewrite Z.add_comm. reflexivity.
    - rewrite FAIL_mem_no_match by reflexivity.
      cbn [Z.gtb Z.compare orb]. apply IH; lia. }
  rewrite Hloop by (unfold budget; lia). reflexivity.
Qed.

Lemma X1_witness :
  slre_match "fo." "a foo b" 7 None
  = Some (leftmost_end "fo." "a foo b" (strlen "fo.") 7 (budget 7 0) 0,
          None, static_error_no_match)
  /\ leftmost_end "fo." "a foo b" (strlen "fo.") 7 (budget 7 0) 0 = 5.
Proof.
  split; [|vm_compute; reflexivity].
  apply (X1_simple_pattern_finds_leftmost_occurrence "fo."%string
           "a foo b"%string 7 None).
  - vm_compute. reflexivity.
  - discriminate.
Defined.

(** X2.  For "^" followed by ordinary bytes and ".", the match call returns
    the number of these bytes when they occur at the start of a non-empty
    subject, and 0 otherwise: no other offset is tried. *)
Theorem X2_caret_pattern_matches_at_start_only rest subj s_len caps0 :
  all_simple rest = true ->
  slre_match (String "^" rest) subj s_len caps0
  = Some (if (0 <? s_len)
             && atoms_match rest subj (Z.to_nat (strlen rest)) 0 0 s_len
          then strlen rest else 0,
          caps0, static_error_no_match).
Proof.
  intros Hs.
  set (regexp := String "^" rest).
  assert (Hflat : is_flat regexp = true)
    by (cbn; apply all_simple_is_flat, Hs).
  assert (Hn : strlen regexp = strlen rest + 1).
  { unfold strlen. cbn [regexp strlen_nat Ascii.eqb].
    cbn. lia. }
  pose proof (strlen_nonneg rest) as Hrest.
  rewrite (slre_match_flat regexp subj (analyzed_flat regexp Hflat)).
  unfold budget at 1. cbn [foo_match].
  destruct (0 <? s_len) eqn:Hlt; [|reflexivity]. bool_to_prop.
  rewrite (doh_flat_at regexp subj s_len 0
             (mk_mem caps0 (flat_info regexp)) eq_refl).
  unfold budget. cbn [bar_loop].
  replace (0 <? strlen regexp) with true by (symmetry; apply Z.ltb_lt; lia).
  replace (0 <? s_len - 0) with true by (symmetry; apply Z.ltb_lt; lia).
  cbn [andb].
  assert (Hq : (0 + 1 <? strlen regexp) && is_quantifier regexp (0 + 0 + 1)
               = false).
  { destruct (0 + 1 <? strlen regexp) eqn:Hlt1; [|reflexivity]. bool_to_prop.
    unfold is_quantifier. cbn [Z.add]. unfold regexp.
    rewrite char_at_cons by lia.
    pose proof (all_simple_char_at rest Hs (1 - 1) ltac:(lia)) as Hc.
    unfold is_simple in Hc. bool_to_prop.
    repeat match goal with
           | H : Ascii.eqb (char_at rest (1 - 1)) _ = false |- _ =>
             rewrite H; clear H
           end.
    reflexivity. }
  unfold is_quantifier in *. unfold get_op_len.
  change (char_at regexp (0 + 0)) with "^".
  cbn [Ascii.eqb Bool.eqb orb Z.leb Z.compare].
  rewrite Hq. cbn [andb Z.eqb negb].
  rewrite bar_loop_simple;
    [|lia|lia|].
  - rewrite !Z.add_0_l, !Z.sub_0_r.
    unfold regexp at 1. rewrite atoms_match_cons by lia.
    replace (strlen regexp - 1) with (strlen rest) by lia.
    change (1 - 1) with 0.
    destruct (atoms_match _ _ _ _ _ _).
    + cbn [orb]. rewrite orb_true_r. rewrite Z.add_0_r. reflexivity.
    + rewrite FAIL_mem_no_match by reflexivity.
      rewrite orb_true_r. reflexivity.
  - intros k Hk. rewrite Z.add_0_l. unfold regexp.
    rewrite char_at_cons by lia. apply all_simple_char_at; [exact Hs|lia].
Qed.

Lemma X2_witness :
  slre_match "^ab" "abc" 3 None
  = Some (if (0 <? 3) && atoms_match "ab" "abc" (Z.to_nat (strlen "ab")) 0 0 3
          then strlen "ab" else 0,
          None, static_error_no_match).
Proof.
  apply (X2_caret_pattern_matches_at_start_only "ab"%string "abc"%string 3
           None).
  vm_compute. reflexivity.
Defined.

Lemma strlen_pos buf : char_at buf 0 <> zero -> 1 <= strlen buf.
Proof.
  destruct buf as [|c rest]; cbn; [congruence|].
  intros H. apply Ascii.eqb_neq in H. unfold strlen. cbn [strlen_nat].
  rewrite H. lia.
Qed.

(** X3.  A pattern without "(", ")" and "|" that starts with a quantifier
    is rejected on every non-empty subject: the call returns 0 with the
    reason "Unexpected quantifier" and leaves the captures alone. *)
Theorem X3_leading_quantifier_rejected regexp subj s_len caps0 :
  is_quantifier regexp 0 = true ->
  is_flat regexp = true ->
  0 < s_len ->
  slre_match regexp subj s_len caps0
  = Some (0, caps0, static_error_unexpected_quantifier).
Proof.
  intros Hq Hflat Hs.
  assert (Hn : 1 <= strlen regexp).
  { apply strlen_pos. intros Hz. unfold is_quantifier in Hq.
    rewrite Hz in Hq. discriminate Hq. }
  rewrite (slre_match_flat regexp subj (analyzed_flat regexp Hflat)).
  rewrite (foo_match_first_atom_fails regexp subj
             static_error_unexpected_quantifier s_len);
    [reflexivity| | |reflexivity|lia|unfold budget; lia].
  - intros Hc. unfold is_quantifier in Hq. rewrite Hc in Hq. discriminate Hq.
  - intros i m A Hi. rewrite (doh_flat_at regexp subj s_len i m A).
    unfold budget. cbn [bar_loop].
    replace (0 <? strlen regexp) with true by (symmetry; apply Z.ltb_lt; lia).
    replace (0 <? s_len - i) with true by (symmetry; apply Z.ltb_lt; lia).
    cbn [andb Z.add]. rewrite Hq. reflexivity.
Qed.

Lemma X3_witness :
  slre_match "*a" "aaa" 3 None
  = Some (0, None, static_error_unexpected_quantifier).
Proof.
  apply (X3_leading_quantifier_rejected "*a"%string "aaa"%string 3 None).
  - vm_compute. reflexivity.
  - vm_compute. reflexivity.
  - lia.
Defined.

(** X4.  A pattern without "(", ")" and "|" that starts with a backslash
    and a byte [bar] has no case for, not followed by a quantifier, is
    rejected on every non-empty subject: the call returns 0 with the reason
    "Invalid metacharacter". *)
Theorem X4_leading_invalid_escape_rejected regexp subj s_len caps0 :
  char_at regexp 0 = "\" ->
  invalid_escape (char_at regexp 1) = true ->
  is_quantifier regexp 2 = false ->
  is_flat regexp = true ->
  0 < s_len ->
  slre_match regexp subj s_len caps0
  = Some (0, caps0, static_error_invalid_metacharacter).
Proof.
  intros Hc He Hq Hflat Hs.
  assert (Hn : 1 <= strlen regexp)
    by (apply strlen_pos; rewrite Hc; discriminate).
  rewrite (slre_match_flat regexp subj (analyzed_flat regexp Hflat)).
  rewrite (foo_match_first_atom_fails regexp subj
             static_error_invalid_metacharacter s_len);
    [reflexivity| | |reflexivity|lia|unfold budget; lia].
  - rewrite Hc. discriminate.
  - intros i m A Hi. rewrite (doh_flat_at regexp subj s_len i m A).
    unfold budget. cbn [bar_loop].
    replace (0 <? strlen regexp) with true by (symmetry; apply Z.ltb_lt; lia).
    replace (0 <? s_len - i) with true by (symmetry; apply Z.ltb_lt; lia).
    unfold is_quantifier in *. unfold get_op_len. cbn [andb Z.add].
    rewrite Hc. cbn [Ascii.eqb Bool.eqb orb Z.leb Z.compare].
    rewrite Hq, andb_false_r. cbn [andb].
    unfold invalid_escape in He. bool_to_prop.
    repeat match goal with
           | H : _ = false |- _ => rewrite H; clear H
           end.
    reflexivity.
Qed.

Lemma X4_witness :
  slre_match "\x" "aaa" 3 None
  = Some (0, None, static_error_invalid_metacharacter).
Proof.
  apply (X4_leading_invalid_escape_rejected "\x"%string "aaa"%string 3 None).
  - vm_compute. reflexivity.
  - vm_compute. reflexivity.
  - vm_compute. reflexivity.
  - vm_compute. reflexivity.
  - lia.
Defined.

(** ** The analyzer keeps its record within the arrays and the pattern *)

Lemma array_get_append {A : Type} (d : A) (a : list A) (v : A) k :
  0 <= k <= Z.of_nat (List.length a) ->
  array_get d (a ++ [v]) k
  = if k =? Z.of_nat (List.length a) then v else array_get d a k.
Proof.
  intros Hk. unfold array_get.
  replace (k <? 0) with false by (symmetry; apply Z.ltb_ge; lia).
  destruct (k =? Z.of_nat (List.length a)) eqn:E; bool_to_prop.
  - subst. rewrite Nat2Z.id. apply nth_middle.
  - apply app_nth1. lia.
Qed.

Lemma array_get_In {A : Type} (d : A) (a : list A) k :
  0 <= k < Z.of_nat (List.length a) -> In (array_get d a k) a.
Proof.
  intros Hk. unfold array_get.
  replace (k <? 0) with false by (symmetry; apply Z.ltb_ge; lia).
  apply nth_In. lia.
Qed.

Lemma open_bracket_range regexp inf depth :
  scan_inv regexp inf depth ->
  0 <= open_bracket inf depth < num_brackets inf.
Proof.
  intros (_ & _ & Hnb & _ & Hd & _). unfold open_bracket.
  destruct (_ =? -1); lia.
Qed.

Lemma open_bracket_group regexp inf depth :
  scan_inv regexp inf depth -> 1 <= depth -> 1 <= open_bracket inf depth.
Proof.
  intros (_ & _ & Hnb & _ & Hd & _ & H0 & _) Hdepth. unfold open_bracket.
  destruct (_ =? -1) eqn:E; bool_to_prop; [|lia].
  destruct (Z.eq_dec (num_brackets inf) 1) as [H1|]; [|lia].
  rewrite H1 in E. change (1 - 1) with 0 in E.
  pose proof (strlen_nonneg regexp). lia.
Qed.

Lemma branch_ok_mono regexp nb nb' a :
  nb <= nb' -> Forall (branch_ok regexp nb) a ->
  Forall (branch_ok regexp nb') a.
Proof.
  intros Hle H. eapply Forall_impl; [|exact H].
  intros br (A & B & C). repeat split; auto; lia.
Qed.

Lemma foo_step_inv regexp i inf depth inf' depth' :
  scan_inv regexp inf depth -> scanned i inf -> 0 <= i < strlen regexp ->
  foo_step regexp 0 i inf depth = ScanNext inf' depth' ->
  scan_inv regexp inf' depth'.
Proof.
  intros Hinv Hsc Hi H.
  pose proof (open_bracket_range regexp inf depth Hinv) as Hob.
  pose proof (open_bracket_group regexp inf depth Hinv) as Hog.
  pose proof Hinv as (Lb & Lr & Hnb & Hnr & Hd & P0 & L0 & Hg & Hbr).
  unfold foo_step in H. rewrite !Z.add_0_l in H.
  destruct (Ascii.eqb (char_at regexp i) "|") eqn:Hbar.
  - split_if H; [discriminate|]. bool_to_prop.
    inversion H; subst; clear H.
    unfold scan_inv.
    cbn [brackets num_brackets branches num_branches set_num_branches
         set_branches].
    rewrite (array_set_append _ _ _ Lr), List.length_app.
    cbn [List.length].
    split; [assumption|]. split; [lia|]. split; [assumption|].
    split; [lia|]. split; [assumption|]. split; [exact P0|].
    split; [exact L0|]. split; [exact Hg|].
    apply Forall_app. split; [exact Hbr|].
    constructor; [|constructor].
    apply Ascii.eqb_eq in Hbar. unfold branch_ok. cbn. auto.
  - destruct (Ascii.eqb (char_at regexp i) "(") eqn:Hopen.
    + split_if H; [discriminate|]. bool_to_prop.
      inversion H; subst; clear H.
      assert (Hget : forall k, 0 <= k <= num_brackets inf ->
                bracket_at
                  (set_num_brackets
                     (set_brackets inf
                        (array_set (brackets inf) (num_brackets inf)
                           (bracket_pair.set_len
                              (bracket_pair.set_ptr
                                 (bracket_at inf (num_brackets inf)) (i + 1))
                              (-1))))
                     (num_brackets inf + 1)) k
                = if k =? num_brackets inf
                  then bracket_pair.set_len
                         (bracket_pair.set_ptr
                            (bracket_at inf (num_brackets inf)) (i + 1)) (-1)
                  else bracket_at inf k).
      { intros k Hk. unfold bracket_at at 1.
        cbn [brackets set_num_brackets set_brackets].
        rewrite (array_set_append _ _ _ Lb).
        rewrite array_get_append by lia. rewrite <- Lb. reflexivity. }
      unfold scan_inv.
      rewrite !Hget by lia.
      replace (0 =? num_brackets inf) with false
        by (symmetry; apply Z.eqb_neq; lia).
      cbn [brackets num_brackets branches num_branches set_num_brackets
           set_brackets].
      match goal with
      | |- context [List.length (array_set ?a ?k ?v)] =>
        replace (List.length (array_set a k v))
          with (S (List.length (brackets inf)))
          by (rewrite (array_set_append a k v Lb), List.length_app;
              cbn [List.length]; lia)
      end.
      split; [lia|]. split; [assumption|].
      split; [unfold MAX_BRACKETS in *; lia|].
      split; [assumption|]. split; [lia|]. split; [exact P0|].
      split; [exact L0|]. split.
      * intros k Hk. rewrite Hget by lia.
        destruct (k =? num_brackets inf) eqn:Ek; bool_to_prop;
          [|apply Hg; lia].
        apply Ascii.eqb_eq in Hopen. unfold group_ok. cbn.
        replace (i + 1 - 1) with i by lia. repeat split; auto; lia.
      * eapply branch_ok_mono; [|exact Hbr]. lia.
    + destruct (Ascii.eqb (char_at regexp i) ")") eqn:Hclose.
      * split_if H; [discriminate|]. bool_to_prop.
        split_if H; [discriminate|].
        inversion H; subst; clear H.
        specialize (Hog ltac:(lia)).
        set (ind := open_bracket inf depth) in *.
        assert (Hget : forall k, 0 <= k ->
                  bracket_at
                    (set_brackets inf
                       (array_set (brackets inf) ind
                          (bracket_pair.set_len (bracket_at inf ind)
                             (i - bracket_pair.ptr (bracket_at inf ind))))) k
                  = if k =? ind
                    then bracket_pair.set_len (bracket_at inf ind)
                           (i - bracket_pair.ptr (bracket_at inf ind))
                    else bracket_at inf k).
        { intros k Hk. unfold bracket_at at 1. cbn [brackets set_brackets].
          rewrite array_get_set by lia. reflexivity. }
        unfold scan_inv. rewrite !Hget by lia.
        replace (0 =? ind) with false by (symmetry; apply Z.eqb_neq; lia).
        cbn [brackets num_brackets branches num_branches set_brackets].
        rewrite array_set_length by lia.
        split; [assumption|]. split; [assumption|]. split; [assumption|].
        split; [assumption|]. split; [lia|]. split; [exact P0|].
        split; [exact L0|]. split; [|exact Hbr].
        intros k Hk. rewrite Hget by lia.
        destruct (k =? ind) eqn:Ek; bool_to_prop; [|apply Hg; lia].
        destruct (Hg ind ltac:(lia)) as (Hp & Hc & _).
        destruct (scanned_bracket_at i inf ind ltac:(lia) Hsc) as [Hpi _].
        apply Ascii.eqb_eq in Hclose. unfold group_ok. cbn.
        split; [exact Hp|]. split; [exact Hc|]. right.
        replace (bracket_pair.ptr (bracket_at inf ind)
                 + (i - bracket_pair.ptr (bracket_at inf ind))) with i by lia.
        repeat split; auto; lia.
      * inversion H; subst. exact Hinv.
Qed.

Lemma scan_start_inv regexp : scan_inv regexp (scan_start regexp) 0.
Proof.
  unfold scan_inv, scan_start, foo_init, MAX_BRACKETS, MAX_BRANCHES. cbn.
  repeat split; try lia; try constructor.
Qed.

Lemma scan_start_scanned regexp : scanned 0 (scan_start regexp).
Proof.
  unfold scan_start. apply foo_init_scanned; [reflexivity|].
  pose proof (strlen_nonneg regexp). lia.
Qed.

Lemma scan_after_inv regexp n :
  forall i inf depth i' inf' depth',
    scan_inv regexp inf depth -> scanned i inf -> 0 <= i ->
    scan_after regexp n 0 (strlen regexp) i inf depth
    = Some (i', inf', depth') ->
    scan_inv regexp inf' depth' /\ scanned i' inf'.
Proof.
  induction n as [|n IH]; intros * Hinv Hsc Hi H; cbn [scan_after] in H.
  - inversion H; subst. split; assumption.
  - destruct (i <? strlen regexp) eqn:Hlt; [|discriminate]. bool_to_prop.
    destruct (foo_step regexp 0 i inf depth) as [|inf1 depth1] eqn:E;
      [discriminate|].
    pose proof (get_op_len_cases regexp (0 + i)).
    eapply IH; [| | |exact H].
    + eapply foo_step_inv; eauto.
    + apply (scanned_mono (0 + i + 1)); [lia|].
      eapply foo_step_scanned; [| |exact E]; [lia|].
      rewrite Z.add_0_l. exact Hsc.
    + lia.
Qed.

Lemma foo_scan_inv regexp fuel :
  forall i inf depth inf' depth',
    scan_inv regexp inf depth -> scanned i inf -> 0 <= i ->
    foo_scan regexp fuel 0 (strlen regexp) i inf depth
    = Some (ScanNext inf' depth') ->
    scan_inv regexp inf' depth'.
Proof.
  induction fuel as [|fuel IH]; intros * Hinv Hsc Hi H; [discriminate|].
  cbn [foo_scan] in H.
  destruct (i <? strlen regexp) eqn:Hlt; bool_to_prop.
  - destruct (foo_step regexp 0 i inf depth) as [|inf1 depth1] eqn:E;
      [discriminate|].
    pose proof (get_op_len_cases regexp (0 + i)).
    eapply IH; [| | |exact H].
    + eapply foo_step_inv; eauto.
    + apply (scanned_mono (0 + i + 1)); [lia|].
      eapply foo_step_scanned; [| |exact E]; [lia|].
      rewrite Z.add_0_l. exact Hsc.
    + lia.
  - inversion H; subst. exact Hinv.
Qed.

(** X5.  In every state the scan of the analyzer comes to, the bracket and
    branch counts are the numbers of slots written and within the capacity
    of the arrays, the depth counter indexes a recorded bracket, and so does
    the bracket a ")" or "|" is charged to. *)
Theorem X5_scan_stays_within_arrays regexp i inf depth :
  scan_reaches regexp i inf depth ->
  num_brackets inf = Z.of_nat (List.length (brackets inf))
  /\ num_branches inf = Z.of_nat (List.length (branches inf))
  /\ 1 <= num_brackets inf <= MAX_BRACKETS
  /\ 0 <= num_branches inf <= MAX_BRANCHES
  /\ 0 <= depth < num_brackets inf
  /\ 0 <= open_bracket inf depth < num_brackets inf.
Proof.
  intros [k H].
  destruct (scan_after_inv regexp k 0 (scan_start regexp) 0 i inf depth
              (scan_start_inv regexp) (scan_start_scanned regexp)
              ltac:(lia) H) as [Hinv _].
  pose proof (open_bracket_range regexp inf depth Hinv) as Hob.
  destruct Hinv as (Lb & Lr & Hnb & Hnr & Hd & _).
  split; [exact Lb|]. split; [exact Lr|]. split; [exact Hnb|].
  split; [lia|]. split; [exact Hd|exact Hob].
Qed.

Lemma X5_witness :
  num_brackets info_a_or_b_at_3
  = Z.of_nat (List.length (brackets info_a_or_b_at_3))
  /\ num_branches info_a_or_b_at_3
     = Z.of_nat (List.length (branches info_a_or_b_at_3))
  /\ 1 <= num_brackets info_a_or_b_at_3 <= MAX_BRACKETS
  /\ 0 <= num_branches info_a_or_b_at_3 <= MAX_BRANCHES
  /\ 0 <= 1 < num_brackets info_a_or_b_at_3
  /\ 0 <= open_bracket info_a_or_b_at_3 1 < num_brackets info_a_or_b_at_3.
Proof.
  apply (X5_scan_stays_within_arrays "(a|b)"%string 3 info_a_or_b_at_3 1).
  exists 3%nat. vm_compute. reflexivity.
Defined.

(** X8.  When the scan comes to a "(" with the bracket array full, or to a
    "|" with the branch array full, the match call returns 0 with the
    reason that names the capacity, and leaves the captures alone. *)
Theorem X8_full_arrays_rejected :
  (forall regexp subj s_len caps0 i inf depth,
      scan_reaches regexp i inf depth ->
      i < strlen regexp ->
      char_at regexp i = "(" ->
      MAX_BRACKETS <= num_brackets inf ->
      slre_match regexp subj s_len caps0
      = Some (0, caps0, error_too_many_brackets))
  /\ (forall regexp subj s_len caps0 i inf depth,
         scan_reaches regexp i inf depth ->
         i < strlen regexp ->
         char_at regexp i = "|" ->
         MAX_BRANCHES <= num_branches inf ->
         slre_match regexp subj s_len caps0
         = Some (0, caps0, error_too_many_branches)).
Proof.
  split; intros * Hreach Hi Hc Hfull;
    destruct (scan_reaches_offset _ _ _ _ Hreach) as [Hi0 _];
    pose proof (scan_reaches_scan_of _ _ _ _ Hreach Hi0) as Hscan;
    unfold budget in Hscan; cbn [foo_scan] in Hscan;
    replace (i <? strlen regexp) with true in Hscan
      by (symmetry; apply Z.ltb_lt; lia);
    unfold foo_step in Hscan; rewrite Z.add_0_l, Hc in Hscan;
    cbn [Ascii.eqb Bool.eqb] in Hscan.
  - replace (num_brackets inf >=? MAX_BRACKETS) with true in Hscan
      by (symmetry; rewrite Z.geb_leb; apply Z.leb_le; lia).
    rewrite (slre_match_scan_fail _ _ _ _ _ Hscan). reflexivity.
  - replace (num_branches inf >=? MAX_BRANCHES) with true in Hscan
      by (symmetry; rewrite Z.geb_leb; apply Z.leb_le; lia).
    rewrite (slre_match_scan_fail _ _ _ _ _ Hscan). reflexivity.
Qed.

Lemma X8_witness :
  slre_match (repeat_char "(" 100) "x" 1 None
  = Some (0, None, error_too_many_brackets).
Proof.
  refine (proj1 X8_full_arrays_rejected (repeat_char "(" 100) "x"%string 1
                None 99 _ 99 _ _ _ _).
  - exists 99%nat. vm_compute. reflexivity.
  - vm_compute. reflexivity.
  - vm_compute. reflexivity.
  - vm_compute. discriminate.
Defined.

(** ** The branch resolver keeps the record and gives every bracket its
    branches *)

Lemma swap_branches_Forall (P : branch.t -> Prop) a i j :
  0 <= i < Z.of_nat (List.length a) -> 0 <= j < Z.of_nat (List.length a) ->
  Forall P a -> Forall P (swap_branches a i j).
Proof.
  intros Hi Hj Ha. unfold swap_branches.
  pose proof Ha as Hall. rewrite Forall_forall in Hall.
  apply array_set_Forall; [apply Hall, array_get_In; lia|].
  apply array_set_Forall; [apply Hall, array_get_In; lia|exact Ha].
Qed.

Lemma sort_inner_Forall (P : branch.t -> Prop) k :
  forall i j a,
    0 <= i < j -> j + Z.of_nat k <= Z.of_nat (List.length a) ->
    Forall P a ->
    Forall P (sort_inner k i j a)
    /\ List.length (sort_inner k i j a) = List.length a.
Proof.
  induction k as [|k IH]; intros i j a Hij Hk Ha; cbn [sort_inner];
    [split; [exact Ha|reflexivity]|].
  destruct (_ >? _).
  - destruct (IH i (j + 1) (swap_branches a i j)) as [H1 H2]; try lia.
    + rewrite swap_branches_length; lia.
    + apply swap_branches_Forall; auto; lia.
    + split; [exact H1|]. rewrite H2. apply swap_branches_length; lia.
  - apply IH; auto; lia.
Qed.

Lemma sort_outer_Forall (P : branch.t -> Prop) k :
  forall i a,
    0 <= i -> i + Z.of_nat k <= Z.of_nat (List.length a) ->
    Forall P a ->
    Forall P (sort_outer k (Z.of_nat (List.length a)) i a)
    /\ List.length (sort_outer k (Z.of_nat (List.length a)) i a)
       = List.length a.
Proof.
  induction k as [|k IH]; intros i a Hi Hk Ha; cbn [sort_outer];
    [split; [exact Ha|reflexivity]|].
  destruct (sort_inner_Forall P
              (Z.to_nat (Z.of_nat (List.length a) - (i + 1))) i (i + 1) a)
    as [H1 H2]; auto; try lia.
  rewrite <- H2 at 1 3.
  destruct (IH (i + 1) (sort_inner
                          (Z.to_nat (Z.of_nat (List.length a) - (i + 1)))
                          i (i + 1) a)) as [H3 H4]; auto; try lia.
  split; [exact H3|]. rewrite H4. exact H2.
Qed.

Lemma sort_branches_Forall (P : branch.t -> Prop) a :
  Forall P a ->
  Forall P (sort_branches (Z.of_nat (List.length a)) a)
  /\ List.length (sort_branches (Z.of_nat (List.length a)) a)
     = List.length a.
Proof.
  intros Ha. unfold sort_branches. apply sort_outer_Forall; auto; lia.
Qed.

(** The second loop writes only the [branches] and [num_branches] fields of
    the brackets from [i] on. *)
Lemma assign_branches_fields k :
  forall inf i j,
    0 <= i -> i + Z.of_nat k <= Z.of_nat (List.length (brackets inf)) ->
    let inf' := assign_branches k inf i j in
    List.length (brackets inf') = List.length (brackets inf)
    /\ num_brackets inf' = num_brackets inf
    /\ branches inf' = branches inf
    /\ num_branches inf' = num_branches inf
    /\ (forall q, 0 <= q ->
          bracket_pair.ptr (bracket_at inf' q)
          = bracket_pair.ptr (bracket_at inf q)
          /\ bracket_pair.len (bracket_at inf' q)
             = bracket_pair.len (bracket_at inf q))
    /\ (forall q, 0 <= q < i -> bracket_at inf' q = bracket_at inf q).
Proof.
  induction k as [|k IH]; intros inf i j Hi Hk; cbn [assign_branches];
    cbv zeta.
  - repeat split; reflexivity.
  - destruct (count_branches _ inf i j 0) as [cnt j1].
    match goal with
    | |- context [assign_branches k ?inf1 _ _] =>
      destruct (IH inf1 (i + 1) j1) as (L & N & B & NB & F & Fr);
        [lia
        |cbn [brackets set_brackets]; rewrite array_set_length; lia|]
    end.
    cbn [brackets set_brackets num_brackets branches num_branches] in *.
    rewrite array_set_length in L by lia.
    split; [exact L|]. split; [exact N|]. split; [exact B|].
    split; [exact NB|].
    assert (Hget : forall q, 0 <= q ->
              bracket_at
                (set_brackets inf
                   (array_set (brackets inf) i
                      (bracket_pair.set_branches
                         (bracket_pair.set_num_branches (bracket_at inf i) cnt)
                         j))) q
              = if q =? i
                then bracket_pair.set_branches
                       (bracket_pair.set_num_branches (bracket_at inf i) cnt) j
                else bracket_at inf q).
    { intros q Hq. unfold bracket_at at 1. cbn [brackets set_brackets].
      rewrite array_get_set by lia. reflexivity. }
    split.
    + intros q Hq. destruct (F q Hq) as [Fp Fl]. rewrite Fp, Fl, Hget by lia.
      destruct (q =? i) eqn:E; bool_to_prop; [subst|]; split; reflexivity.
    + intros q Hq. rewrite Fr by lia. rewrite Hget by lia.
      replace (q =? i) with false by (symmetry; apply Z.eqb_neq; lia).
      reflexivity.
Qed.

Lemma count_branches_spec k :
  forall inf i j cnt,
    0 <= j <= num_branches inf -> k = Z.to_nat (num_branches inf - j) ->
    exists j1,
      count_branches k inf i j cnt = (cnt + (j1 - j), j1)
      /\ j <= j1 <= num_branches inf
      /\ (forall q, j <= q < j1 ->
                    branch.bracket_index (branch_at inf q) = i)
      /\ (j1 < num_branches inf ->
          branch.bracket_index (branch_at inf j1) <> i).
Proof.
  induction k as [|k IH]; intros inf i j cnt Hj Hk; cbn [count_branches].
  - exists j. split; [f_equal; lia|]. split; [lia|]. split; intros; lia.
  - destruct (j <? num_branches inf) eqn:Hlt; bool_to_prop; [|lia].
    destruct (branch.bracket_index (branch_at inf j) =? i) eqn:E;
      bool_to_prop; cbn [andb].
    + destruct (IH inf i (j + 1) (cnt + 1)) as (j1 & H1 & H2 & H3 & H4);
        [lia|lia|].
      exists j1. split; [rewrite H1; f_equal; lia|]. split; [lia|].
      split; [|exact H4].
      intros q Hq. destruct (Z.eq_dec q j) as [->|]; [exact E|].
      apply H3. lia.
    + exists j. split; [f_equal; lia|]. split; [lia|].
      split; [intros; lia|]. intros _. exact E.
Qed.

Lemma assign_branches_owns k :
  forall inf i j,
    0 <= i -> i + Z.of_nat k = Z.of_nat (List.length (brackets inf)) ->
    0 <= j <= num_branches inf ->
    (forall p q, 0 <= p < q -> q < num_branches inf ->
       branch.bracket_index (branch_at inf p)
       <= branch.bracket_index (branch_at inf q)) ->
    (forall q, 0 <= q < j -> branch.bracket_index (branch_at inf q) < i) ->
    (forall q, j <= q < num_branches inf ->
       i <= branch.bracket_index (branch_at inf q)) ->
    forall i', i <= i' < i + Z.of_nat k ->
      owns_its_branches (assign_branches k inf i j) i'.
Proof.
  induction k as [|k IH]; intros inf i j Hi Hk Hj Hsorted Hlow Hhigh i' Hi';
    [lia|].
  cbn [assign_branches].
  destruct (count_branches_spec (Z.to_nat (num_branches inf - j)) inf i j 0
              Hj eq_refl) as (j1 & Hc & Hj1 & Heq & Hstop).
  rewrite Hc.
  set (b := bracket_pair.set_branches
              (bracket_pair.set_num_branches (bracket_at inf i) (0 + (j1 - j)))
              j).
  set (inf1 := set_brackets inf (array_set (brackets inf) i b)).
  assert (Hlen1 : List.length (brackets inf1) = List.length (brackets inf))
    by (unfold inf1; cbn [brackets set_brackets];
        rewrite array_set_length; lia).
  assert (Hbr1 : forall q, branch_at inf1 q = branch_at inf q)
    by reflexivity.
  assert (Hnb1 : num_branches inf1 = num_branches inf) by reflexivity.
  destruct (Z.eq_dec i' i) as [->|Hne].
  - destruct (assign_branches_fields k inf1 (i + 1) j1)
      as (_ & _ & B & NB & _ & Fr); [lia|lia|].
    cbv zeta in *.
    unfold owns_its_branches. unfold branch_at. rewrite Fr, B, NB by lia.
    assert (Hb : bracket_at inf1 i = b).
    { unfold bracket_at, inf1. cbn [brackets set_brackets].
      rewrite array_get_set by lia. rewrite Z.eqb_refl. reflexivity. }
    rewrite Hb. unfold b.
    cbn [bracket_pair.branches bracket_pair.num_branches
         bracket_pair.set_branches bracket_pair.set_num_branches].
    rewrite Hnb1.
    split; [lia|]. split; [lia|]. split; [lia|].
    intros q Hq. change (array_get branch.zero (branches inf1) q)
      with (branch_at inf q). split.
    + intros Hr. apply Heq. lia.
    + intros Hkey.
      destruct (Z_lt_le_dec q j) as [Hqj|Hqj];
        [specialize (Hlow q ltac:(lia)); lia|].
      destruct (Z_lt_le_dec q j1) as [Hqj1|Hqj1]; [lia|].
      exfalso. specialize (Hstop ltac:(lia)).
      specialize (Hhigh j1 ltac:(lia)).
      destruct (Z.eq_dec q j1) as [->|]; [contradiction|].
      specialize (Hsorted j1 q ltac:(lia) ltac:(lia)). lia.
  - apply (IH inf1 (i + 1) j1); try lia.
    + intros p q Hp Hq. rewrite !Hbr1. apply Hsorted; [lia|].
      rewrite <- Hnb1. exact Hq.
    + intros q Hq. rewrite Hbr1.
      destruct (Z_lt_le_dec q j) as [Hqj|Hqj];
        [specialize (Hlow q ltac:(lia)); lia|].
      rewrite Heq by lia. lia.
    + intros q Hq. rewrite Hbr1. rewrite Hnb1 in Hq.
      specialize (Hstop ltac:(lia)).
      specialize (Hhigh j1 ltac:(lia)).
      destruct (Z.eq_dec q j1) as [->|]; [lia|].
      specialize (Hsorted j1 q ltac:(lia) ltac:(lia)). lia.
Qed.

(** What a successful analysis leaves in the record. *)
Lemma analyzed_cases regexp inf :
  analyzed regexp = Some inf ->
  exists inf1,
    scan_of regexp = Some (ScanNext inf1 0)
    /\ inf = setup_branch_points inf1
    /\ scan_inv regexp inf1 0.
Proof.
  unfold analyzed. intros H.
  destruct (scan_of regexp) as [[inf1|inf1 depth]|] eqn:E; try discriminate.
  destruct (depth =? 0) eqn:Hd; [|discriminate]. bool_to_prop. subst depth.
  inversion H; subst; clear H.
  exists inf1. split; [reflexivity|]. split; [reflexivity|].
  unfold scan_of in E.
  eapply foo_scan_inv; [| | |exact E].
  - apply scan_start_inv.
  - apply scan_start_scanned.
  - lia.
Qed.

Lemma setup_branch_points_inv regexp inf1 :
  scan_inv regexp inf1 0 -> scan_inv regexp (setup_branch_points inf1) 0.
Proof.
  intros (Lb & Lr & Hnb & Hnr & Hd & P0 & L0 & Hg & Hbr).
  unfold setup_branch_points.
  destruct (sort_branches_Forall (branch_ok regexp (num_brackets inf1))
              (branches inf1) Hbr) as [Hs Hl].
  rewrite <- Lr in Hs, Hl.
  match goal with
  | |- scan_inv _ (assign_branches ?k ?inf2 0 0) 0 =>
    destruct (assign_branches_fields k inf2 0 0)
      as (L & N & B & NB & F & _);
      [lia|cbn [num_brackets brackets set_branches]; lia|]
  end.
  cbv zeta in *.
  cbn [num_brackets brackets branches num_branches set_branches] in *.
  unfold scan_inv. rewrite L, N, B, NB, Hl.
  destruct (F 0 ltac:(lia)) as [F0p F0l]. rewrite F0p, F0l.
  split; [exact Lb|]. split; [exact Lr|]. split; [exact Hnb|].
  split; [exact Hnr|]. split; [exact Hd|]. 
  split; [exact P0|]. split; [exact L0|]. split; [|exact Hs].
  intros q Hq. destruct (F q ltac:(lia)) as [Fp Fl].
  specialize (Hg q Hq). unfold group_ok in *.
  rewrite Fp, Fl. exact Hg.
Qed.

Lemma analyzed_inv regexp inf :
  analyzed regexp = Some inf -> scan_inv regexp inf 0.
Proof.
  intros H. destruct (analyzed_cases regexp inf H) as (inf1 & _ & -> & Hinv).
  apply setup_branch_points_inv, Hinv.
Qed.

Lemma Forall_branch_at (P : branch.t -> Prop) inf k :
  Forall P (branches inf) ->
  0 <= k < Z.of_nat (List.length (branches inf)) ->
  P (branch_at inf k).
Proof.
  intros H Hk. rewrite Forall_forall in H. apply H.
  unfold branch_at. apply array_get_In. exact Hk.
Qed.

(** X6.  After a successful analysis the record describes the pattern:
    bracket 0 spans it; every other bracket starts right after a "(" and,
    unless its length is still the sentinel -1, ends right before a ")";
    every branch names a recorded bracket and the offset of a "|". *)
Theorem X6_analysis_record_points_into_pattern regexp inf :
  analyzed regexp = Some inf ->
  bracket_pair.ptr (bracket_at inf 0) = 0
  /\ bracket_pair.len (bracket_at inf 0) = strlen regexp
  /\ (forall k, 1 <= k < num_brackets inf ->
                group_ok regexp (bracket_at inf k))
  /\ (forall k, 0 <= k < num_branches inf ->
                branch_ok regexp (num_brackets inf) (branch_at inf k)).
Proof.
  intros H.
  destruct (analyzed_inv regexp inf H)
    as (_ & Lr & _ & _ & _ & P0 & L0 & Hg & Hbr).
  split; [exact P0|]. split; [exact L0|]. split; [exact Hg|].
  intros k Hk. apply Forall_branch_at; [exact Hbr|lia].
Qed.

Lemma X6_witness :
  bracket_pair.ptr (bracket_at info_a_or_b 0) = 0
  /\ bracket_pair.len (bracket_at info_a_or_b 0) = strlen "(a|b)"
  /\ (forall k, 1 <= k < num_brackets info_a_or_b ->
                group_ok "(a|b)" (bracket_at info_a_or_b k))
  /\ (forall k, 0 <= k < num_branches info_a_or_b ->
                branch_ok "(a|b)" (num_brackets info_a_or_b)
                          (branch_at info_a_or_b k)).
Proof.
  apply (X6_analysis_record_points_into_pattern "(a|b)"%string info_a_or_b).
  vm_compute. reflexivity.
Defined.

Lemma analyzed_owns regexp inf i :
  analyzed regexp = Some inf ->
  0 <= i < num_brackets inf -> owns_its_branches inf i.
Proof.
  intros H Hi.
  destruct (analyzed_cases regexp inf H) as (inf1 & _ & -> & Hinv).
  pose proof (setup_branch_points_inv regexp inf1 Hinv) as Hinv'.
  destruct Hinv as (Lb & Lr & Hnb & Hnr & Hd & P0 & L0 & Hg & Hbr).
  destruct (sort_branches_Forall (branch_ok regexp (num_brackets inf1))
              (branches inf1) Hbr) as [Hs Hl].
  rewrite <- Lr in Hs, Hl.
  destruct Hinv' as (_ & _ & _ & _ & Hd' & _).
  unfold setup_branch_points in *.
  cbn [num_brackets set_branches] in *.
  apply assign_branches_owns;
    cbn [num_brackets brackets branches num_branches set_branches];
    try lia.
  - intros p q Hp Hq. unfold branch_at.
    cbn [branches set_branches]. rewrite Lr in *.
    apply (sort_branches_sorted (branches inf1)); assumption.
  - intros q Hq.
    assert (Hok : branch_ok regexp (num_brackets inf1)
                    (branch_at
                       (set_branches inf1
                          (sort_branches (num_branches inf1) (branches inf1)))
                       q)).
    { apply Forall_branch_at; cbn [branches set_branches]; [exact Hs|].
      rewrite Hl. lia. }
    destruct Hok as (Hr & _). lia.
  - match goal with
    | H : 0 <= i < num_brackets (assign_branches ?k ?inf2 0 0) |- _ =>
      destruct (assign_branches_fields k inf2 0 0)
        as (_ & N & _);
        [lia|cbn [num_brackets brackets set_branches]; lia|];
        cbv zeta in N; rewrite N in H;
        cbn [num_brackets set_branches] in H
    end.
    lia.
Qed.

(** X7.  After a successful analysis every bracket owns its branches: its
    slice of the branch array lies within the array and holds exactly the
    branches recorded for it, and every branch lies in the slice of the
    bracket it names. *)
Theorem X7_every_bracket_owns_its_branches regexp inf :
  analyzed regexp = Some inf ->
  (forall i, 0 <= i < num_brackets inf -> owns_its_branches inf i)
  /\ (forall k, 0 <= k < num_branches inf ->
        let i := branch.bracket_index (branch_at inf k) in
        let b := bracket_at inf i in
        0 <= i < num_brackets inf
        /\ bracket_pair.branches b <= k
           < bracket_pair.branches b + bracket_pair.num_branches b).
Proof.
  intros H. split.
  - intros i Hi. eapply analyzed_owns; eassumption.
  - intros k Hk. cbv zeta.
    destruct (analyzed_inv regexp inf H)
      as (_ & Lr & _ & _ & _ & _ & _ & _ & Hbr).
    destruct (Forall_branch_at _ inf k Hbr ltac:(lia)) as (Hr & _).
    split; [exact Hr|].
    destruct (analyzed_owns regexp inf _ H Hr) as (_ & _ & _ & Hk').
    apply Hk'; [exact Hk|reflexivity].
Qed.

Lemma X7_witness :
  (forall i, 0 <= i < num_brackets info_a_or_b ->
             owns_its_branches info_a_or_b i)
  /\ (forall k, 0 <= k < num_branches info_a_or_b ->
        let i := branch.bracket_index (branch_at info_a_or_b k) in
        let b := bracket_at info_a_or_b i in
        0 <= i < num_brackets info_a_or_b
        /\ bracket_pair.branches b <= k
           < bracket_pair.branches b + bracket_pair.num_branches b).
Proof.
  apply (X7_every_bracket_owns_its_branches "(a|b)"%string info_a_or_b).
  vm_compute. reflexivity.
Defined.

(** ** What a call depends on *)

Section AgreeCall.

Variables (pat subj subj' : string).
Variable C : option (list slre_cap.t) -> option (list slre_cap.t) -> Prop.
Variable n : Z.
Variables doh doh' : Z -> Z -> mem -> Z -> option (Z * mem).
Variables bar bar' : Z -> Z -> Z -> Z -> mem -> Z -> option (Z * mem).
Hypothesis agree : subjects_agree subj subj' n.
Hypothesis C_store : store_stable C.
Hypothesis doh_ok : doh_in_range doh.
Hypothesis bar_ok : bar_in_range bar.
Hypothesis doh_ag : doh_agree C n doh doh'.
Hypothesis bar_ag : bar_agree C n bar bar'.

Lemma mem_rel_FAIL m m' msg :
  mem_rel C m m' -> same_result C (FAIL_mem m msg) (FAIL_mem m' msg).
Proof.
  intros [Hi Hc]. unfold FAIL_mem, same_result, mem_rel. cbn [info caps].
  rewrite Hi. auto.
Qed.

Lemma mem_rel_Some m m' r :
  mem_rel C m m' -> same_result C (Some (r, m)) (Some (r, m')).
Proof. intros H. cbn. auto. Qed.

Lemma mem_rel_store m m' k p l :
  mem_rel C m m' -> mem_rel C (store_cap m k p l) (store_cap m' k p l).
Proof.
  intros H. split; [|apply C_store, H].
  rewrite !arrays_store_cap. apply H.
Qed.

Lemma quant_loop_agree fuel :
  forall re re_len s s_len i step ni non_greedy bi j2 nj m m',
    0 <= s -> s + s_len <= n -> 0 <= j2 <= s_len -> mem_rel C m m' ->
    same_result C
      (quant_loop bar fuel re re_len s s_len i step ni non_greedy bi j2 nj m)
      (quant_loop bar' fuel re re_len s s_len i step ni non_greedy bi j2 nj
                  m').
Proof.
  induction fuel as [|fuel IH]; intros * Hs Hn Hj Hm; [exact I|].
  cbn [quant_loop].
  pose proof (bar_ag (re + i) step (s + j2) (s_len - j2) m m' bi
                ltac:(lia) ltac:(lia) ltac:(lia) Hm) as H1.
  destruct (bar (re + i) step (s + j2) (s_len - j2) m bi)
    as [[n1 m1]|] eqn:E;
    destruct (bar' (re + i) step (s + j2) (s_len - j2) m' bi)
    as [[n1' m1']|];
    cbn [same_result] in H1; try contradiction; [|exact I].
  destruct H1 as [<- Hm1].
  apply bar_ok in E; [|lia]. destruct E as [R1 _].
  destruct (n1 >? 0) eqn:Hn1; bool_to_prop;
    [|apply mem_rel_Some; assumption].
  destruct (ni >=? re_len).
  - destruct (_ && non_greedy); [apply mem_rel_Some; assumption|].
    apply IH; auto; lia.
  - pose proof (bar_ag (re + ni) (re_len - ni) (s + j2 + n1)
                  (s_len - (j2 + n1)) m1 m1' bi
                  ltac:(lia) ltac:(lia) ltac:(lia) Hm1) as H2.
    destruct (bar (re + ni) (re_len - ni) (s + j2 + n1)
                  (s_len - (j2 + n1)) m1 bi) as [[n2 m2]|];
      destruct (bar' (re + ni) (re_len - ni) (s + j2 + n1)
                     (s_len - (j2 + n1)) m1' bi) as [[n2' m2']|];
      cbn [same_result] in H2; try contradiction; [|exact I].
    destruct H2 as [<- Hm2].
    destruct (_ && non_greedy); [apply mem_rel_Some; assumption|].
    apply IH; auto; lia.
Qed.

Lemma bar_loop_agree fuel :
  forall re re_len s s_len i j bi m m',
    0 <= s -> s + s_len <= n -> 0 <= j <= s_len -> mem_rel C m m' ->
    same_result C
      (bar_loop pat subj doh bar fuel re re_len s s_len i j bi m)
      (bar_loop pat subj' doh' bar' fuel re re_len s s_len i j bi m').
Proof.
  induction fuel as [|fuel IH]; intros * Hs Hn Hj Hm; [exact I|].
  cbn [bar_loop].
  pose proof Hm as [Hinfo _].
  rewrite <- Hinfo.
  destruct ((i <? re_len) && (j <? s_len)) eqn:Hin.
  2:{ match goal with
      | |- context [if ?c then FAIL_mem _ _ else Some _] => destruct c
      end; [apply mem_rel_FAIL|apply mem_rel_Some]; assumption. }
  bool_to_prop.
  rewrite <- (agree (s + j)) by lia.
  repeat first
    [ apply mem_rel_FAIL; assumption
    | apply mem_rel_Some; assumption
    | match goal with
      | |- same_result C (match bar ?a ?b ?c ?d ?e ?f with _ => _ end)
                       (match bar' ?a ?b ?c ?d ?e' ?f with _ => _ end) =>
        let H1 := fresh "H" in
        let E := fresh "E" in
        pose proof (bar_ag a b c d e e' f
                      ltac:(lia) ltac:(lia) ltac:(lia) ltac:(assumption))
          as H1;
        destruct (bar a b c d e f) as [[? ?]|] eqn:E;
        destruct (bar' a b c d e' f) as [[? ?]|];
        cbn [same_result] in H1; try contradiction;
        [destruct H1 as [? ?]; subst;
         apply bar_ok in E; [|lia]; destruct E
        |exact I]
      | |- same_result C (match doh ?a ?b ?c ?d with _ => _ end)
                       (match doh' ?a ?b ?c' ?d with _ => _ end) =>
        let H1 := fresh "H" in
        let E := fresh "E" in
        pose proof (doh_ag a b c c' d
                      ltac:(lia) ltac:(lia) ltac:(lia) ltac:(assumption))
          as H1;
        destruct (doh a b c d) as [[? ?]|] eqn:E;
        destruct (doh' a b c' d) as [[? ?]|];
        cbn [same_result] in H1; try contradiction;
        [destruct H1 as [? ?]; subst;
         apply doh_ok in E; [|lia]; destruct E
        |exact I]
      | |- same_result C
             (match quant_loop bar ?a ?b ?c ?d ?e ?f ?g ?h ?i ?j ?k ?l ?m1
              with _ => _ end)
             (match quant_loop bar' ?a ?b ?c ?d ?e ?f ?g ?h ?i ?j ?k ?l ?m2
              with _ => _ end) =>
        let H1 := fresh "H" in
        pose proof (quant_loop_agree a b c d e f g h i j k l m1 m2
                      ltac:(lia) ltac:(lia) ltac:(lia) ltac:(assumption))
          as H1;
        destruct (quant_loop bar a b c d e f g h i j k l m1) as [[? ?]|];
        destruct (quant_loop bar' a b c d e f g h i j k l m2) as [[? ?]|];
        cbn [same_result] in H1; try contradiction;
        [destruct H1 as [? ?]; subst|exact I]
      | |- same_result C (bar_loop _ _ _ _ _ _ _ _ _ _ _ _ _)
                       (bar_loop _ _ _ _ _ _ _ _ _ _ _ _ _) =>
        rewrite ?arrays_store_cap;
        repeat match goal with
               | H : mem_rel C ?a ?b |- context [info ?b] =>
                 rewrite <- (proj1 H)
               end;
        apply IH; [lia|lia|lia|try apply mem_rel_store; assumption]
      | |- context [if ?c then _ else _] => destruct c eqn:?; bool_to_prop
      end ].
Qed.

End AgreeCall.

Section AgreeLevel.

Variables (pat subj subj' : string).
Variable C : option (list slre_cap.t) -> option (list slre_cap.t) -> Prop.
Variable n : Z.
Variables doh doh' : Z -> Z -> mem -> Z -> option (Z * mem).
Hypothesis agree : subjects_agree subj subj' n.
Hypothesis C_store : store_stable C.
Hypothesis doh_ok : doh_in_range doh.
Hypothesis doh_ag : doh_agree C n doh doh'.

Lemma bar_fuel_agree fuel :
  bar_agree C n (bar pat subj doh fuel) (bar pat subj' doh' fuel).
Proof.
  induction fuel as [|fuel IH]; intros re re_len s s_len m m' bi Hs Hl Hn Hm;
    [exact I|].
  cbn [bar].
  apply (bar_loop_agree pat subj subj' C n doh doh'
           (bar pat subj doh fuel) (bar pat subj' doh' fuel));
    auto; try lia.
  apply bar_fuel_in_range, doh_ok.
Qed.

Lemma doh_loop_agree fuel :
  forall s s_len bi i m m',
    0 <= s -> 0 <= s_len -> s + s_len <= n -> mem_rel C m m' ->
    same_result C (doh_loop pat subj doh fuel s s_len bi i m)
                (doh_loop pat subj' doh' fuel s s_len bi i m').
Proof.
  induction fuel as [|fuel IH]; intros * Hs Hl Hn Hm; [exact I|].
  cbn [doh_loop].
  pose proof Hm as [Hinfo _]. rewrite <- Hinfo.
  match goal with
  | |- same_result C (match bar _ _ _ ?f ?a ?b ?c ?d ?e ?g with _ => _ end) _ =>
    pose proof (bar_fuel_agree f a b c d e m' g Hs Hl Hn Hm) as H1;
    destruct (bar pat subj doh f a b c d e g) as [[r1 m1]|];
    destruct (bar pat subj' doh' f a b c d m' g) as [[r1' m1']|];
    cbn [same_result] in H1; try contradiction; [|exact I]
  end.
  destruct H1 as [<- Hm1].
  destruct (_ <? _); [apply IH; assumption|].
  cbn. auto.
Qed.

End AgreeLevel.

Section AgreeAll.

Variables (pat subj subj' : string).
Variable C : option (list slre_cap.t) -> option (list slre_cap.t) -> Prop.
Variable n : Z.
Hypothesis agree : subjects_agree subj subj' n.
Hypothesis C_store : store_stable C.

Lemma doh_fuel_agree fuel :
  doh_agree C n (doh pat subj fuel) (doh pat subj' fuel).
Proof.
  induction fuel as [|fuel IH]; intros s s_len m m' bi Hs Hl Hn Hm;
    [exact I|].
  cbn [doh]. rewrite <- (proj1 Hm).
  apply (doh_loop_agree pat subj subj' C n); auto.
  apply doh_fuel_in_range.
Qed.

Lemma foo_match_agree fuel :
  forall re i result m m',
    0 <= i -> mem_rel C m m' ->
    same_result C (foo_match pat subj fuel re 0 n i result m)
                (foo_match pat subj' fuel re 0 n i result m').
Proof.
  induction fuel as [|fuel IH]; intros * Hi Hm; [exact I|].
  cbn [foo_match].
  destruct (i <? n) eqn:Hlt; bool_to_prop; [|cbn; auto].
  rewrite <- (proj1 Hm).
  pose proof (doh_fuel_agree (Z.to_nat (num_brackets (info m)))
                (0 + i) (n - i) m m' 0
                ltac:(lia) ltac:(lia) ltac:(lia) Hm) as H1.
  destruct (doh pat subj _ (0 + i) (n - i) m 0) as [[r1 m1]|];
    destruct (doh pat subj' _ (0 + i) (n - i) m' 0) as [[r1' m1']|];
    cbn [same_result] in H1; try contradiction; [|exact I].
  destruct H1 as [<- Hm1].
  destruct (_ || _); [cbn; auto|].
  apply IH; [lia|assumption].
Qed.

End AgreeAll.

Lemma slre_match_agree (C : option (list slre_cap.t)
                            -> option (list slre_cap.t) -> Prop)
      regexp subj subj' s_len caps0 caps0' :
  store_stable C -> C caps0 caps0' ->
  subjects_agree subj subj' s_len ->
  match slre_match regexp subj s_len caps0,
        slre_match regexp subj' s_len caps0' with
  | Some (r, c, msg), Some (r', c', msg') => r = r' /\ C c c' /\ msg = msg'
  | None, None => True
  | _, _ => False
  end.
Proof.
  intros HC Hc Hag.
  destruct (analyzed regexp) as [inf|] eqn:Ha.
  - rewrite !(slre_match_analyzed regexp _ s_len _ inf Ha).
    pose proof (foo_match_agree regexp subj subj' C s_len Hag HC
                  (budget s_len 0) 0 0 0 (mk_mem caps0 inf)
                  (mk_mem caps0' inf) ltac:(lia)
                  (conj eq_refl Hc)) as H.
    destruct (foo_match regexp subj _ 0 0 s_len 0 0 (mk_mem caps0 inf))
      as [[r m]|];
      destruct (foo_match regexp subj' _ 0 0 s_len 0 0 (mk_mem caps0' inf))
      as [[r' m']|];
      cbn [same_result] in H; try contradiction; [|exact I].
    destruct H as [<- [Hi Hcc]]. rewrite Hi. auto.
  - unfold analyzed in Ha.
    destruct (scan_of regexp) as [[inf1|inf1 depth]|] eqn:E.
    + rewrite !(slre_match_scan_fail regexp _ s_len _ inf1 E). auto.
    + destruct (depth =? 0) eqn:Hd; [discriminate|]. bool_to_prop.
      rewrite !(slre_match_scan_unbalanced regexp _ s_len _ inf1 depth E Hd).
      auto.
    + exfalso. unfold scan_of in E.
      eapply foo_scan_total; [..|exact E]; unfold budget; lia.
Qed.

Lemma store_stable_eq : store_stable eq.
Proof.
  intros m m' k p n [Hi Hc]. destruct m, m'. cbn in *. subst.
  reflexivity.
Qed.

Lemma store_stable_any : store_stable (fun _ _ => True).
Proof. intros m m' k p n _. exact I. Qed.

(** X9.  A call reads the subject only below [s_len]: on two subject
    buffers that agree on their first [s_len] bytes it returns the same
    value, captures and reason.  The subject needs no terminator. *)
Theorem X9_subject_read_below_s_len regexp subj subj' s_len caps0 :
  subjects_agree subj subj' s_len ->
  slre_match regexp subj s_len caps0 = slre_match regexp subj' s_len caps0.
Proof.
  intros Hag.
  pose proof (slre_match_agree eq regexp subj subj' s_len caps0 caps0
                store_stable_eq eq_refl Hag) as H.
  destruct (slre_match regexp subj s_len caps0) as [[[r c] msg]|];
    destruct (slre_match regexp subj' s_len caps0) as [[[r' c'] msg']|];
    try contradiction; [|reflexivity].
  destruct H as (-> & -> & ->). reflexivity.
Qed.

Lemma X9_witness :
  slre_match "b+" "abcXYZ" 3 None = slre_match "b+" "abc" 3 None.
Proof.
  apply (X9_subject_read_below_s_len "b+"%string "abcXYZ"%string
           "abc"%string 3 None).
  intros k Hk.
  assert (Hc : k = 0 \/ k = 1 \/ k = 2) by lia.
  destruct Hc as [->|[->| ->]]; reflexivity.
Defined.

(** X10.  The capture array is written, never read: the returned value and
    the reason of a call do not depend on the array passed, nor on whether
    one is passed at all. *)
Theorem X10_result_independent_of_captures
        regexp subj s_len caps0 caps0' r c msg :
  slre_match regexp subj s_len caps0 = Some (r, c, msg) ->
  exists c', slre_match regexp subj s_len caps0' = Some (r, c', msg).
Proof.
  intros H0.
  pose proof (slre_match_agree (fun _ _ => True) regexp subj subj s_len
                caps0 caps0' store_stable_any I
                (fun k _ => eq_refl)) as H.
  rewrite H0 in H.
  destruct (slre_match regexp subj s_len caps0') as [[[r' c'] msg']|];
    [|contradiction].
  destruct H as (-> & _ & ->). exists c'. reflexivity.
Qed.

Lemma X10_witness :
  exists c',
    slre_match "(a)b" "ab" 2 (Some [slre_cap.mk 0 0])
    = Some (2, c', static_error_no_match).
Proof.
  apply (X10_result_independent_of_captures "(a)b"%string "ab"%string 2
           None (Some [slre_cap.mk 0 0]) 2 None static_error_no_match).
  vm_compute. reflexivity.
Defined.

(** ** What a call writes to the capture array *)

Section KeepCall.

Variables (pat subj : string).
Variable Q : option (list slre_cap.t) -> Prop.
Variables nb n : Z.
Variable doh : Z -> Z -> mem -> Z -> option (Z * mem).
Variable bar : Z -> Z -> Z -> Z -> mem -> Z -> option (Z * mem).
Hypothesis Q_store : kept_by_stores Q nb n.
Hypothesis doh_ok : doh_in_range doh.
Hypothesis bar_ok : bar_in_range bar.
Hypothesis doh_q : doh_keeps Q nb n doh.
Hypothesis bar_q : bar_keeps Q nb n bar.

Lemma quant_loop_keeps fuel :
  forall re re_len s s_len i step ni non_greedy bi j2 nj m r m',
    0 <= s -> s + s_len <= n -> 0 <= j2 <= s_len -> 0 <= bi ->
    num_brackets (info m) = nb -> Q (caps m) ->
    quant_loop bar fuel re re_len s s_len i step ni non_greedy bi j2 nj m
    = Some (r, m') ->
    Q (caps m').
Proof.
  induction fuel as [|fuel IH]; intros * Hs Hn Hj Hbi Hnb Hq H;
    [discriminate|].
  cbn [quant_loop] in H.
  destruct (bar (re + i) step (s + j2) (s_len - j2) m bi)
    as [[n1 m1]|] eqn:E1; [|discriminate].
  pose proof (bar_q (re + i) step (s + j2) (s_len - j2) m bi n1 m1
                ltac:(lia) ltac:(lia) ltac:(lia) Hbi Hnb Hq E1) as Hq1.
  apply bar_ok in E1; [|lia]. destruct E1 as [R1 A1].
  assert (Hnb1 : num_brackets (info m1) = nb)
    by (rewrite (arrays_num_brackets _ _ A1); exact Hnb).
  split_if H; bool_to_prop; [|fail_inv; assumption].
  split_if H.
  - split_if H; [fail_inv; assumption|].
    eapply IH; [| | | | | |exact H]; auto; lia.
  - destruct (bar (re + ni) (re_len - ni) (s + j2 + n1) (s_len - (j2 + n1))
                  m1 bi) as [[n2 m2]|] eqn:E2; [|discriminate].
    pose proof (bar_q (re + ni) (re_len - ni) (s + j2 + n1)
                  (s_len - (j2 + n1)) m1 bi n2 m2
                  ltac:(lia) ltac:(lia) ltac:(lia) Hbi Hnb1 Hq1 E2) as Hq2.
    apply bar_ok in E2; [|lia]. destruct E2 as [R2 A2].
    assert (Hnb2 : num_brackets (info m2) = nb)
      by (rewrite (arrays_num_brackets _ _ A2); exact Hnb1).
    split_if H; [fail_inv; assumption|].
    eapply IH; [| | | | | |exact H]; auto; lia.
Qed.

Lemma bar_loop_keeps fuel :
  forall re re_len s s_len i j bi m r m',
    0 <= s -> s + s_len <= n -> 0 <= j <= s_len -> 0 <= bi ->
    num_brackets (info m) = nb -> Q (caps m) ->
    bar_loop pat subj doh bar fuel re re_len s s_len i j bi m = Some (r, m') ->
    Q (caps m').
Proof.
  induction fuel as [|fuel IH]; intros * Hs Hn Hj Hbi Hnb Hq H;
    [discriminate|].
  cbn [bar_loop] in H.
  repeat first
    [ fail_inv; cbn [caps]; assumption
    | match type of H with
      | context [match bar ?a ?b ?c ?d ?e ?f with _ => _ end] =>
        let E := fresh "E" in
        let A := fresh "A" in
        destruct (bar a b c d e f) as [[? ?]|] eqn:E; [|discriminate];
        pose proof (bar_q a b c d e f _ _ ltac:(lia) ltac:(lia) ltac:(lia)
                      ltac:(lia) ltac:(congruence) ltac:(assumption) E);
        apply bar_ok in E; [|lia]; destruct E as [? A];
        pose proof (arrays_num_brackets _ _ A)
      | context [match doh ?a ?b ?c ?d with _ => _ end] =>
        let E := fresh "E" in
        let A := fresh "A" in
        destruct (doh a b c d) as [[? ?]|] eqn:E; [|discriminate];
        pose proof (doh_q a b c d _ _ ltac:(lia) ltac:(lia) ltac:(lia)
                      ltac:(lia) ltac:(congruence) ltac:(assumption) E);
        apply doh_ok in E; [|lia]; destruct E as [? A];
        pose proof (arrays_num_brackets _ _ A)
      | context [match quant_loop ?a ?b ?c ?d ?e ?f ?g ?h ?i ?j ?k ?l ?m ?n0
                 with _ => _ end] =>
        let E := fresh "E" in
        let A := fresh "A" in
        destruct (quant_loop a b c d e f g h i j k l m n0) as [[? ?]|] eqn:E;
        [|discriminate];
        pose proof (quant_loop_keeps b c d e f g h i j k l m n0 _ _
                      ltac:(lia) ltac:(lia) ltac:(lia) ltac:(lia)
                      ltac:(congruence) ltac:(assumption) E);
        apply (quant_loop_in_range bar bar_ok) in E; [|lia|lia];
        destruct E as [? A];
        pose proof (arrays_num_brackets _ _ A)
      end
    | split_if H; bool_to_prop
    | eapply IH; [| | | | | |exact H];
      [lia|lia|lia|lia
      |try rewrite arrays_store_cap; congruence
      |first [assumption|apply Q_store; [assumption|lia|lia|lia|lia]]] ].
Qed.

End KeepCall.

Section KeepLevel.

Variables (pat subj : string).
Variable Q : option (list slre_cap.t) -> Prop.
Variables nb n : Z.
Variable doh : Z -> Z -> mem -> Z -> option (Z * mem).
Hypothesis Q_store : kept_by_stores Q nb n.
Hypothesis doh_ok : doh_in_range doh.
Hypothesis doh_q : doh_keeps Q nb n doh.

Lemma bar_fuel_keeps fuel : bar_keeps Q nb n (bar pat subj doh fuel).
Proof.
  induction fuel as [|fuel IH];
    intros re re_len s s_len m bi r m' Hs Hl Hn Hbi Hnb Hq H; [discriminate|].
  cbn [bar] in H.
  eapply (bar_loop_keeps pat subj Q nb n doh (bar pat subj doh fuel));
    [..|exact H]; auto; try lia.
  apply bar_fuel_in_range, doh_ok.
Qed.

Lemma doh_loop_keeps fuel :
  forall s s_len bi i m r m',
    0 <= s -> 0 <= s_len -> s + s_len <= n -> 0 <= bi ->
    num_brackets (info m) = nb -> Q (caps m) ->
    doh_loop pat subj doh fuel s s_len bi i m = Some (r, m') ->
    Q (caps m').
Proof.
  induction fuel as [|fuel IH]; intros * Hs Hl Hn Hbi Hnb Hq H;
    [discriminate|].
  cbn [doh_loop] in H.
  match type of H with
  | context [match bar ?a ?b ?c ?d ?e ?f ?g ?h ?i ?j with _ => _ end] =>
    destruct (bar a b c d e f g h i j) as [[r1 m1]|] eqn:E; [|discriminate]
  end.
  pose proof (bar_fuel_keeps _ _ _ _ _ _ _ _ _ Hs Hl Hn Hbi Hnb Hq E) as Hq1.
  apply bar_fuel_in_range in E; [|exact doh_ok|assumption].
  destruct E as [R1 A1].
  split_if H; [|fail_inv; assumption].
  eapply IH; [..|exact H]; auto.
  rewrite (arrays_num_brackets _ _ A1). exact Hnb.
Qed.

End KeepLevel.

Lemma doh_fuel_keeps pat subj Q nb n fuel :
  kept_by_stores Q nb n -> doh_keeps Q nb n (doh pat subj fuel).
Proof.
  intros HQ.
  induction fuel as [|fuel IH];
    intros s s_len m bi r m' Hs Hl Hn Hbi Hnb Hq H; [discriminate|].
  cbn [doh] in H.
  eapply (doh_loop_keeps pat subj Q nb n (doh pat subj fuel));
    [..|exact H]; auto.
  apply doh_fuel_in_range.
Qed.

Lemma foo_match_keeps pat subj Q n fuel :
  forall re i result m r m',
    kept_by_stores Q (num_brackets (info m)) n ->
    0 <= i -> Q (caps m) ->
    foo_match pat subj fuel re 0 n i result m = Some (r, m') ->
    Q (caps m').
Proof.
  induction fuel as [|fuel IH]; intros * HQ Hi Hq H; [discriminate|].
  cbn [foo_match] in H.
  destruct (i <? n) eqn:Hlt; bool_to_prop; [|fail_inv; assumption].
  destruct (doh _ _ _ _ _ _ _) as [[r1 m1]|] eqn:E; [|discriminate].
  pose proof (doh_fuel_keeps pat subj Q (num_brackets (info m)) n
                (Z.to_nat (num_brackets (info m))) HQ (0 + i) (n - i) m 0
                r1 m1
                ltac:(lia) ltac:(lia) ltac:(lia) ltac:(lia) eq_refl Hq E)
    as Hq1.
  apply doh_fuel_in_range in E; [|lia]. destruct E as [R1 A1].
  split_if H; [fail_inv; assumption|].
  eapply IH; [| | |exact H]; auto; [|lia].
  rewrite (arrays_num_brackets _ _ A1). exact HQ.
Qed.

Lemma Forall2_list_set {A B : Type} (R : A -> B -> Prop) (v : B) :
  (forall x, R x v) ->
  forall a0 a k,
    Forall2 R a0 a -> (k < List.length a)%nat ->
    Forall2 R a0 (list_set a k v).
Proof.
  intros Hv a0 a k H. revert k.
  induction H as [|x y a0 a Hxy H IH]; intros k Hk;
    cbn [List.length] in Hk; [lia|].
  destruct k as [|k]; cbn [list_set].
  - constructor; [apply Hv|exact H].
  - constructor; [exact Hxy|]. apply IH. lia.
Qed.

Lemma Forall2_refl_or {A : Type} (P : A -> Prop) (a : list A) :
  Forall2 (fun c0 c1 => c1 = c0 \/ P c1) a a.
Proof. induction a; constructor; auto. Qed.

Lemma written_from_kept n nb a0 :
  nb - 1 <= Z.of_nat (List.length a0) ->
  kept_by_stores (written_from n a0) nb n.
Proof.
  intros Hcap m k p l Hq Hk Hp Hl Hn.
  unfold store_cap, written_from in *.
  destruct (caps m) as [a|]; [|contradiction]. cbn [caps].
  pose proof (Forall2_length Hq) as Hlen.
  unfold array_set.
  replace (k <? 0) with false by (symmetry; apply Z.ltb_ge; lia).
  apply Forall2_list_set; [|exact Hq|lia].
  intros x. right. unfold is_slice. cbn. lia.
Qed.

(** X11.  With room for one capture per group, a call keeps the capture
    array at its length and leaves each slot as it was or holding a
    non-empty slice of the first [s_len] subject bytes. *)
Theorem X11_captures_are_subject_slices regexp subj s_len inf a0 r c msg :
  analyzed regexp = Some inf ->
  num_brackets inf - 1 <= Z.of_nat (List.length a0) ->
  slre_match regexp subj s_len (Some a0) = Some (r, c, msg) ->
  written_from s_len a0 c.
Proof.
  intros Ha Hcap H.
  rewrite (slre_match_analyzed regexp subj s_len _ inf Ha) in H.
  destruct (foo_match _ _ _ _ _ _ _ _ _) as [[r1 m1]|] eqn:E;
    [|discriminate].
  inversion H; subst; clear H.
  eapply (foo_match_keeps regexp subj (written_from s_len a0));
    [| | |exact E].
  - cbn [info]. apply written_from_kept. exact Hcap.
  - lia.
  - cbn. apply Forall2_refl_or.
Qed.

Lemma X11_witness :
  written_from 2 [slre_cap.mk 7 7] (Some [slre_cap.mk 1 1]).
Proof.
  apply (X11_captures_are_subject_slices "(a|b)"%string "xb"%string 2
           info_a_or_b [slre_cap.mk 7 7] 2 (Some [slre_cap.mk 1 1])
           static_error_no_match).
  - vm_compute. reflexivity.
  - vm_compute. discriminate.
  - vm_compute. reflexivity.
Defined.

(** X12.  Without a capture array the call writes no capture: it returns,
    and the array is still absent. *)
Theorem X12_null_captures_stay_null regexp subj s_len :
  exists r msg, slre_match regexp subj s_len None = Some (r, None, msg).
Proof.
  destruct (slre_match_total_in_range regexp subj s_len None)
    as (r & c & msg & H & _).
  exists r, msg. rewrite H. do 2 f_equal. f_equal.
  destruct (analyzed regexp) as [inf|] eqn:Ha.
  - rewrite (slre_match_analyzed regexp subj s_len _ inf Ha) in H.
    destruct (foo_match _ _ _ _ _ _ _ _ _) as [[r1 m1]|] eqn:E;
      [|discriminate].
    inversion H; subst; clear H.
    eapply (foo_match_keeps regexp subj (fun c => c = None));
      [| | |exact E]; [|lia|reflexivity].
    intros m k p l Hq _ _ _ _. unfold store_cap. rewrite Hq. exact Hq.
  - destruct (slre_match_not_analyzed regexp subj s_len None Ha)
      as [msg' H']. congruence.
Qed.

(** ** The empty subject *)

Lemma foo_step_error_msg pat re i inf depth inf' depth' :
  foo_step pat re i inf depth = ScanNext inf' depth' ->
  error_msg inf' = error_msg inf.
Proof.
  intros H. unfold foo_step in H.
  repeat (split_if H; try discriminate); inversion H; subst; reflexivity.
Qed.

Lemma foo_scan_error_msg pat fuel :
  forall re re_len i inf depth inf' depth',
    foo_scan pat fuel re re_len i inf depth = Some (ScanNext inf' depth') ->
    error_msg inf' = error_msg inf.
Proof.
  induction fuel as [|fuel IH]; intros * H; [discriminate|].
  cbn [foo_scan] in H.
  destruct (i <? re_len).
  - destruct (foo_step pat re i inf depth) as [|inf1 depth1] eqn:E;
      [discriminate|].
    apply foo_step_error_msg in E. apply IH in H. congruence.
  - inversion H; subst. reflexivity.
Qed.

Lemma assign_branches_error_msg k :
  forall inf i j, error_msg (assign_branches k inf i j) = error_msg inf.
Proof.
  induction k as [|k IH]; intros inf i j; cbn [assign_branches];
    [reflexivity|].
  destruct (count_branches _ inf i j 0) as [cnt j1].
  rewrite IH. reflexivity.
Qed.

Lemma analyzed_error_msg regexp inf :
  analyzed regexp = Some inf -> error_msg inf = static_error_no_match.
Proof.
  unfold analyzed. intros H.
  destruct (scan_of regexp) as [[inf1|inf1 depth]|] eqn:E; try discriminate.
  destruct (depth =? 0); [|discriminate].
  inversion H; subst; clear H.
  unfold scan_of in E. apply foo_scan_error_msg in E.
  unfold setup_branch_points. rewrite assign_branches_error_msg.
  exact E.
Qed.

(** X13.  A pattern that passes the analysis never matches a subject of
    length 0 or less, not even a pattern of optional atoms: the call returns
    0 with the reason "No match" and leaves the captures alone. *)
Theorem X13_empty_subject_never_matches regexp subj s_len caps0 inf :
  analyzed regexp = Some inf ->
  s_len <= 0 ->
  slre_match regexp subj s_len caps0
  = Some (0, caps0, static_error_no_match).
Proof.
  intros Ha Hs.
  rewrite (slre_match_analyzed regexp subj s_len caps0 inf Ha).
  unfold budget. cbn [foo_match].
  replace (0 <? s_len) with false by (symmetry; apply Z.ltb_ge; lia).
  cbn [caps info]. rewrite (analyzed_error_msg regexp inf Ha). reflexivity.
Qed.

Lemma X13_witness :
  slre_match "a?" "" 0 None = Some (0, None, static_error_no_match).
Proof.
  apply (X13_empty_subject_never_matches "a?"%string ""%string 0 None
           (flat_info "a?")).
  - vm_compute. reflexivity.
  - lia.
Defined.

(** ** Patterns of single-byte atoms *)

Lemma atom_valid_cases pat p :
  atom_valid pat p = true ->
  is_quantifier pat p = false
  /\ char_at pat p <> "(" /\ char_at pat p <> ")" /\ char_at pat p <> "|"
  /\ char_at pat p <> "^" /\ char_at pat p <> "$".
Proof.
  unfold atom_valid, is_quantifier.
  destruct (Ascii.eqb (char_at pat p) "\") eqn:E.
  - apply Ascii.eqb_eq in E. rewrite E. intros _.
    repeat split; discriminate.
  - unfold is_simple. intros H. bool_to_prop.
    split.
    + repeat match goal with
             | H : Ascii.eqb _ ?x = false |- context [Ascii.eqb _ ?x] =>
               rewrite H
             end.
      reflexivity.
    + repeat match goal with
             | H : Ascii.eqb _ _ = false |- _ => apply Ascii.eqb_neq in H
             end.
      repeat split; assumption.
Qed.

Section AtomsCall.

Variables (pat subj : string).
Variable doh : Z -> Z -> mem -> Z -> option (Z * mem).
Variable bar : Z -> Z -> Z -> Z -> mem -> Z -> option (Z * mem).

Lemma bar_loop_atoms fuel :
  forall re re_len s s_len i j bi m,
    0 <= i -> (1 <= fuel)%nat -> re_len - i < Z.of_nat fuel ->
    atoms_valid pat fuel (re + i) (re + re_len) = true ->
    bar_loop pat subj doh bar fuel re re_len s s_len i j bi m
    = match atoms_end pat subj fuel (re + i) (re + re_len) (s + j)
                      (s + s_len) with
      | Some q => Some (q - s, m)
      | None => FAIL_mem m static_error_no_match
      end.
Proof.
  induction fuel as [|fuel IH]; intros * Hi Hf1 Hf Hv; [lia|].
  cbn [bar_loop atoms_end]. cbn [atoms_valid] in Hv.
  destruct (i <? re_len) eqn:Hlt; bool_to_prop.
  - replace (re + i <? re + re_len) with true in *
      by (symmetry; apply Z.ltb_lt; lia).
    bool_to_prop.
    destruct (atom_valid_cases pat (re + i) ltac:(assumption))
      as (Hq & Ho & Hc & Hb & Hcar & Hdol).
    apply Ascii.eqb_neq in Ho, Hc, Hb, Hcar, Hdol.
    assert (Hstep : 1 <= get_op_len pat (re + i))
      by (destruct (get_op_len_cases pat (re + i)); lia).
    assert (Hlook : (i + get_op_len pat (re + i) <? re_len)
                    && is_quantifier pat (re + i + get_op_len pat (re + i))
                    = false).
    { destruct (i + get_op_len pat (re + i) <? re_len) eqn:Hn;
        [|reflexivity]. bool_to_prop. cbn [andb].
      destruct fuel as [|fuel']; [lia|].
      match goal with
      | H : atoms_valid _ _ _ _ = true |- _ => cbn [atoms_valid] in H;
          replace (re + i + get_op_len pat (re + i) <? re + re_len)
            with true in H by (symmetry; apply Z.ltb_lt; lia);
          apply andb_true_iff in H; destruct H as [H _];
          apply atom_valid_cases in H; destruct H as [H _]; exact H
      end. }
    destruct (j <? s_len) eqn:Hj; bool_to_prop.
    + replace (s + j <? s + s_len) with true
        by (symmetry; apply Z.ltb_lt; lia).
      cbn [andb]. rewrite Hq.
      replace (get_op_len pat (re + i) <=? 0) with false
        by (symmetry; apply Z.leb_gt; lia).
      rewrite Hlook. cbn [andb].
      assert (Hnext :
                bar_loop pat subj doh bar fuel re re_len s s_len
                         (i + get_op_len pat (re + i)) (j + 1) bi m
                = match atoms_end pat subj fuel
                                  (re + i + get_op_len pat (re + i))
                                  (re + re_len) (s + j + 1) (s + s_len) with
                  | Some q => Some (q - s, m)
                  | None => FAIL_mem m static_error_no_match
                  end).
      { rewrite IH; try lia.
        - rewrite !Z.add_assoc. reflexivity.
        - rewrite Z.add_assoc. assumption. }
      unfold atom_accepts.
      match goal with
      | H : atom_valid pat (re + i) = true |- _ =>
        unfold atom_valid in H; cbv zeta in H
      end.
      destruct (Ascii.eqb (char_at pat (re + i)) "\") eqn:Hesc.
      * unfold invalid_escape in *. bool_to_prop.
        destruct (Ascii.eqb (char_at pat (re + i + 1)) "S");
          [destruct (isspace _); cbn [negb]; [reflexivity|exact Hnext]|].
        destruct (Ascii.eqb (char_at pat (re + i + 1)) "s");
          [destruct (isspace _); cbn [negb]; [exact Hnext|reflexivity]|].
        destruct (Ascii.eqb (char_at pat (re + i + 1)) "d");
          [destruct (isdigit _); cbn [negb]; [exact Hnext|reflexivity]|].
        match goal with
        | H : _ || _ = true |- _ => cbn [orb] in H; rewrite H
        end.
        destruct (Ascii.eqb (char_at pat (re + i + 1)) (char_at subj (s + j)));
          cbn [negb]; [exact Hnext|reflexivity].
      * rewrite Ho, Hcar, Hb, Hdol. unfold atom_ok.
        destruct (Ascii.eqb (char_at pat (re + i)) "."); cbn [orb];
          [exact Hnext|].
        destruct (Ascii.eqb (char_at pat (re + i)) (char_at subj (s + j)));
          cbn [negb]; [exact Hnext|reflexivity].
    + replace (s + j <? s + s_len) with false
        by (symmetry; apply Z.ltb_ge; lia).
      cbn [andb]. rewrite Hdol. reflexivity.
  - replace (re + i <? re + re_len) with false
      by (symmetry; apply Z.ltb_ge; lia).
    cbn [andb]. do 3 f_equal. lia.
Qed.

End AtomsCall.

Lemma atoms_end_advances pat subj k :
  forall p e q limit r,
    p < e -> atoms_end pat subj k p e q limit = Some r -> q < r.
Proof.
  assert (Hge : forall k p e q limit r,
             atoms_end pat subj k p e q limit = Some r -> q <= r).
  { clear k. induction k as [|k IH]; intros * H; [discriminate|].
    cbn [atoms_end] in H.
    destruct (p <? e); [|inversion H; lia].
    destruct (_ && _); [|discriminate]. apply IH in H. lia. }
  destruct k as [|k]; intros * Hp H; [discriminate|].
  cbn [atoms_end] in H.
  replace (p <? e) with true in H by (symmetry; apply Z.ltb_lt; lia).
  destruct (_ && _); [|discriminate]. apply Hge in H. lia.
Qed.

Lemma foo_scan_atoms regexp fuel :
  forall i inf depth,
    0 <= i -> (1 <= fuel)%nat -> strlen regexp - i < Z.of_nat fuel ->
    atoms_valid regexp fuel i (strlen regexp) = true ->
    foo_scan regexp fuel 0 (strlen regexp) i inf depth
    = Some (ScanNext inf depth).
Proof.
  induction fuel as [|fuel IH]; intros i inf depth Hi Hf1 Hf Hv; [lia|].
  cbn [foo_scan]. cbn [atoms_valid] in Hv.
  destruct (i <? strlen regexp) eqn:Hlt; [|reflexivity]. bool_to_prop.
  destruct (atom_valid_cases regexp i ltac:(assumption))
    as (_ & Ho & Hc & Hb & _).
  apply Ascii.eqb_neq in Ho, Hc, Hb.
  unfold foo_step. rewrite !Z.add_0_l, Hb, Ho, Hc.
  pose proof (get_op_len_cases regexp i).
  apply IH; [lia|lia|lia|assumption].
Qed.

Lemma analyzed_atoms regexp :
  atoms_valid regexp (budget (strlen regexp) 0) 0 (strlen regexp) = true ->
  analyzed regexp = Some (flat_info regexp).
Proof.
  intros Hv. unfold analyzed, scan_of.
  rewrite foo_scan_atoms;
    [reflexivity|lia|unfold budget; lia|unfold budget; lia|exact Hv].
Qed.

(** X14.  For a non-empty pattern of single-byte atoms (ordinary bytes,
    ".", and the escapes "\S", "\s", "\d" and escaped metacharacters), the
    match call returns the end of the leftmost place where the atoms accept
    the subject one byte each, and 0 when there is none; the captures are
    untouched. *)
Theorem X14_atom_pattern_finds_leftmost_occurrence regexp subj s_len caps0 :
  atoms_valid regexp (budget (strlen regexp) 0) 0 (strlen regexp) = true ->
  1 <= strlen regexp ->
  slre_match regexp subj s_len caps0
  = Some (leftmost_atoms_end regexp subj (strlen regexp) s_len
                             (budget s_len 0) 0,
          caps0, static_error_no_match).
Proof.
  intros Hv Hn.
  rewrite (slre_match_flat regexp subj (analyzed_atoms regexp Hv)).
  assert (Hcaret : Ascii.eqb (char_at regexp 0) "^" = false).
  { unfold budget in Hv. cbn [atoms_valid] in Hv.
    replace (0 <? strlen regexp) with true in Hv
      by (symmetry; apply Z.ltb_lt; lia).
    bool_to_prop.
    destruct (atom_valid_cases regexp 0 ltac:(assumption))
      as (_ & _ & _ & _ & Hc & _).
    apply Ascii.eqb_neq. exact Hc. }
  assert (Hloop : forall fuel i,
             0 <= i -> (1 <= fuel)%nat -> s_len - i < Z.of_nat fuel ->
             foo_match regexp subj fuel 0 0 s_len i 0
                       (mk_mem caps0 (flat_info regexp))
             = Some (leftmost_atoms_end regexp subj (strlen regexp) s_len
                                        fuel i,
                     mk_mem caps0 (flat_info regexp))).
  { induction fuel as [|fuel IH]; intros i Hi Hf1 Hf; [lia|].
    cbn [foo_match leftmost_atoms_end].
    destruct (i <? s_len) eqn:Hlt; [|reflexivity]. bool_to_prop.
    rewrite (doh_flat_at regexp subj s_len i
               (mk_mem caps0 (flat_info regexp)) eq_refl).
    rewrite bar_loop_atoms;
      [|lia|unfold budget; lia|unfold budget; lia
       |rewrite !Z.add_0_l; exact Hv].
    rewrite !Z.add_0_l, !Z.add_0_r, Hcaret.
    replace (i + (s_len - i)) with s_len by lia.
    destruct (atoms_end regexp subj (budget (strlen regexp) 0) 0
                        (strlen regexp) i s_len) as [q|] eqn:E.
    - apply atoms_end_advances in E; [|lia].
      replace (q - i >? 0) with true
        by (symmetry; rewrite Z.gtb_ltb; apply Z.ltb_lt; lia).
      cbn [orb]. do 2 f_equal. f_equal. lia.
    - rewrite FAIL_mem_no_match by reflexivity.
      cbn [Z.gtb Z.compare orb]. apply IH; lia. }
  rewrite Hloop by (unfold budget; lia). reflexivity.
Qed.

Lemma X14_witness :
  slre_match "\d\d:\S" "at 12:x" 7 None
  = Some (leftmost_atoms_end "\d\d:\S" "at 12:x" (strlen "\d\d:\S") 7
                             (budget 7 0) 0,
          None, static_error_no_match)
  /\ leftmost_atoms_end "\d\d:\S" "at 12:x" (strlen "\d\d:\S") 7
                        (budget 7 0) 0 = 7.
Proof.
  split; [|vm_compute; reflexivity].
  apply (X14_atom_pattern_finds_leftmost_occurrence "\d\d:\S"%string
           "at 12:x"%string 7 None).
  - vm_compute. reflexivity.
  - vm_compute. discriminate.
Defined.

(** ** A quantified atom *)

Lemma atoms_valid_done pat k p e : e <= p -> atoms_valid pat k p e = true.
Proof.
  intros H. destruct k as [|k]; cbn [atoms_valid]; [reflexivity|].
  replace (p <? e) with false by (symmetry; apply Z.ltb_ge; lia).
  reflexivity.
Qed.

(** [bar] on one valid atom: it takes one subject byte the atom accepts. *)
Lemma bar_one_atom pat subj doh fuel p step s s_len m bi :
  atom_valid pat p = true -> step = get_op_len pat p ->
  bar pat subj doh (S fuel) p step s s_len m bi
  = if (0 <? s_len) && atom_accepts pat p (char_at subj s)
    then Some (1, m)
    else FAIL_mem m static_error_no_match.
Proof.
  intros Hv ->. cbn [bar].
  pose proof (get_op_len_cases pat p) as Hstep.
  rewrite bar_loop_atoms; [|lia|unfold budget; lia|unfold budget; lia|].
  - unfold budget. cbn [atoms_end]. rewrite !Z.add_0_r.
    replace (p <? p + get_op_len pat p) with true
      by (symmetry; apply Z.ltb_lt; lia).
    replace (s <? s + s_len) with (0 <? s_len)
      by (destruct (0 <? s_len) eqn:E; bool_to_prop; symmetry;
          [apply Z.ltb_lt|apply Z.ltb_ge]; lia).
    destruct ((0 <? s_len) && atom_accepts pat p (char_at subj s));
      [|reflexivity].
    destruct (Z.to_nat (get_op_len pat p - 0)) as [|k] eqn:Ek; [lia|].
    cbn [atoms_end].
    replace (p + get_op_len pat p <? p + get_op_len pat p) with false
      by (symmetry; apply Z.ltb_ge; lia).
    do 2 f_equal. lia.
  - unfold budget. cbn [atoms_valid]. rewrite !Z.add_0_r.
    replace (p <? p + get_op_len pat p) with true
      by (symmetry; apply Z.ltb_lt; lia).
    rewrite Hv. apply atoms_valid_done. lia.
Qed.

Section QuantifiedAtom.

Variables (regexp subj : string).
Hypothesis atom : atom_valid regexp 0 = true.
Hypothesis quantified :
  char_at regexp (get_op_len regexp 0) = "+"
  \/ char_at regexp (get_op_len regexp 0) = "*".
Hypothesis ends : strlen regexp = get_op_len regexp 0 + 1.

Lemma analyzed_quantified_atom : analyzed regexp = Some (flat_info regexp).
Proof.
  unfold analyzed, scan_of.
  pose proof (get_op_len_cases regexp 0) as Hstep.
  destruct (atom_valid_cases regexp 0 atom) as (_ & Ho & Hc & Hb & _).
  apply Ascii.eqb_neq in Ho, Hc, Hb.
  unfold budget.
  destruct (Z.to_nat (strlen regexp - 0)) as [|[|k]] eqn:Ek; try lia.
  cbn [foo_scan].
  replace (0 <? strlen regexp) with true by (symmetry; apply Z.ltb_lt; lia).
  unfold foo_step at 1. rewrite !Z.add_0_l, Hb, Ho, Hc.
  replace (get_op_len regexp 0 <? strlen regexp) with true
    by (symmetry; apply Z.ltb_lt; lia).
  unfold foo_step at 1. rewrite !Z.add_0_l.
  assert (Hq : get_op_len regexp (get_op_len regexp 0) = 1
               /\ Ascii.eqb (char_at regexp (get_op_len regexp 0)) "|" = false
               /\ Ascii.eqb (char_at regexp (get_op_len regexp 0)) "(" = false
               /\ Ascii.eqb (char_at regexp (get_op_len regexp 0)) ")"
                  = false).
  { unfold get_op_len at 1.
    destruct quantified as [-> | ->]; repeat split; reflexivity. }
  destruct Hq as (Hq1 & Hq2 & Hq3 & Hq4). rewrite Hq1, Hq2, Hq3, Hq4.
  destruct k as [|k]; cbn [foo_scan];
    replace (get_op_len regexp 0 + 1 <? strlen regexp) with false
      by (symmetry; apply Z.ltb_ge; lia);
    reflexivity.
Qed.

Let bar0 := bar regexp subj (doh regexp subj 0)
                (Z.to_nat (strlen regexp - 0)).

(** The repetition loop on the first atom, with nothing after the
    quantifier: it runs to the end of the run of accepted bytes. *)
Lemma quant_loop_run fuel :
  forall s s_len j2 bi m,
    error_msg (info m) = static_error_no_match ->
    0 <= j2 -> (1 <= fuel)%nat -> s_len - j2 < Z.of_nat fuel ->
    quant_loop bar0 fuel 0 (strlen regexp) s s_len 0
               (get_op_len regexp 0) (strlen regexp) false bi j2 j2 m
    = Some (run_end regexp subj fuel (s + j2) (s + s_len) - s, m).
Proof.
  induction fuel as [|fuel IH]; intros * Hmsg Hj Hf1 Hf.
  - lia.
  - cbn [quant_loop run_end].
    pose proof (get_op_len_cases regexp 0) as Hstep.
    unfold bar0 at 1.
    replace (Z.to_nat (strlen regexp - 0))
      with (S (Z.to_nat (strlen regexp - 0 - 1))) by lia.
    rewrite bar_one_atom by (rewrite ?Z.add_0_l; auto).
    rewrite Z.add_0_l.
    replace (s + j2 <? s + s_len) with (0 <? s_len - j2)
      by (destruct (0 <? s_len - j2) eqn:E; bool_to_prop; symmetry;
          [apply Z.ltb_lt|apply Z.ltb_ge]; lia).
    destruct ((0 <? s_len - j2)
              && atom_accepts regexp 0 (char_at subj (s + j2))) eqn:Hacc.
    + cbn [Z.gtb Z.compare].
      replace (strlen regexp >=? strlen regexp) with true
        by (symmetry; rewrite Z.geb_leb; apply Z.leb_le; lia).
      rewrite andb_false_r.
      bool_to_prop.
      rewrite IH by (auto; lia).
      rewrite Z.add_assoc. reflexivity.
    + rewrite FAIL_mem_no_match by assumption.
      cbn [Z.gtb Z.compare]. do 2 f_equal. lia.
Qed.

Lemma doh_quantified_atom s_len i m :
  arrays (info m) = arrays (flat_info regexp) ->
  error_msg (info m) = static_error_no_match ->
  0 <= i < s_len ->
  doh regexp subj (Z.to_nat (num_brackets (info m))) (0 + i) (s_len - i) m 0
  = Some (run_end regexp subj (budget (s_len - i) 0) i s_len - i, m).
Proof.
  intros A Hmsg Hi.
  rewrite (doh_flat_at regexp subj s_len i m A).
  pose proof (get_op_len_cases regexp 0) as Hstep.
  destruct (atom_valid_cases regexp 0 atom) as (Hq & _).
  unfold budget at 1. cbn [bar_loop].
  replace (0 <? strlen regexp) with true by (symmetry; apply Z.ltb_lt; lia).
  replace (0 <? s_len - i) with true by (symmetry; apply Z.ltb_lt; lia).
  cbn [andb]. rewrite !Z.add_0_l, Hq.
  replace (get_op_len regexp 0 <=? 0) with false
    by (symmetry; apply Z.leb_gt; lia).
  replace (get_op_len regexp 0 <? strlen regexp) with true
    by (symmetry; apply Z.ltb_lt; lia).
  replace (get_op_len regexp 0 + 1 <? strlen regexp) with false
    by (symmetry; apply Z.ltb_ge; lia).
  cbn [andb].
  assert (Hq1 : is_quantifier regexp (get_op_len regexp 0) = true)
    by (unfold is_quantifier; destruct quantified as [-> | ->]; reflexivity).
  assert (Hq2 : Ascii.eqb (char_at regexp (get_op_len regexp 0)) "?" = false)
    by (destruct quantified as [-> | ->]; reflexivity).
  assert (Hq3 : Ascii.eqb (char_at regexp (get_op_len regexp 0)) "+"
                || Ascii.eqb (char_at regexp (get_op_len regexp 0)) "*"
                = true)
    by (destruct quantified as [-> | ->]; reflexivity).
  assert (Hq4 : get_op_len regexp (get_op_len regexp 0) = 1)
    by (unfold get_op_len at 1;
        destruct quantified as [-> | ->]; reflexivity).
  rewrite Hq1, Hq2, Hq3, Hq4. cbn [andb].
  rewrite Z.add_0_r, <- ends.
  fold bar0.
  rewrite quant_loop_run by (auto; unfold budget; lia).
  rewrite Z.add_0_r.
  replace (i + (s_len - i)) with s_len by lia.
  destruct (_ && _) eqn:Hz; [|reflexivity].
  bool_to_prop.
  rewrite FAIL_mem_no_match by assumption. congruence.
Qed.

End QuantifiedAtom.

Lemma run_end_ge pat subj k : forall q limit, q <= run_end pat subj k q limit.
Proof.
  induction k as [|k IH]; intros q limit; cbn [run_end]; [lia|].
  destruct (_ && _); [|lia]. specialize (IH (q + 1) limit). lia.
Qed.

(** X15.  For a pattern that is one single-byte atom followed by "+" or by
    "*", the match call returns the end of the leftmost non-empty run of
    subject bytes the atom accepts, and 0 when no byte is accepted: the
    repetition is greedy, and "*" no more matches an empty run than "+"
    does. *)
Theorem X15_quantified_atom_takes_leftmost_run regexp subj s_len caps0 :
  atom_valid regexp 0 = true ->
  char_at regexp (get_op_len regexp 0) = "+"
  \/ char_at regexp (get_op_len regexp 0) = "*" ->
  strlen regexp = get_op_len regexp 0 + 1 ->
  slre_match regexp subj s_len caps0
  = Some (leftmost_run_end regexp subj s_len (budget s_len 0) 0,
          caps0, static_error_no_match).
Proof.
  intros Hv Hq He.
  rewrite (slre_match_flat regexp subj
             (analyzed_quantified_atom regexp Hv Hq He)).
  assert (Hcaret : Ascii.eqb (char_at regexp 0) "^" = false).
  { destruct (atom_valid_cases regexp 0 Hv) as (_ & _ & _ & _ & Hc & _).
    apply Ascii.eqb_neq. exact Hc. }
  assert (Hloop : forall fuel i,
             0 <= i -> (1 <= fuel)%nat -> s_len - i < Z.of_nat fuel ->
             foo_match regexp subj fuel 0 0 s_len i 0
                       (mk_mem caps0 (flat_info regexp))
             = Some (leftmost_run_end regexp subj s_len fuel i,
                     mk_mem caps0 (flat_info regexp))).
  { induction fuel as [|fuel IH]; intros i Hi Hf1 Hf; [lia|].
    cbn [foo_match leftmost_run_end].
    destruct (i <? s_len) eqn:Hlt; [|reflexivity]. bool_to_prop.
    rewrite (doh_quantified_atom regexp subj Hv Hq He s_len i
               (mk_mem caps0 (flat_info regexp)) eq_refl eq_refl)
      by lia.
    rewrite Z.add_0_l, Hcaret, orb_false_r. cbv zeta.
    replace (run_end regexp subj (budget (s_len - i) 0) i s_len - i >? 0)
      with (run_end regexp subj (budget (s_len - i) 0) i s_len >? i)
      by (rewrite !Z.gtb_ltb;
          destruct (i <? run_end regexp subj (budget (s_len - i) 0) i s_len)
            eqn:E; bool_to_prop; symmetry;
          [apply Z.ltb_lt|apply Z.ltb_ge]; lia).
    pose proof (run_end_ge regexp subj (budget (s_len - i) 0) i s_len)
      as Hge.
    destruct (_ >? i) eqn:Hr; bool_to_prop.
    - do 2 f_equal. f_equal. lia.
    - replace (run_end regexp subj (budget (s_len - i) 0) i s_len - i)
        with 0 by lia.
      apply IH; lia. }
  rewrite Hloop by (unfold budget; lia). reflexivity.
Qed.

Lemma X15_witness :
  slre_match "a*" "xaab" 4 None
  = Some (leftmost_run_end "a*" "xaab" 4 (budget 4 0) 0,
          None, static_error_no_match)
  /\ leftmost_run_end "a*" "xaab" 4 (budget 4 0) 0 = 3.
Proof.
  split; [|vm_compute; reflexivity].
  apply (X15_quantified_atom_takes_leftmost_run "a*"%string "xaab"%string 4
           None).
  - vm_compute. reflexivity.
  - right. vm_compute. reflexivity.
  - vm_compute. reflexivity.
Defined.

(** ** One group around ordinary bytes *)

Lemma char_at_app_l a b k :
  0 <= k < Z.of_nat (String.length a) ->
  char_at (a ++ b)%string k = char_at a k.
Proof.
  revert k. induction a as [|c a IH]; intros k Hk;
    cbn [String.length] in Hk; [lia|].
  cbn [String.append].
  destruct (Z.eq_dec k 0) as [->|Hne]; [reflexivity|].
  rewrite !char_at_cons by lia. apply IH. lia.
Qed.

Lemma char_at_app_r a b k :
  0 <= k ->
  char_at (a ++ b)%string (Z.of_nat (String.length a) + k) = char_at b k.
Proof.
  intros Hk. induction a as [|c a IH]; cbn [String.length String.append].
  - f_equal.
  - rewrite char_at_cons by lia. rewrite <- IH. f_equal. lia.
Qed.

Lemma strlen_app_simple a b :
  all_simple a = true ->
  strlen (a ++ b)%string = Z.of_nat (String.length a) + strlen b.
Proof.
  unfold strlen. intros H.
  induction a as [|c a IH]; cbn [String.append String.length];
    [reflexivity|].
  cbn [all_simple] in H. bool_to_prop.
  cbn [strlen_nat].
  match goal with
  | H : is_simple c = true |- _ => unfold is_simple in H
  end.
  bool_to_prop.
  match goal with H : Ascii.eqb c zero = false |- _ => rewrite H end.
  specialize (IH ltac:(assumption)). lia.
Qed.

Lemma strlen_cons c rest :
  c <> zero -> strlen (String c rest) = 1 + strlen rest.
Proof.
  intros H. apply Ascii.eqb_neq in H. unfold strlen. cbn [strlen_nat].
  rewrite H. lia.
Qed.

Lemma atoms_match_app a b subj k :
  forall p q limit,
    0 <= p -> p + Z.of_nat k <= Z.of_nat (String.length a) ->
    atoms_match (a ++ b)%string subj k p q limit
    = atoms_match a subj k p q limit.
Proof.
  induction k as [|k IH]; intros p q limit Hp Hk; cbn [atoms_match];
    [reflexivity|].
  rewrite char_at_app_l by lia. rewrite IH by lia. reflexivity.
Qed.

Lemma scan_after_simple_range pat k :
  forall re_len i inf depth,
    0 <= i -> i + Z.of_nat k <= re_len ->
    (forall j, i <= j < i + Z.of_nat k -> is_simple (char_at pat j) = true) ->
    scan_after pat k 0 re_len i inf depth
    = Some (i + Z.of_nat k, inf, depth).
Proof.
  induction k as [|k IH]; intros * Hi Hk Hs; cbn [scan_after].
  - do 2 f_equal. f_equal. lia.
  - replace (i <? re_len) with true by (symmetry; apply Z.ltb_lt; lia).
    pose proof (Hs i ltac:(lia)) as Hc. unfold is_simple in Hc.
    bool_to_prop.
    unfold foo_step, get_op_len. rewrite !Z.add_0_l.
    repeat match goal with
           | H : Ascii.eqb (char_at pat i) _ = false |- _ =>
             rewrite H; clear H
           end.
    rewrite IH; [|lia|lia|intros j Hj; apply Hs; lia].
    do 2 f_equal. f_equal. lia.
Qed.

Lemma doh_S pat subj fuel s s_len m bi :
  doh pat subj (S fuel) s s_len m bi
  = doh_loop pat subj (doh pat subj fuel)
             (budget (bracket_pair.num_branches (bracket_at (info m) bi)) 0)
             s s_len bi 0 m.
Proof. reflexivity. Qed.

Lemma bar_S pat subj doh fuel re re_len s s_len m bi :
  bar pat subj doh (S fuel) re re_len s s_len m bi
  = bar_loop pat subj doh (bar pat subj doh fuel) (budget re_len 0)
             re re_len s s_len 0 0 bi m.
Proof. reflexivity. Qed.

(** A bracket without branches is handed to [bar] once, as a whole. *)
Lemma doh_no_branch pat subj fuel s s_len m bi :
  bracket_pair.num_branches (bracket_at (info m) bi) = 0 ->
  doh pat subj (S fuel) s s_len m bi
  = bar pat subj (doh pat subj fuel)
        (budget (bracket_pair.len (bracket_at (info m) bi)) 0)
        (bracket_pair.ptr (bracket_at (info m) bi))
        (bracket_pair.len (bracket_at (info m) bi)) s s_len m bi.
Proof.
  intros H. rewrite doh_S, H. change (budget 0 0) with 1%nat.
  cbn [doh_loop]. unfold alt_ptr, alt_len. rewrite H.
  cbn [Z.eqb Z.ltb Z.compare].
  destruct (bar _ _ _ _ _ _ _ _ _ _) as [[r m1]|]; reflexivity.
Qed.

Section GroupLiteral.

Variables (lit subj : string).
Hypothesis simple : all_simple lit = true.
Hypothesis not_empty : lit <> EmptyString.

Let n := strlen lit.
Let regexp := group_pattern lit.

Lemma group_length : n = Z.of_nat (String.length lit) /\ 1 <= n.
Proof.
  unfold n. rewrite (all_simple_strlen lit simple). split; [reflexivity|].
  destruct lit; [congruence|]. cbn [String.length]. lia.
Qed.

Lemma group_strlen : strlen regexp = n + 2.
Proof.
  destruct group_length as [Hn _].
  unfold regexp, group_pattern.
  rewrite strlen_cons by discriminate.
  rewrite (strlen_app_simple lit ")" simple), <- Hn.
  change (strlen ")") with 1. lia.
Qed.

Lemma group_char_open : char_at regexp 0 = "(".
Proof. reflexivity. Qed.

Lemma group_char_lit k : 1 <= k <= n -> char_at regexp k = char_at lit (k - 1).
Proof.
  intros Hk. destruct group_length as [Hn _].
  unfold regexp, group_pattern. rewrite char_at_cons by lia.
  apply char_at_app_l. lia.
Qed.

Lemma group_char_simple k :
  1 <= k <= n -> is_simple (char_at regexp k) = true.
Proof.
  intros Hk. rewrite group_char_lit by assumption.
  apply all_simple_char_at; [exact simple|]. fold n. lia.
Qed.

Lemma group_char_close : char_at regexp (n + 1) = ")".
Proof.
  destruct group_length as [Hn H1].
  unfold regexp, group_pattern. rewrite char_at_cons by lia.
  replace (n + 1 - 1) with (Z.of_nat (String.length lit) + 0) by lia.
  rewrite char_at_app_r by lia. reflexivity.
Qed.

Lemma analyzed_group : analyzed regexp = Some (group_info n).
Proof.
  destruct group_length as [Hn H1].
  pose proof group_strlen as HN.
  unfold analyzed, scan_of.
  assert (Hscan : foo_scan regexp (budget (strlen regexp) 0) 0
                           (strlen regexp) 0 (scan_start regexp) 0
                  = Some (ScanNext
                            (mk_regex_info
                               [bracket_pair.mk 0 (strlen regexp) 0 0;
                                bracket_pair.mk 1 n 0 0] 2 [] 0
                               static_error_no_match 0) 0)).
  { rewrite (foo_scan_after regexp (S (Z.to_nat n))
               (budget (strlen regexp) 0) 2%nat 0 (strlen regexp) 0
               (scan_start regexp) 0 (n + 1)
               (mk_regex_info
                  [bracket_pair.mk 0 (strlen regexp) 0 0;
                   bracket_pair.mk 1 (-1) 0 0] 2 [] 0
                  static_error_no_match 0) 1);
      [| |unfold budget; lia..].
    - cbn [foo_scan].
      replace (n + 1 <? strlen regexp) with true
        by (symmetry; apply Z.ltb_lt; lia).
      pose proof (group_char_simple n ltac:(lia)) as Hc.
      unfold is_simple in Hc. bool_to_prop.
      unfold foo_step, get_op_len. rewrite !Z.add_0_l, group_char_close.
      cbn [Ascii.eqb Bool.eqb].
      replace (n + 1 - 1) with n by lia.
      match goal with
      | H : Ascii.eqb (char_at regexp n) "(" = false |- _ => rewrite H
      end.
      replace (n + 1 + 1 <? strlen regexp) with false
        by (symmetry; apply Z.ltb_ge; lia).
      replace (n + 1 >? 0) with true
        by (symmetry; rewrite Z.gtb_ltb; apply Z.ltb_lt; lia).
      generalize (strlen regexp). intros N.
      match goal with
      | |- context [open_bracket ?inf 1] =>
        change (open_bracket inf 1) with 1;
        change (bracket_at inf 1) with (bracket_pair.mk 1 (-1) 0 0)
      end.
      cbn [bracket_pair.ptr]. replace (n + 1 - 1) with n by lia.
      reflexivity.
    - cbn [scan_after].
      replace (0 <? strlen regexp) with true
        by (symmetry; apply Z.ltb_lt; lia).
      unfold foo_step, get_op_len. rewrite !Z.add_0_l, group_char_open.
      cbn [Ascii.eqb Bool.eqb].
      change (num_brackets (scan_start regexp) >=? MAX_BRACKETS) with false.
      cbv iota.
      rewrite scan_after_simple_range;
        [|lia|lia|intros j Hj; apply group_char_simple; lia].
      rewrite Z2Nat.id by lia. rewrite Z.add_comm. reflexivity. }
  rewrite Hscan. cbn [Z.eqb]. rewrite HN. reflexivity.
Qed.

(** The call of [doh] at subject offset [i]. *)
Lemma doh_group s_len i m :
  arrays (info m) = arrays (group_info n) ->
  error_msg (info m) = static_error_no_match ->
  0 <= i < s_len ->
  doh regexp subj (Z.to_nat (num_brackets (info m))) (0 + i) (s_len - i) m 0
  = if atoms_match lit subj (Z.to_nat n) 0 i s_len
    then Some (n, store_cap m 0 i n)
    else Some (0, m).
Proof.
  intros A Hmsg Hi.
  destruct group_length as [Hn H1].
  pose proof group_strlen as HN.
  assert (Hb0 : bracket_at (info m) 0 = bracket_pair.mk 0 (n + 2) 0 0)
    by (rewrite (arrays_bracket_at _ _ 0 A); reflexivity).
  assert (Hb1 : bracket_at (info m) 1 = bracket_pair.mk 1 n 0 0)
    by (rewrite (arrays_bracket_at _ _ 1 A); reflexivity).
  assert (Hnb : num_brackets (info m) = 2)
    by (rewrite (arrays_num_brackets _ _ A); reflexivity).
  (* the inner call: the atoms of the group *)
  assert (Hinner :
            doh regexp subj 1 (0 + i + 0) (s_len - i - 0) m (0 + 1)
            = if atoms_match lit subj (Z.to_nat n) 0 i s_len
              then Some (n, m) else Some (0, m)).
  { change (0 + 1) with 1.
    rewrite doh_no_branch by (rewrite Hb1; reflexivity).
    rewrite Hb1. cbn [bracket_pair.ptr bracket_pair.len].
    unfold budget at 1. rewrite bar_S.
    rewrite bar_loop_simple;
      [|lia|unfold budget; lia
       |intros k Hk; apply group_char_simple; lia].
    rewrite !Z.add_0_r, !Z.sub_0_r, !Z.add_0_l.
    replace (i + (s_len - i)) with s_len by lia.
    unfold regexp at 1, group_pattern.
    rewrite atoms_match_cons by lia. change (1 - 1) with 0.
    rewrite atoms_match_app by lia.
    destruct (atoms_match lit subj (Z.to_nat n) 0 i s_len);
      [reflexivity|].
    rewrite FAIL_mem_no_match by assumption. reflexivity. }
  rewrite Hnb. change (Z.to_nat 2) with 2%nat.
  rewrite doh_no_branch by (rewrite Hb0; reflexivity).
  rewrite Hb0. cbn [bracket_pair.ptr bracket_pair.len].
  unfold budget at 1. rewrite bar_S. unfold budget at 1. cbn [bar_loop].
  replace (0 <? n + 2) with true by (symmetry; apply Z.ltb_lt; lia).
  replace (0 <? s_len - i) with true by (symmetry; apply Z.ltb_lt; lia).
  cbn [andb].
  unfold is_quantifier, get_op_len. rewrite !Z.add_0_l.
  fold regexp. rewrite group_char_open.
  cbn [Ascii.eqb Bool.eqb orb Z.leb Z.compare].
  pose proof (group_char_simple 1 ltac:(lia)) as Hc1.
  unfold is_simple in Hc1. bool_to_prop.
  repeat match goal with
         | H : Ascii.eqb (char_at regexp 1) _ = false |- _ =>
           rewrite H; clear H
         end.
  rewrite !andb_false_r. cbn [andb orb].
  rewrite Hnb. cbn [Z.geb Z.compare].
  replace (doh regexp subj 1 (i + 0) (s_len - i - 0) m 1)
    with (doh regexp subj 1 (0 + i + 0) (s_len - i - 0) m (0 + 1))
    by (rewrite Z.add_0_l; reflexivity).
  rewrite Hinner.
  destruct (atoms_match lit subj (Z.to_nat n) 0 i s_len).
  - change (1 >=? 2) with false. cbv iota.
    replace (n <=? 0) with false by (symmetry; apply Z.leb_gt; lia).
    rewrite arrays_store_cap, Hb1. cbn [bracket_pair.len].
    change (1 - 1) with 0. rewrite !Z.add_0_r, !Z.add_0_l.
    destruct (Z.to_nat (n + 2 - 0)) as [|k] eqn:Ek; [lia|].
    cbn [bar_loop].
    replace (n + 1 + 1 <? n + 2) with false
      by (symmetry; apply Z.ltb_ge; lia).
    cbn [andb]. reflexivity.
  - change (1 >=? 2) with false. cbv iota.
    cbn [Z.leb Z.compare].
    rewrite FAIL_mem_no_match by assumption. reflexivity.
Qed.

End GroupLiteral.

(** X16.  For the pattern "(lit)" of one group around ordinary bytes and
    ".", the match call returns the end of the leftmost occurrence of [lit]
    in the subject, and on a match stores that occurrence, its offset and
    its length, into slot 0 of the capture array; without a match it
    returns 0 and leaves the array alone. *)
Theorem X16_group_captures_the_occurrence lit subj s_len caps0 :
  all_simple lit = true ->
  lit <> EmptyString ->
  let n := strlen lit in
  let r := leftmost_end lit subj n s_len (budget s_len 0) 0 in
  slre_match (group_pattern lit) subj s_len caps0
  = Some (r, if 0 <? r then with_capture_0 caps0 (r - n) n else caps0,
          static_error_no_match).
Proof.
  intros Hs Hne n r.
  destruct (group_length lit Hs Hne) as [Hn H1]. fold n in Hn, H1.
  rewrite (slre_match_analyzed _ subj s_len caps0 _
             (analyzed_group lit Hs Hne)).
  fold n.
  set (m0 := mk_mem caps0 (group_info n)).
  assert (Hloop : forall fuel i,
             0 <= i -> (1 <= fuel)%nat -> s_len - i < Z.of_nat fuel ->
             foo_match (group_pattern lit) subj fuel 0 0 s_len i 0 m0
             = let r := leftmost_end lit subj n s_len fuel i in
               Some (r, if 0 <? r then store_cap m0 0 (r - n) n else m0)).
  { induction fuel as [|fuel IH]; intros i Hi Hf1 Hf; [lia|].
    cbn [foo_match leftmost_end]. cbv zeta.
    destruct (i <? s_len) eqn:Hlt; [|reflexivity]. bool_to_prop.
    rewrite (doh_group lit subj Hs Hne s_len i m0 eq_refl eq_refl)
      by lia.
    fold n.
    destruct (atoms_match lit subj (Z.to_nat n) 0 i s_len).
    - replace (n >? 0) with true
        by (symmetry; rewrite Z.gtb_ltb; apply Z.ltb_lt; lia).
      cbn [orb].
      replace (0 <? i + n) with true by (symmetry; apply Z.ltb_lt; lia).
      replace (i + n - n) with i by lia.
      rewrite Z.add_comm. reflexivity.
    - cbn [Z.gtb Z.compare orb].
      change (char_at (group_pattern lit) (0 + 0)) with "(".
      cbn [Ascii.eqb Bool.eqb].
      rewrite IH by lia. reflexivity. }
  rewrite Hloop by (unfold budget; lia). cbv zeta. fold r.
  destruct (0 <? r); [|reflexivity].
  unfold store_cap, with_capture_0, m0. cbn [caps info].
  destruct caps0; reflexivity.
Qed.

Lemma X16_witness :
  slre_match (group_pattern "ab") "xaby" 4 (Some [slre_cap.mk 0 0])
  = Some (3, Some [slre_cap.mk 1 2], static_error_no_match).
Proof.
  apply (X16_group_captures_the_occurrence "ab"%string "xaby"%string 4
           (Some [slre_cap.mk 0 0])).
  - vm_compute. reflexivity.
  - discriminate.
Defined.
